(** * TempoStrike: chart generation, note life cycle and scoring

    A shallow embedding of the game core of the TempoStrike rhythm game:
    - [generateChart] of [constants.ts],
    - the gameplay part of the [useFrame] callback of [GameScene],
    - the handlers [handleNoteHit], [handleNoteMiss] and
      [handleStartRequest] of [App.tsx],
    - [switchSong], the countdown effect with [startGameplay], and the
      playlist with its active song, of [App.tsx],
    - the filter [visibleNotes] and the decay of the camera shake of
      [GameScene].

    JavaScript numbers are read as exact rationals ([Q]) in the frame and
    in the first model of [generateChart]: no operation rounds there, and
    NaN and the infinities are left out.  The session counters (score,
    combo, multiplier, health) are integers ([Z]).  The module [Binary64]
    gives [generateChart] again in IEEE 754 binary64 arithmetic, as the
    source computes it; what depends on rounding is stated there. *)

From Stdlib Require Import String DecimalString DecimalNat.
From Stdlib Require Import QArith Qround Qabs ZArith List Bool Lia Lqa.
From Stdlib Require Import Sorted Permutation.
From Stdlib Require PrimFloat SpecFloat FloatOps FloatAxioms Uint63.
Import ListNotations.

Open Scope Q_scope.

(** ** Comparisons of JavaScript numbers *)

(** [a <= b] on numbers. *)
Definition Qleb (a b : Q) : bool := Qle_bool a b.

(** [a < b] on numbers. *)
Definition Qltb (a b : Q) : bool := negb (Qle_bool b a).

(** ** The types of [./types] *)

(** Modelled from the spec: the enum [CutDirection] of [./types], which is
    not among the sources; section 3 lists its five values. *)
Inductive CutDirection := UP | DOWN | LEFT | RIGHT | ANY.

(** Modelled from the spec: the hand of a note (the string field [type],
    ['left'] or ['right']). *)
Inductive Hand := LeftHand | RightHand.

(** Modelled from the spec: the interface [NoteData] of [./types], with the
    fields that [generateChart] writes and [GameScene] reads and mutates.
    The optional flags [hit] and [missed] are [false] when absent. *)
Record NoteData := mkNote {
  id : string;
  time : Q;
  lineIndex : Z;
  lineLayer : Z;
  type : Hand;
  cutDirection : CutDirection;
  hit : bool;
  missed : bool;
  hitTime : option Q
}.

(** Modelled from the spec: the enum [GameStatus] of [./types]. *)
Inductive GameStatus := LOADING | IDLE | COUNTDOWN | PLAYING | VICTORY | GAME_OVER.

(** ** constants.ts *)

Definition TRACK_LENGTH : Q := 50.
Definition SPAWN_Z : Q := -30.
Definition PLAYER_Z : Q := 0.
Definition MISS_Z : Q := 5.
Definition NOTE_SPEED : Q := 10.

Definition LANE_WIDTH : Q := 1.4.
Definition LAYER_HEIGHT : Q := 0.8.
Definition NOTE_SIZE : Q := 0.7.

Definition LANE_X_POSITIONS : list Q :=
  [-1.5 * LANE_WIDTH; -0.5 * LANE_WIDTH; 0.5 * LANE_WIDTH; 1.5 * LANE_WIDTH].
Definition LAYER_Y_POSITIONS : list Q := [0.8; 1.6; 2.4].

(** [getRandomInt(min, max)], given the value [r] that [Math.random()]
    returns for this call. *)
Definition getRandomInt (min max : Z) (r : Q) : Z :=
  (Qfloor (r * inject_Z (max - min + 1)) + min)%Z.

(** The template literal [`note-${idCount}`]. *)
Definition noteId (idCount : nat) : string :=
  ("note-" ++ NilEmpty.string_of_uint (Nat.to_uint idCount))%string.

(** The mutable locals of [generateChart]: the array [notes], the counter
    [idCount], and the number of calls made to [Math.random()] so far.  The
    random source is a sequence [rand : nat -> Q], whose [k]-th element is
    the result of the [k]-th call. *)
Record GenState := mkGen {
  notes : list NoteData;
  idCount : nat;
  draws : nat
}.

(** One [notes.push({...})] with a random lane: the object literal is
    evaluated field by field, [idCount++] first, then [getRandomInt]. *)
Definition pushRandom (rand : nat -> Q) (t : Q) (lo hi : Z) (h : Hand)
    (st : GenState) : GenState :=
  mkGen (notes st ++
           [mkNote (noteId (idCount st)) t (getRandomInt lo hi (rand (draws st)))
                   0 h ANY false false None])
        (S (idCount st)) (S (draws st)).

(** One pushed note with a fixed lane and layer (the wide doubles). *)
Definition pushFixed (t : Q) (lane layer : Z) (h : Hand) (st : GenState) : GenState :=
  mkGen (notes st ++ [mkNote (noteId (idCount st)) t lane layer h ANY false false None])
        (S (idCount st)) (draws st).

(** The body of the [for] loop of [generateChart] at beat index [i]. *)
Definition chartStep (rand : nat -> Q) (offset beatTime : Q) (i : Z)
    (st : GenState) : GenState :=
  let t := offset + inject_Z i * beatTime in
  let pattern := Z.rem (i / 16) 3 in
  if (pattern =? 0)%Z then
    if (Z.rem i 4 =? 0)%Z
    then pushRandom rand t 0 1 LeftHand st
    else pushRandom rand t 2 3 RightHand st
  else if (pattern =? 1)%Z then
    if (Z.rem i 8 =? 0)%Z
    then pushFixed t 3 1 RightHand (pushFixed t 0 1 LeftHand st)
    else st
  else
    pushRandom rand (t + beatTime) 2 3 RightHand (pushRandom rand t 0 1 LeftHand st).

(** [for (let i = 4; i < totalBeats; i += 2) { ... }], entered at [i]; the
    fuel bounds the number of iterations. *)
Fixpoint chartLoop (fuel : nat) (rand : nat -> Q) (offset beatTime : Q)
    (totalBeats i : Z) (st : GenState) : GenState :=
  match fuel with
  | O => st
  | S fuel' =>
      if (i <? totalBeats)%Z
      then chartLoop fuel' rand offset beatTime totalBeats (i + 2)
             (chartStep rand offset beatTime i st)
      else st
  end.

(** The comparator [(a, b) => a.time - b.time]. *)
Definition compareTime (a b : NoteData) : Q := time a - time b.

(** [Array.prototype.sort(cmp)] is a stable sort: an element is placed
    before the first element it does not compare greater than. *)
Fixpoint insertBy {A : Type} (cmp : A -> A -> Q) (a : A) (l : list A) : list A :=
  match l with
  | [] => [a]
  | b :: l' => if Qleb (cmp a b) 0 then a :: l else b :: insertBy cmp a l'
  end.

Definition sortBy {A : Type} (cmp : A -> A -> Q) (l : list A) : list A :=
  fold_right (insertBy cmp) [] l.

(** The notes pushed by the loop of [generateChart], before the sort, in
    exact arithmetic: [totalBeats] is the ceiling of the exact product and
    the note times are exact sums.  The source rounds each operation; that
    reading is [Binary64.chartNotes]. *)
Definition chartNotes (rand : nat -> Q) (bpm offset durationSeconds : Q) : list NoteData :=
  let beatTime := 60 / bpm in
  let totalBeats := Qceiling ((durationSeconds / 60) * bpm) in
  notes (chartLoop (Z.to_nat totalBeats) rand offset beatTime totalBeats 4
           (mkGen [] 0 0)).

(** [generateChart(bpm, offset, durationSeconds)].  For [bpm = 0] the source
    computes [beatTime = Infinity] where [Q] gives [0]; the loop is not
    entered then, so [beatTime] is not used. *)
Definition generateChart (rand : nat -> Q) (bpm offset durationSeconds : Q) : list NoteData :=
  sortBy compareTime (chartNotes rand bpm offset durationSeconds).

(** What a call of a JavaScript function can do: return a value or throw. *)
Inductive Completion (A : Type) :=
  | Returned (v : A)
  | Thrown (message : string).
Arguments Returned {A} v.
Arguments Thrown {A} message.

(** A call of [generateChart] as a completion.  The body has no [throw]
    statement and every operation it applies to numbers and arrays is total,
    so the call always completes normally. *)
Definition generateChart_call (rand : nat -> Q) (bpm offset durationSeconds : Q)
    : Completion (list NoteData) :=
  Returned (generateChart rand bpm offset durationSeconds).

(** A random source that always draws [0.25]. *)
Definition randQuarter : nat -> Q := fun _ => 0.25.
(** A random source that alternates between [0.75] and [0.25]. *)
Definition randAlt : nat -> Q := fun k => if Nat.even k then 0.75 else 0.25.

(** ** App.tsx: the session state and its handlers *)

(** The React state of [App] that the handlers read and write, and the
    number of [setTimeout(() => endGame(false), 0)] calls made so far (the
    defeat signals). *)
Record SessionState := mkSession {
  score : Z;
  combo : Z;
  multiplier : Z;
  health : Z;
  countdown : Z;
  isNoFailMode : bool;
  gameStatus : GameStatus;
  defeatSignals : nat
}.

(** The initial values of the [useState] calls. *)
Definition initialSession : SessionState :=
  mkSession 0 0 1 100 0 false LOADING 0.

(** The multiplier that the updater of [setCombo] selects for [newCombo]. *)
Definition multiplierFor (newCombo : Z) : Z :=
  if (newCombo >? 30)%Z then 8%Z
  else if (newCombo >? 20)%Z then 4%Z
  else if (newCombo >? 10)%Z then 2%Z
  else 1%Z.

(** [handleNoteHit(note, goodCut)].  The callback is memoised on
    [multiplier]: it reads the value [multiplier_r] of the render that
    created it, while the updaters of [setCombo], [setScore] and [setHealth]
    receive the current state. *)
Definition handleNoteHit (multiplier_r : Z) (goodCut : bool) (s : SessionState)
    : SessionState :=
  let points := 100%Z in
  let points := if goodCut then (points + 50)%Z else points in
  let newCombo := (combo s + 1)%Z in
  mkSession (score s + points * multiplier_r)%Z
            newCombo
            (multiplierFor newCombo)
            (Z.min 100 (health s + 2))
            (countdown s) (isNoFailMode s) (gameStatus s) (defeatSignals s).

(** [handleNoteMiss(note)], memoised on [isNoFailMode]. *)
Definition handleNoteMiss (isNoFailMode_r : bool) (s : SessionState) : SessionState :=
  if negb isNoFailMode_r then
    let newHealth := (health s - 15)%Z in
    if (newHealth <=? 0)%Z
    then mkSession (score s) 0 1 0 (countdown s) (isNoFailMode s) (gameStatus s)
                   (S (defeatSignals s))
    else mkSession (score s) 0 1 newHealth (countdown s) (isNoFailMode s)
                   (gameStatus s) (defeatSignals s)
  else mkSession (score s) 0 1 (health s) (countdown s) (isNoFailMode s)
                 (gameStatus s) (defeatSignals s).

(** [handleStartRequest()]: the part that acts on the session state. *)
Definition handleStartRequest (isCameraReady : bool) (s : SessionState) : SessionState :=
  if negb isCameraReady then s
  else mkSession 0 0 1 100 4 (isNoFailMode s) COUNTDOWN (defeatSignals s).

(** [activeChart.forEach(n => { n.hit = false; n.missed = false; })], the
    part of [handleStartRequest] that acts on the chart. *)
Definition resetChart (chart : list NoteData) : list NoteData :=
  map (fun n => mkNote (id n) (time n) (lineIndex n) (lineLayer n) (type n)
                       (cutDirection n) false false (hitTime n)) chart.

(** [endGame(victory)]. *)
Definition endGame (victory : bool) (s : SessionState) : SessionState :=
  mkSession (score s) (combo s) (multiplier s) (health s) (countdown s)
            (isNoFailMode s) (if victory then VICTORY else GAME_OVER)
            (defeatSignals s).

(** The calls that [GameScene] makes on its props: [onNoteHit(note, goodCut)],
    [onNoteMiss(note)] and [onSongEnd()].  A note is named by its position
    in the chart. *)
Inductive Callback :=
  | OnNoteHit (note : nat) (goodCut : bool)
  | OnNoteMiss (note : nat)
  | OnSongEnd.

(** One callback, served by the handlers of the current render of [App]. *)
Definition dispatch (s : SessionState) (c : Callback) : SessionState :=
  match c with
  | OnNoteHit _ goodCut => handleNoteHit (multiplier s) goodCut s
  | OnNoteMiss _ => handleNoteMiss (isNoFailMode s) s
  | OnSongEnd => endGame true s
  end.

(** A sequence of callbacks, [App] rendering after each, as when no frame
    makes more than one callback; [dispatchFrame] below serves the callbacks
    of one frame. *)
Definition dispatchAll (s : SessionState) (cs : list Callback) : SessionState :=
  fold_left dispatch cs s.

(** The session states after each callback of a sequence. *)
Fixpoint sessionTrace (s : SessionState) (cs : list Callback) : list SessionState :=
  match cs with
  | [] => []
  | c :: cs' => dispatch s c :: sessionTrace (dispatch s c) cs'
  end.

(** ** GameScene: the gameplay part of [useFrame] *)

(** A [THREE.Vector3]. *)
Record Vector3 := mkVec { vx : Q; vy : Q; vz : Q }.

Definition dot (a b : Vector3) : Q := vx a * vx b + vy a * vy b + vz a * vz b.
Definition sub (a b : Vector3) : Vector3 :=
  mkVec (vx a - vx b) (vy a - vy b) (vz a - vz b).
(** [v.lengthSq()]. *)
Definition lengthSq (v : Vector3) : Q := dot v v.

(** [DIRECTION_VECTORS] of constants.ts. *)
Definition DIRECTION_VECTORS (d : CutDirection) : Vector3 :=
  match d with
  | UP => mkVec 0 1 0
  | DOWN => mkVec 0 (-1) 0
  | LEFT => mkVec (-1) 0 0
  | RIGHT => mkVec 1 0 0
  | ANY => mkVec 0 0 0
  end.

(** Modelled from the spec: the interface [HandPositions] of [./types]: a
    hand position is absent ([null]) when the hand is not detected; the
    velocities are read without a test. *)
Module Hands.
Record HandPositions := mk {
  left : option Vector3;
  right : option Vector3;
  leftVelocity : Vector3;
  rightVelocity : Vector3
}.
End Hands.

(** The two fields of [audioRef.current] that the frame reads. *)
Record Audio := mkAudio { currentTime : Q; ended : bool }.

(** [LANE_X_POSITIONS[i]] and [LAYER_Y_POSITIONS[i]]: reading outside the
    array gives [undefined]. *)
Definition lookupQ (l : list Q) (i : Z) : option Q :=
  if (i <? 0)%Z then None else nth_error l (Z.to_nat i).

(** [a.distanceTo(b) < r] for [r >= 0], as a comparison of squares. *)
Definition distanceBelow (a b : Vector3) (r : Q) : bool :=
  Qltb (lengthSq (sub a b)) (r * r).

(** [v.length() < r] for [r >= 0], as a comparison of squares. *)
Definition lengthBelow (v : Vector3) (r : Q) : bool :=
  Qltb (lengthSq v) (r * r).

(** [vecB.copy(v).normalize().dot(d) < r] for [r > 0]: [normalize] leaves the
    zero vector as it is, so the test holds when [v . d <= 0], and otherwise
    when [(v . d)^2 < r^2 |v|^2]. *)
Definition normalizedDotBelow (v d : Vector3) (r : Q) : bool :=
  Qleb (dot v d) 0 || Qltb (dot v d * dot v d) (r * r * lengthSq v).

(** [PLAYER_Z - (note.time - time) * NOTE_SPEED]. *)
Definition currentZ (t : Q) (note : NoteData) : Q :=
  let timeDiff := time note - t in
  PLAYER_Z - timeDiff * NOTE_SPEED.

(** The miss check [currentZ > MISS_Z]. *)
Definition pastMissPlane (t : Q) (note : NoteData) : bool :=
  Qltb MISS_Z (currentZ t note).

(** The window test [currentZ > PLAYER_Z - 1.5 && currentZ < PLAYER_Z + 1.0]. *)
Definition nearPlayer (t : Q) (note : NoteData) : bool :=
  Qltb (PLAYER_Z - 1.5) (currentZ t note) && Qltb (currentZ t note) (PLAYER_Z + 1.0).

(** The quality of a cut, once the hand touches the note. *)
Definition goodCutOf (note : NoteData) (handVel : Vector3) : bool :=
  match cutDirection note with
  | ANY => negb (lengthBelow handVel 1.5)
  | d => negb (normalizedDotBelow handVel (DIRECTION_VECTORS d) 0.3
               || lengthBelow handVel 1.5)
  end.

(** The collision check of a note inside the window: [Some goodCut] when the
    hand of the note is present and closer than [0.9] to the note. *)
Definition collision (t : Q) (hands : Hands.HandPositions) (note : NoteData) : option bool :=
  let handPos := match type note with
                 | LeftHand => Hands.left hands
                 | RightHand => Hands.right hands
                 end in
  let handVel := match type note with
                 | LeftHand => Hands.leftVelocity hands
                 | RightHand => Hands.rightVelocity hands
                 end in
  match handPos with
  | None => None
  | Some p =>
      match lookupQ LANE_X_POSITIONS (lineIndex note),
            lookupQ LAYER_Y_POSITIONS (lineLayer note) with
      | Some x, Some y =>
          if distanceBelow p (mkVec x y (currentZ t note)) 0.9
          then Some (goodCutOf note handVel)
          else None
      | _, _ => None
      end
  end.

(** What one iteration of the loop over the active notes decides. *)
Inductive Verdict :=
  | Skipped                      (* [note.hit || note.missed]: [continue] *)
  | Missed                       (* the miss branch *)
  | Cut (goodCut : bool)         (* the hit branch *)
  | Kept.                        (* the note stays active *)

(** The two tests of an iteration, in the order in which they are evaluated. *)
Inductive Check := MissCheck | CollisionCheck.

(** The decision of one iteration for [note], with the tests it evaluates
    on the way, in order. *)
Definition evalNote (t : Q) (hands : Hands.HandPositions) (note : NoteData)
    : list Check * Verdict :=
  if hit note || missed note then ([], Skipped)
  else if pastMissPlane t note then ([MissCheck], Missed)
  else if nearPlayer t note then
    match collision t hands note with
    | Some goodCut => ([MissCheck; CollisionCheck], Cut goodCut)
    | None => ([MissCheck; CollisionCheck], Kept)
    end
  else ([MissCheck; CollisionCheck], Kept).

(** The refs and state of [GameScene]: [notesState] holds the note objects
    of the chart; [activeNotesRef.current] holds references to some of them,
    a reference being the position of the object in [notesState]. *)
Record SceneState := mkScene {
  notesState : list NoteData;
  activeNotes : list nat;
  nextNoteIndex : nat
}.

(** The scene after [setNotesState(chart)] and the reset of both refs. *)
Definition initScene (chart : list NoteData) : SceneState := mkScene chart [] 0.

(** Assignment to fields of the object at position [k]. *)
Fixpoint updateAt {A : Type} (k : nat) (f : A -> A) (l : list A) : list A :=
  match l, k with
  | [], _ => []
  | a :: l', O => f a :: l'
  | a :: l', S k' => a :: updateAt k' f l'
  end.

(** [arr.splice(i, 1)]. *)
Definition splice1 {A : Type} (i : nat) (l : list A) : list A :=
  firstn i l ++ skipn (S i) l.

(** [note.missed = true]. *)
Definition markMissed (n : NoteData) : NoteData :=
  mkNote (id n) (time n) (lineIndex n) (lineLayer n) (type n) (cutDirection n)
         (hit n) true (hitTime n).

(** [note.hit = true; note.hitTime = time]. *)
Definition markHit (t : Q) (n : NoteData) : NoteData :=
  mkNote (id n) (time n) (lineIndex n) (lineLayer n) (type n) (cutDirection n)
         true (missed n) (Some t).

(** [Math.abs(SPAWN_Z - PLAYER_Z) / NOTE_SPEED]. *)
Definition spawnAheadTime : Q := Qabs (SPAWN_Z - PLAYER_Z) / NOTE_SPEED.

(** The admission test [nextNote.time - spawnAheadTime <= time]. *)
Definition dueBy (t : Q) (note : NoteData) : bool :=
  Qleb (time note - spawnAheadTime) t.

(** [while (nextNoteIndexRef.current < notesState.length) { ... }]; the fuel
    bounds the number of iterations. *)
Fixpoint spawnLoop (fuel : nat) (t : Q) (s : SceneState) : SceneState :=
  match fuel with
  | O => s
  | S fuel' =>
      if (nextNoteIndex s <? length (notesState s))%nat then
        match nth_error (notesState s) (nextNoteIndex s) with
        | Some nextNote =>
            if dueBy t nextNote
            then spawnLoop fuel' t
                   (mkScene (notesState s) (activeNotes s ++ [nextNoteIndex s])
                            (S (nextNoteIndex s)))
            else s
        | None => s
        end
      else s
  end.

(** Step 1 of the frame, with fuel for every note of the chart. *)
Definition spawnNotes (t : Q) (s : SceneState) : SceneState :=
  spawnLoop (length (notesState s)) t s.

(** The body of the loop of step 2 at index [i], with the callbacks made so
    far. *)
Definition collideNote (t : Q) (hands : Hands.HandPositions) (i : nat)
    (st : SceneState * list Callback) : SceneState * list Callback :=
  let (s, out) := st in
  match nth_error (activeNotes s) i with
  | None => st
  | Some ref =>
      match nth_error (notesState s) ref with
      | None => st
      | Some note =>
          match snd (evalNote t hands note) with
          | Skipped => st
          | Kept => st
          | Missed =>
              (mkScene (updateAt ref markMissed (notesState s))
                       (splice1 i (activeNotes s)) (nextNoteIndex s),
               out ++ [OnNoteMiss ref])
          | Cut goodCut =>
              (mkScene (updateAt ref (markHit t) (notesState s))
                       (splice1 i (activeNotes s)) (nextNoteIndex s),
               out ++ [OnNoteHit ref goodCut])
          end
      end
  end.

(** [for (let i = activeNotesRef.current.length - 1; i >= 0; i--)], with
    [n = i + 1] iterations left. *)
Fixpoint collideLoop (n : nat) (t : Q) (hands : Hands.HandPositions)
    (st : SceneState * list Callback) : SceneState * list Callback :=
  match n with
  | O => st
  | S i => collideLoop i t hands (collideNote t hands i st)
  end.

(** The gameplay part of the [useFrame] callback: the new scene and the
    callbacks made, in order. *)
Definition useFrame (status : GameStatus) (audio : option Audio)
    (hands : Hands.HandPositions) (s : SceneState) : SceneState * list Callback :=
  match status, audio with
  | PLAYING, Some a =>
      let t := currentTime a in
      if ended a then (s, [OnSongEnd])
      else
        let s1 := spawnNotes t s in
        collideLoop (length (activeNotes s1)) t hands (s1, [])
  | _, _ => (s, [])
  end.

(** The inputs of one frame. *)
Record Frame := mkFrame {
  frameStatus : GameStatus;
  frameAudio : option Audio;
  frameHands : Hands.HandPositions
}.

Definition runFrame (f : Frame) (s : SceneState) : SceneState * list Callback :=
  useFrame (frameStatus f) (frameAudio f) (frameHands f) s.

(** A run of frames: the final scene and all callbacks made, in order. *)
Fixpoint runFrames (fs : list Frame) (s : SceneState) : SceneState * list Callback :=
  match fs with
  | [] => (s, [])
  | f :: fs' =>
      let (s1, out1) := runFrame f s in
      let (s2, out2) := runFrames fs' s1 in
      (s2, out1 ++ out2)
  end.

(** The references that step 1 of a frame at time [t] pushes. *)
Definition pushedAt (t : Q) (s : SceneState) : list nat :=
  skipn (length (activeNotes s)) (activeNotes (spawnNotes t s)).

(** The status of the note at position [k], as section 3 of the
    specification names it. *)
Inductive Status := Pending | Active | Hit | Miss.

Definition statusOf (s : SceneState) (k : nat) : Status :=
  match nth_error (notesState s) k with
  | Some n =>
      if hit n then Hit
      else if missed n then Miss
      else if existsb (Nat.eqb k) (activeNotes s) then Active
      else Pending
  | None => Pending
  end.

Definition rank (st : Status) : nat :=
  match st with Pending => 0 | Active => 1 | Hit => 2 | Miss => 2 end.

(** The note of a callback. *)
Definition callbackNote (c : Callback) : option nat :=
  match c with
  | OnNoteHit k _ => Some k
  | OnNoteMiss k => Some k
  | OnSongEnd => None
  end.

(** Does a callback resolve note [k]? *)
Definition resolves (k : nat) (c : Callback) : bool :=
  match callbackNote c with
  | Some j => Nat.eqb j k
  | None => false
  end.

(** The decision of section 4.4 of the specification: the collision is
    evaluated first, the miss plane second.  It follows the words of the
    specification and is compared with [evalNote] below. *)
Definition evalNote_collisionFirst (t : Q) (hands : Hands.HandPositions)
    (note : NoteData) : Verdict :=
  if hit note || missed note then Skipped
  else
    match (if nearPlayer t note then collision t hands note else None) with
    | Some goodCut => Cut goodCut
    | None => if pastMissPlane t note then Missed else Kept
    end.

(** The order of the chart. *)
Definition timeLe (a b : NoteData) : Prop := time a <= time b.

(** ** Definitions for the statements *)

(** The chart parameters that section 7 of the specification calls invalid
    and that the model can express. *)
Definition invalidParameters (bpm durationSeconds : Q) : Prop :=
  bpm <= 0 \/ durationSeconds <= 0.

(** In a session, the multiplier is the one that belongs to the combo. *)
Definition multiplierInSync (s : SessionState) : Prop :=
  multiplier s = multiplierFor (combo s).

(** No-fail mode with full health is kept by every callback. *)
Definition noFailFull (s : SessionState) : Prop :=
  isNoFailMode s = true /\ health s = 100%Z.

(** The points of a hit before the multiplier. *)
Definition hitPoints (goodCut : bool) : Z := if goodCut then 150%Z else 100%Z.

(** A left-hand note of lane 0 and layer 0 that is due at second 10. *)
Definition noteAtTen : NoteData :=
  mkNote "note-0" 10 0 0 LeftHand ANY false false None.

(** The left hand on the target of [noteAtTen], moving upwards. *)
Definition handOnTarget : Hands.HandPositions :=
  Hands.mk (Some (mkVec (-2.1) 0.8 0)) None (mkVec 0 2 0) (mkVec 0 0 0).

(** The number of notes at the head of a list that are due by [t]. *)
Fixpoint duePrefix (t : Q) (l : list NoteData) : nat :=
  match l with
  | [] => 0
  | n :: l' => if dueBy t n then S (duePrefix t l') else 0
  end.

(** The references that a frame pushes to the active notes. *)
Definition pushedIn (f : Frame) (s : SceneState) : list nat :=
  match frameStatus f, frameAudio f with
  | PLAYING, Some a => if ended a then [] else pushedAt (currentTime a) s
  | _, _ => []
  end.

(** All references pushed over a run of frames, in order. *)
Fixpoint pushes (fs : list Frame) (s : SceneState) : list nat :=
  match fs with
  | [] => []
  | f :: fs' => pushedIn f s ++ pushes fs' (fst (runFrame f s))
  end.

(** The chart of thirty seconds at 120 beats per minute. *)
Definition chart120 : list NoteData := generateChart randAlt 120 0 30.

(** What a frame, or a run of frames, can do to the note at position [k]:
    nothing, with no callback for it; or, when the note is neither hit nor
    missed, mark it missed or hit, with exactly one callback for it. *)
Definition noteStep (k : nat) (n n' : NoteData) (cbs : list Callback) : Prop :=
  (n' = n /\ cbs = []) \/
  (hit n = false /\ missed n = false /\
   ((n' = markMissed n /\ cbs = [OnNoteMiss k]) \/
    (exists t g, n' = markHit t n /\ cbs = [OnNoteHit k g]))).

(** The scene [s'] and the callbacks [out] come from the scene [s] by steps
    of the notes, and a note leaves the active notes only resolved. *)
Definition Evolves (s s' : SceneState) (out : list Callback) : Prop :=
  (forall k,
      match nth_error (notesState s) k with
      | Some n => exists n', nth_error (notesState s') k = Some n' /\
                             noteStep k n n' (filter (resolves k) out)
      | None => nth_error (notesState s') k = None /\ filter (resolves k) out = []
      end) /\
  (forall k, In k (activeNotes s) ->
             In k (activeNotes s') \/
             exists n', nth_error (notesState s') k = Some n' /\
                        hit n' || missed n' = true).

(** Only admitted notes are active or resolved: the references held by the
    active notes, and the positions of the notes that are hit or missed, are
    before the cursor. *)
Definition BeforeCursor (s : SceneState) : Prop :=
  (forall k, In k (activeNotes s) -> (k < nextNoteIndex s)%nat) /\
  (forall k n, nth_error (notesState s) k = Some n ->
               hit n || missed n = true -> (k < nextNoteIndex s)%nat).

(** A chart as [generateChart] returns it and [handleStartRequest] resets
    it: no note is hit or missed. *)
Definition freshChart (chart : list NoteData) : Prop :=
  Forall (fun n => hit n = false /\ missed n = false) chart.

(** A frame at second 10 with the left hand on the target of [noteAtTen],
    and a frame one second later. *)
Definition frameAtTen : Frame :=
  mkFrame PLAYING (Some (mkAudio 10 false)) handOnTarget.
Definition frameAtEleven : Frame :=
  mkFrame PLAYING (Some (mkAudio 11 false)) handOnTarget.

(** ** Definitions for further properties of the chart *)

(** The lanes of each hand, the layers and the cut direction that
    [generateChart] uses. *)
Definition wellPlaced (n : NoteData) : Prop :=
  match type n with
  | LeftHand => lineIndex n = 0%Z \/ lineIndex n = 1%Z
  | RightHand => lineIndex n = 2%Z \/ lineIndex n = 3%Z
  end /\
  (lineLayer n = 0%Z \/ lineLayer n = 1%Z) /\
  cutDirection n = ANY.

(** Notes that agree in everything but the lane. *)
Definition sameButLane (a b : NoteData) : Prop :=
  time a = time b /\ id a = id b /\ lineLayer a = lineLayer b /\
  type a = type b /\ cutDirection a = cutDirection b /\
  hit a = hit b /\ missed a = missed b /\ hitTime a = hitTime b.

(** The time of beat [i]. *)
Definition beatAt (offset beatTime : Q) (i : Z) : Q :=
  offset + inject_Z i * beatTime.

(** The loop numbers the notes in the order in which it pushes them. *)
Definition numbered (st : GenState) : Prop :=
  idCount st = List.length (notes st) /\
  map id (notes st) = map noteId (seq 0 (List.length (notes st))).

(** The notes pushed so far are in order of time and none is later than
    the beat before [i]. *)
Definition pushedInOrder (offset beatTime : Q) (i : Z) (st : GenState) : Prop :=
  StronglySorted timeLe (notes st) /\
  Forall (fun m => time m <= beatAt offset beatTime (i - 1)) (notes st).

(** ** App.tsx: the other handlers *)

(** The argument of [switchSong]. *)
Inductive Direction := Next | Prev.

(** [switchSong(direction)]: the index that it sets, from the current index
    and the length of the playlist. *)
Definition switchSong (direction : Direction) (currentSongIndex : Z)
    (playlistLength : nat) : Z :=
  let newIndex := match direction with
                  | Next => (currentSongIndex + 1)%Z
                  | Prev => (currentSongIndex - 1)%Z
                  end in
  let newIndex := if (newIndex >=? Z.of_nat playlistLength)%Z then 0%Z else newIndex in
  let newIndex := if (newIndex <? 0)%Z then (Z.of_nat playlistLength - 1)%Z else newIndex in
  newIndex.

(** [startGameplay()]: [audioRef.current] is always set; [playSucceeds]
    tells whether the promise of [audio.play()] resolves or rejects. *)
Definition startGameplay (playSucceeds : bool) (s : SessionState) : SessionState :=
  mkSession (score s) (combo s) (multiplier s) (health s) (countdown s)
            (isNoFailMode s) (if playSucceeds then PLAYING else IDLE)
            (defeatSignals s).

(** The countdown effect, once per firing: during the countdown, the timer
    takes one off a positive counter, and at zero the game is started. *)
Definition countdownEffect (playSucceeds : bool) (s : SessionState) : SessionState :=
  match gameStatus s with
  | COUNTDOWN =>
      if (countdown s >? 0)%Z
      then mkSession (score s) (combo s) (multiplier s) (health s)
                     (countdown s - 1) (isNoFailMode s) (gameStatus s)
                     (defeatSignals s)
      else startGameplay playSucceeds s
  | _ => s
  end.


(** The number of misses of a sequence of callbacks. *)
Definition missCount (cs : list Callback) : nat :=
  List.length (filter (fun c => match c with OnNoteMiss _ => true | _ => false end) cs).

(** Is a callback a hit? *)
Definition isHit (c : Callback) : bool :=
  match c with OnNoteHit _ _ => true | _ => false end.

(** ** GameScene: the rest of the component *)

(** The predicate of the filter of [visibleNotes]; [n.hitTime || 0] is the
    hit time, or [0] when there is none. *)
Definition visible (currentTime : Q) (n : NoteData) : bool :=
  negb (missed n)
  && (negb (hit n)
      || Qltb (currentTime - match hitTime n with Some h => h | None => 0 end) 0.5)
  && Qltb (time n - currentTime) 5
  && Qltb (-2) (time n - currentTime).

(** [visibleNotes]: the notes that are rendered. *)
Definition visibleNotes (notesState : list NoteData) (currentTime : Q) : list NoteData :=
  filter (visible currentTime) notesState.

(** The camera shake that [handleHit] sets. *)
Definition hitShake (goodCut : bool) : Q := if goodCut then 0.3 else 0.15.

(** [THREE.MathUtils.lerp(x, y, t)]. *)
Definition lerp (x y t : Q) : Q := (1 - t) * x + t * y.

(** The camera shake after a frame of [delta] seconds. *)
Definition shakeDecay (delta shakeIntensity : Q) : Q :=
  if Qltb 0 shakeIntensity then
    let shake := lerp shakeIntensity 0 (10 * delta) in
    if Qltb shake 0.01 then 0 else shake
  else shakeIntensity.

(** The scene after [handleStartRequest] on the same chart: the flags of
    the note objects are cleared; the cursor and the active notes are refs
    of [GameScene], which are reset only when the chart is replaced. *)
Definition restartScene (s : SceneState) : SceneState :=
  mkScene (resetChart (notesState s)) (activeNotes s) (nextNoteIndex s).

(** The hand that has to cut a note. *)
Definition handFor (hands : Hands.HandPositions) (note : NoteData) : option Vector3 :=
  match type note with
  | LeftHand => Hands.left hands
  | RightHand => Hands.right hands
  end.

(** The callback [c] is what the loop body decides, at time [t], for a note
    that the active notes of [s] refer to. *)
Definition justified (t : Q) (hands : Hands.HandPositions) (s : SceneState)
    (c : Callback) : Prop :=
  exists ref note,
    In ref (activeNotes s) /\ nth_error (notesState s) ref = Some note /\
    ((c = OnNoteMiss ref /\ snd (evalNote t hands note) = Missed) \/
     (exists g, c = OnNoteHit ref g /\ snd (evalNote t hands note) = Cut g)).

(** The entries of the active notes from index [i] on have been through
    the loop body: for each the verdict is to skip or to keep. *)
Definition settledFrom (t : Q) (hands : Hands.HandPositions) (i : nat)
    (s : SceneState) : Prop :=
  forall j ref note,
    (i <= j)%nat -> nth_error (activeNotes s) j = Some ref ->
    nth_error (notesState s) ref = Some note ->
    snd (evalNote t hands note) = Skipped \/ snd (evalNote t hands note) = Kept.

(** A frame during play, at time [t]. *)
Definition playFrame (t : Q) (hands : Hands.HandPositions) : Frame :=
  mkFrame PLAYING (Some (mkAudio t false)) hands.

(** The active notes are, without repetition, the notes before the cursor
    that are neither hit nor missed. *)
Definition activeExact (s : SceneState) : Prop :=
  NoDup (activeNotes s) /\
  (nextNoteIndex s <= List.length (notesState s))%nat /\
  forall k, In k (activeNotes s) <->
            (k < nextNoteIndex s)%nat /\
            exists n, nth_error (notesState s) k = Some n /\
                      hit n = false /\ missed n = false.

(** Every active note was due by time [t]. *)
Definition dueAll (t : Q) (s : SceneState) : Prop :=
  forall ref note, In ref (activeNotes s) ->
                   nth_error (notesState s) ref = Some note ->
                   time note - spawnAheadTime <= t.

(** The notes of the hit and miss callbacks of a sequence, in order. *)
Definition resolvedNotes (out : list Callback) : list nat :=
  flat_map (fun c => match callbackNote c with Some k => [k] | None => [] end) out.

(** ** The playlist *)

(** The type of the field [difficulty] of [SongConfig]. *)
Inductive Difficulty := Easy | Medium | Hard.

(** The interface [SongConfig] of constants.ts; the optional flag
    [isCustom] is [false] when absent. *)
Record SongConfig := mkSong {
  songId : string;
  title : string;
  artist : string;
  url : string;
  bpm : Q;
  difficulty : Difficulty;
  color : string;
  offset : Q;
  isCustom : bool
}.

(** [SONG_LIST] of constants.ts. *)
Definition SONG_LIST : list SongConfig :=
  [ mkSong "neon-racer" "Neon Racer" "Rice Racer Assets"
      "https://commondatastorage.googleapis.com/codeskulptor-demos/riceracer_assets/music/race2.ogg"
      140 Hard "#3b82f6" 0.1 false;
    mkSong "dream-scape" "Dream Scape" "Epoq"
      "https://commondatastorage.googleapis.com/codeskulptor-assets/Epoq-Lepidoptera.ogg"
      130 Medium "#a855f7" 0.05 false;
    mkSong "cyber-city" "Cyber City (Slow)" "Rice Racer Assets"
      "https://commondatastorage.googleapis.com/codeskulptor-demos/riceracer_assets/music/race2.ogg"
      110 Easy "#10b981" 0.1 false ].

(** [playlist]: the built-in songs, then the songs of the library. *)
Definition playlist (librarySongs : list SongConfig) : list SongConfig :=
  SONG_LIST ++ librarySongs.

(** [playlist[i]]: reading outside the array gives [undefined]. *)
Definition lookupSong (l : list SongConfig) (i : Z) : option SongConfig :=
  if (i <? 0)%Z then None else nth_error l (Z.to_nat i).

(** [activeSong = playlist[currentSongIndex] || SONG_LIST[0]]. *)
Definition activeSong (currentSongIndex : Z) (librarySongs : list SongConfig)
    : option SongConfig :=
  match lookupSong (playlist librarySongs) currentSongIndex with
  | Some song => Some song
  | None => lookupSong SONG_LIST 0
  end.

(** The index that [confirmCustomSong] selects once the library is
    reloaded: [SONG_LIST.length + newLib.length - 1]. *)
Definition indexAfterSave (newLib : list SongConfig) : Z :=
  (Z.of_nat (List.length SONG_LIST) + Z.of_nat (List.length newLib) - 1)%Z.

(** ** App.tsx and GameScene: the callbacks of one frame *)

(** The callbacks of one [useFrame] call.  [GameScene] calls the props
    [onNoteHit] and [onNoteMiss] that it received from the last render of
    [App]; [App] renders again only after the frame, so every callback of
    the frame runs the handlers of the render before it: [handleNoteHit]
    with the [multiplier] of that render, [handleNoteMiss] with its
    [isNoFailMode].  The updaters of [setScore], [setCombo] and [setHealth]
    still receive the current state. *)
Definition dispatchFrame (s : SessionState) (cs : list Callback) : SessionState :=
  fold_left (fun st c =>
               match c with
               | OnNoteHit _ goodCut => handleNoteHit (multiplier s) goodCut st
               | OnNoteMiss _ => handleNoteMiss (isNoFailMode s) st
               | OnSongEnd => endGame true st
               end) cs s.

(** A run of frames, [App] rendering after each frame. *)
Definition dispatchFrames (s : SessionState) (frames : list (list Callback)) : SessionState :=
  fold_left dispatchFrame frames s.

(** The callbacks of each frame of a run. *)
Fixpoint frameCallbacks (fs : list Frame) (s : SceneState) : list (list Callback) :=
  match fs with
  | [] => []
  | f :: fs' => snd (runFrame f s) :: frameCallbacks fs' (fst (runFrame f s))
  end.

(** Two session states that agree in everything but the score. *)
Definition sameButScore (s1 s2 : SessionState) : Prop :=
  combo s1 = combo s2 /\ multiplier s1 = multiplier s2 /\ health s1 = health s2 /\
  countdown s1 = countdown s2 /\ isNoFailMode s1 = isNoFailMode s2 /\
  gameStatus s1 = gameStatus s2 /\ defeatSignals s1 = defeatSignals s2.

(** No hand is detected. *)
Definition noHands : Hands.HandPositions :=
  Hands.mk None None (mkVec 0 0 0) (mkVec 0 0 0).

(** The hand of the note [n] is put where [n] is when it arrives at the
    player, moving upwards at 2 units per second. *)
Definition handOn (hands : Hands.HandPositions) (n : NoteData) : Hands.HandPositions :=
  match lookupQ LANE_X_POSITIONS (lineIndex n), lookupQ LAYER_Y_POSITIONS (lineLayer n) with
  | Some x, Some y =>
      match type n with
      | LeftHand => Hands.mk (Some (mkVec x y PLAYER_Z)) (Hands.right hands)
                             (mkVec 0 2 0) (Hands.rightVelocity hands)
      | RightHand => Hands.mk (Hands.left hands) (Some (mkVec x y PLAYER_Z))
                              (Hands.leftVelocity hands) (mkVec 0 2 0)
      end
  | _, _ => hands
  end.

(** A frame at time [t] in which the player reaches for the notes [ns]. *)
Definition cutFrame (t : Q) (ns : list NoteData) : Frame :=
  playFrame t (fold_left handOn ns noHands).

(** One frame for each note of [ns], at the time of the note. *)
Definition cutEach (ns : list NoteData) : list Frame :=
  map (fun n => cutFrame (time n) [n]) ns.

(** The notes at the positions [from], ..., [to - 1] of a chart. *)
Definition slice (from to : nat) (chart : list NoteData) : list NoteData :=
  firstn (to - from) (skipn from chart).

(** The chart of one minute at 120 beats per minute: six single notes, the
    wide doubles at seconds 8 and 12, sixteen notes of streams, eight single
    notes, then the wide double of the notes 34 and 35 at second 32. *)
Definition chartMinute : list NoteData := generateChart randAlt 120 0 60.

(** A game on [chartMinute] in the default mode: the player is not detected
    until second 5.6, when the first four notes are past the miss plane, and
    then cuts every note well, one frame for each time of the chart, up to
    second 31. *)
Definition lateStart : list Frame :=
  playFrame 5.6 noHands
  :: cutEach (slice 4 6 chartMinute)
  ++ [cutFrame 8 (slice 6 8 chartMinute); cutFrame 12 (slice 8 10 chartMinute)]
  ++ cutEach (slice 10 34 chartMinute).

(** The next frame, at second 32: both hands on the wide double. *)
Definition doubleFrame : Frame := cutFrame 32 (slice 34 36 chartMinute).

(** The session when the countdown is over and the audio plays. *)
Definition gameStart : SessionState :=
  Nat.iter 5 (countdownEffect true) (handleStartRequest true initialSession).

(** The chart of thirteen seconds at 24 beats per minute: one note, for the
    left hand, in lane 0 and layer 0, at second 10. *)
Definition chartOneNote : list NoteData := generateChart randQuarter 24 0 13.

(** ** constants.ts: [generateChart] in binary64 arithmetic *)

(** The numbers of [generateChart] as the source computes them: IEEE 754
    binary64 values, with the operations [+], [-], [*] and [/] rounded to
    nearest, ties to even.  The definitions have the names and the shape of
    the ones above; only the type of the note times and of the parameters
    differs. *)
Module Binary64.
Import PrimFloat.
Local Open Scope float_scope.

(** The integer [z] as a number; the conversion is exact for
    [|z| <= 2^53]. *)
Definition num (z : Z) : float :=
  if (z <? 0)%Z then - of_uint63 (Uint63.of_Z (- z)) else of_uint63 (Uint63.of_Z z).

(** The result of an operation that returns an integer, or one of the three
    values that are not finite. *)
Inductive Number := Int (n : Z) | PosInfinity | NegInfinity | NotANumber.

(** [Math.ceil(x)]: the least integer that is not below [x], which is a
    binary64 value whenever [x] is; [Math.ceil] returns NaN and the
    infinities as they are. *)
Definition Math_ceil (x : float) : Number :=
  match FloatOps.Prim2SF x with
  | SpecFloat.S754_zero _ => Int 0
  | SpecFloat.S754_finite s m e =>
      Int (Qceiling (inject_Z (if s then Z.neg m else Z.pos m) * Qpower 2 e))
  | SpecFloat.S754_infinity s => if s then NegInfinity else PosInfinity
  | SpecFloat.S754_nan => NotANumber
  end.

(** [i < n] for an integer [i]: a comparison with NaN is false. *)
Definition below (i : Z) (n : Number) : bool :=
  match n with
  | Int n => (i <? n)%Z
  | PosInfinity => true
  | NegInfinity | NotANumber => false
  end.

(** The fields of the object literals of [generateChart]. *)
Record NoteData := mkNote {
  id : string;
  time : float;
  lineIndex : Z;
  lineLayer : Z;
  type : Hand;
  cutDirection : CutDirection
}.

(** The mutable locals of [generateChart].  The random source is the
    sequence [rand] of the values of [Math.random()], each a binary64 value
    in [[0, 1)] given as the rational it is: [getRandomInt] doubles it and
    takes the floor, which is exact. *)
Record GenState := mkGen {
  notes : list NoteData;
  idCount : nat;
  draws : nat
}.

Definition pushRandom (rand : nat -> Q) (t : float) (lo hi : Z) (h : Hand)
    (st : GenState) : GenState :=
  mkGen (notes st ++
           [mkNote (noteId (idCount st)) t (getRandomInt lo hi (rand (draws st))) 0 h ANY])
        (S (idCount st)) (S (draws st)).

Definition pushFixed (t : float) (lane layer : Z) (h : Hand) (st : GenState) : GenState :=
  mkGen (notes st ++ [mkNote (noteId (idCount st)) t lane layer h ANY])
        (S (idCount st)) (draws st).

(** The body of the [for] loop at beat index [i]: [time = offset + i *
    beatTime], and [time + beatTime] for the second note of a stream. *)
Definition chartStep (rand : nat -> Q) (offset beatTime : float) (i : Z)
    (st : GenState) : GenState :=
  let t := offset + num i * beatTime in
  let pattern := Z.rem (i / 16) 3 in
  if (pattern =? 0)%Z then
    if (Z.rem i 4 =? 0)%Z
    then pushRandom rand t 0 1 LeftHand st
    else pushRandom rand t 2 3 RightHand st
  else if (pattern =? 1)%Z then
    if (Z.rem i 8 =? 0)%Z
    then pushFixed t 3 1 RightHand (pushFixed t 0 1 LeftHand st)
    else st
  else
    pushRandom rand (t + beatTime) 2 3 RightHand (pushRandom rand t 0 1 LeftHand st).

(** [for (let i = 4; i < totalBeats; i += 2) { ... }], entered at [i].  The
    counter is an integer, exact below [2^53].  The loop that is still
    running when the fuel is used up gives [None]. *)
Fixpoint chartLoop (fuel : nat) (rand : nat -> Q) (offset beatTime : float)
    (totalBeats : Number) (i : Z) (st : GenState) : option GenState :=
  if below i totalBeats then
    match fuel with
    | O => None
    | S fuel' => chartLoop fuel' rand offset beatTime totalBeats (i + 2)
                   (chartStep rand offset beatTime i st)
    end
  else Some st.

(** The comparator [(a, b) => a.time - b.time]. *)
Definition compareTime (a b : NoteData) : float := time a - time b.

(** [Array.prototype.sort] places [a] after [b] only when the comparator
    gives a value above zero; NaN counts as zero. *)
Definition notAfter (v : float) : bool := negb (0 <? v).

Fixpoint insertBy {A : Type} (cmp : A -> A -> float) (a : A) (l : list A) : list A :=
  match l with
  | [] => [a]
  | b :: l' => if notAfter (cmp a b) then a :: l else b :: insertBy cmp a l'
  end.

Definition sortBy {A : Type} (cmp : A -> A -> float) (l : list A) : list A :=
  fold_right (insertBy cmp) [] l.

(** Fuel for every iteration of the loop with a finite [totalBeats]. *)
Definition iterations (totalBeats : Number) : nat :=
  match totalBeats with
  | Int n => Z.to_nat n
  | _ => O
  end.

(** [const beatTime = 60 / bpm]. *)
Definition beatTimeOf (bpm : float) : float := 60 / bpm.

(** [Math.ceil((durationSeconds / 60) * bpm)]. *)
Definition totalBeatsOf (bpm durationSeconds : float) : Number :=
  Math_ceil ((durationSeconds / 60) * bpm).

(** The notes pushed by the loop, before the sort; [None] when the loop
    does not end, which is when [totalBeats] is [Infinity]. *)
Definition chartNotes (rand : nat -> Q) (bpm offset durationSeconds : float)
    : option (list NoteData) :=
  let beatTime := beatTimeOf bpm in
  let totalBeats := totalBeatsOf bpm durationSeconds in
  option_map notes
    (chartLoop (iterations totalBeats) rand offset beatTime totalBeats 4 (mkGen [] 0 0)).

(** [generateChart(bpm, offset, durationSeconds)]. *)
Definition generateChart (rand : nat -> Q) (bpm offset durationSeconds : float)
    : option (list NoteData) :=
  option_map (sortBy compareTime) (chartNotes rand bpm offset durationSeconds).









End Binary64.

(** * Properties *)

(** ** Comparisons *)

Lemma Qleb_true (a b : Q) : Qleb a b = true <-> a <= b.
Proof. unfold Qleb. apply Qle_bool_iff. Qed.

Lemma Qleb_false (a b : Q) : Qleb a b = false <-> b < a.
Proof.
  unfold Qleb. split; intro H.
  - apply Qnot_le_lt. intro Hle. apply Qle_bool_iff in Hle. congruence.
  - destruct (Qle_bool a b) eqn:E; [|reflexivity].
    apply Qle_bool_iff in E. lra.
Qed.

Lemma Qltb_true (a b : Q) : Qltb a b = true <-> a < b.
Proof.
  unfold Qltb. rewrite negb_true_iff. apply (Qleb_false b a).
Qed.

Lemma Qltb_false (a b : Q) : Qltb a b = false <-> b <= a.
Proof.
  unfold Qltb. rewrite negb_false_iff. apply (Qleb_true b a).
Qed.

Lemma Qleb_ext (a b c d : Q) : (a <= b <-> c <= d) -> Qleb a b = Qleb c d.
Proof.
  intro H. destruct (Qleb a b) eqn:E1, (Qleb c d) eqn:E2; try reflexivity.
  - apply Qleb_true in E1. apply Qleb_false in E2. apply H in E1. lra.
  - apply Qleb_false in E1. apply Qleb_true in E2. apply H in E2. lra.
Qed.

(** ** The sort *)

Section Sorting.
Context {A : Type} (cmp : A -> A -> Q).

Lemma insertBy_Forall (P : A -> Prop) (a : A) (l : list A) :
  Forall P (insertBy cmp a l) <-> P a /\ Forall P l.
Proof.
  induction l as [|b l IH]; simpl.
  - split; [intro H; inversion H; auto | intros [H1 H2]; auto].
  - destruct (Qleb (cmp a b) 0).
    + split; [intro H; inversion H; auto | intros [H1 H2]; auto].
    + split.
      * intro H. inversion H as [|? ? Hb Hrest]; subst.
        apply IH in Hrest. destruct Hrest as [Ha Hl]. auto.
      * intros [Ha Hbl]. inversion Hbl; subst.
        constructor; [assumption|]. apply IH. auto.
Qed.

Lemma insertBy_perm (a : A) (l : list A) : Permutation (a :: l) (insertBy cmp a l).
Proof.
  induction l as [|b l IH]; simpl; [reflexivity|].
  destruct (Qleb (cmp a b) 0); [reflexivity|].
  rewrite perm_swap. apply perm_skip. exact IH.
Qed.

Lemma sortBy_perm (l : list A) : Permutation l (sortBy cmp l).
Proof.
  induction l as [|a l IH]; simpl; [constructor|].
  rewrite <- insertBy_perm. apply perm_skip. exact IH.
Qed.

Lemma insertBy_length (a : A) (l : list A) :
  List.length (insertBy cmp a l) = S (List.length l).
Proof.
  induction l as [|b l IH]; simpl; [reflexivity|].
  destruct (Qleb (cmp a b) 0); simpl; congruence.
Qed.
End Sorting.

Lemma insertBy_sorted (a : NoteData) (l : list NoteData) :
  StronglySorted timeLe l -> StronglySorted timeLe (insertBy compareTime a l).
Proof.
  induction 1 as [|b l Hs IH Hb]; simpl.
  - repeat constructor.
  - destruct (Qleb (compareTime a b) 0) eqn:E.
    + apply Qleb_true in E. unfold compareTime in E.
      assert (Hab : timeLe a b) by (unfold timeLe; lra).
      constructor; [constructor; assumption|].
      constructor; [assumption|].
      eapply Forall_impl; [|exact Hb].
      unfold timeLe in *. intros c Hc. lra.
    + apply Qleb_false in E. unfold compareTime in E.
      constructor; [assumption|].
      apply insertBy_Forall. split; [unfold timeLe; lra | assumption].
Qed.

Lemma sortBy_sorted (l : list NoteData) : StronglySorted timeLe (sortBy compareTime l).
Proof.
  induction l as [|a l IH]; simpl; [constructor | apply insertBy_sorted, IH].
Qed.

(** ** The loop of [generateChart] *)

(** The fuel that [generateChart] gives its loop is enough: with that much
    fuel or more the loop ends by its own test. *)
Lemma chartLoop_fuel rand offset beatTime totalBeats :
  forall (f : nat) (i : Z) (st : GenState) (extra : nat),
    (totalBeats - i <= Z.of_nat f)%Z ->
    chartLoop (f + extra) rand offset beatTime totalBeats i st =
    chartLoop f rand offset beatTime totalBeats i st.
Proof.
  induction f as [|f IH]; intros i st extra Hle.
  - destruct extra as [|extra]; simpl; [reflexivity|].
    destruct (i <? totalBeats)%Z eqn:E; [|reflexivity].
    apply Z.ltb_lt in E. lia.
  - simpl. destruct (i <? totalBeats)%Z eqn:E; [|reflexivity].
    apply IH. lia.
Qed.

Lemma chartLoop_no_beats rand offset beatTime totalBeats f st :
  (totalBeats <= 4)%Z ->
  chartLoop f rand offset beatTime totalBeats 4 st = st.
Proof.
  intro H. destruct f as [|f]; simpl; [reflexivity|].
  destruct (4 <? totalBeats)%Z eqn:E; [|reflexivity].
  apply Z.ltb_lt in E. lia.
Qed.

Lemma chartNotes_fuel rand bpm offset durationSeconds (extra : nat) :
  let totalBeats := Qceiling ((durationSeconds / 60) * bpm) in
  notes (chartLoop (Z.to_nat totalBeats + extra) rand offset (60 / bpm)
           totalBeats 4 (mkGen [] 0 0))
  = chartNotes rand bpm offset durationSeconds.
Proof.
  intro totalBeats. unfold chartNotes. fold totalBeats.
  rewrite chartLoop_fuel by lia. reflexivity.
Qed.

(** The sorted chart holds the notes that the loop pushed, each once. *)
Lemma generateChart_permutation rand bpm offset durationSeconds :
  Permutation (chartNotes rand bpm offset durationSeconds)
              (generateChart rand bpm offset durationSeconds).
Proof. apply sortBy_perm. Qed.

(** Five seconds at 120 beats per minute, shifted by half a second: the
    beats 4, 6 and 8. *)
Example generateChart_120_5 :
  map (fun n => Qred (time n)) (generateChart randAlt 120 0.5 5)
  = [5 # 2; 7 # 2; 9 # 2].
Proof. vm_compute. reflexivity. Qed.

(** With a negative tempo and a negative duration the loop pushes the notes
    in descending order of time, and the sort reverses them. *)
Example generateChart_sort_reorders :
  map (fun n => Qred (time n)) (chartNotes randAlt (-120) 0 (-5)) = [-2; -3; -4] /\
  map (fun n => Qred (time n)) (generateChart randAlt (-120) 0 (-5)) = [-4; -3; -2].
Proof. vm_compute. split; reflexivity. Qed.

(** ** C5 *)

(** C5. For every bpm > 0, every offset and every durationSeconds > 0, the
    notes that [generateChart] returns are in order of non-decreasing
    time: each note is no later than every note after it. *)
Theorem generateChart_sorted rand bpm offset durationSeconds :
  0 < bpm -> 0 < durationSeconds ->
  StronglySorted timeLe (generateChart rand bpm offset durationSeconds).
Proof.
  intros _ _. unfold generateChart. apply sortBy_sorted.
Qed.

Lemma generateChart_sorted_witness :
  0 < 120 /\ 0 < 30 /\
  StronglySorted timeLe (generateChart randAlt 120 0.1 30).
Proof.
  split; [reflexivity|]. split; [reflexivity|].
  apply (generateChart_sorted randAlt 120 0.1 30); reflexivity.
Defined.

(** ** Binary64 arithmetic *)









(** ** The loop of [generateChart] in binary64 arithmetic *)











(** ** C6 *)




(** The number of beats is computed from the rounded product: for 248
    seconds at 45 beats per minute, [(248 / 60) * 45] is
    [186.00000000000003] and [Math.ceil] gives 187, so that the loop runs
    for beat 186 and places the two notes of a stream there, the first at
    [offset + duration]. *)
Example totalBeats_rounds_up :
  Binary64.totalBeatsOf (Binary64.num 45) (Binary64.num 248) = Binary64.Int 187 /\
  Qceiling ((248 / 60) * 45) = 186%Z /\
  option_map (@List.length _)
    (Binary64.generateChart randAlt (Binary64.num 45) (Binary64.num 0) (Binary64.num 248))
  = Some 106%nat /\
  List.length (generateChart randAlt 45 0 248) = 104%nat.
Proof. vm_compute. repeat split; reflexivity. Qed.

(** ** C1 *)

Lemma totalBeats_nonpositive (bpm durationSeconds : Q) :
  (bpm <= 0 /\ 0 <= durationSeconds) \/ (durationSeconds <= 0 /\ 0 <= bpm) ->
  (Qceiling ((durationSeconds / 60) * bpm) <= 0)%Z.
Proof.
  intro H.
  assert (Hp : (durationSeconds / 60) * bpm <= 0).
  { assert (Hd : durationSeconds / 60 == durationSeconds * (1 # 60)) by reflexivity.
    rewrite Hd.
    destruct H as [[H1 H2]|[H1 H2]].
    - assert (H3 : 0 <= durationSeconds * (1 # 60)) by lra. nra.
    - assert (H3 : durationSeconds * (1 # 60) <= 0) by lra. nra. }
  apply Qceiling_resp_le in Hp.
  change (Qceiling 0) with 0%Z in Hp. exact Hp.
Qed.

(** C1, as the code has it.  A call of [generateChart] with a tempo [bpm <= 0]
    and a duration [>= 0], or with a duration [<= 0] and a tempo [>= 0],
    is not rejected: it returns the empty note sequence. *)
Theorem generateChart_invalid_returns_empty rand bpm offset durationSeconds :
  (bpm <= 0 /\ 0 <= durationSeconds) \/ (durationSeconds <= 0 /\ 0 <= bpm) ->
  generateChart_call rand bpm offset durationSeconds = Returned [].
Proof.
  intro H. apply totalBeats_nonpositive in H.
  unfold generateChart_call, generateChart, chartNotes.
  rewrite chartLoop_no_beats by lia. reflexivity.
Qed.

Lemma generateChart_invalid_returns_empty_witness :
  ((-120 <= 0 /\ 0 <= 300) \/ (300 <= 0 /\ 0 <= -120)) /\
  generateChart_call randAlt (-120) 0 300 = Returned [].
Proof.
  assert (H : (-120 <= 0 /\ 0 <= 300) \/ (300 <= 0 /\ 0 <= -120)).
  { left. split; discriminate. }
  split; [exact H|].
  apply (generateChart_invalid_returns_empty randAlt (-120) 0 300 H).
Defined.

(** C1 fails as stated: a call with a negative tempo, and a call with a zero
    duration, return a note sequence (the empty one) and throw nothing. *)
Lemma generateChart_invalid_not_rejected :
  ~ (forall rand bpm offset durationSeconds,
        invalidParameters bpm durationSeconds ->
        exists message,
          generateChart_call rand bpm offset durationSeconds = Thrown message).
Proof.
  intro H.
  destruct (H randAlt (-120) 0 300) as [m Hm].
  - left. discriminate.
  - discriminate Hm.
Qed.

(** ** The session *)

Lemma dispatch_multiplierInSync (s : SessionState) (c : Callback) :
  multiplierInSync s -> multiplierInSync (dispatch s c).
Proof.
  unfold multiplierInSync. intro H. destruct c as [k g|k|]; simpl.
  - reflexivity.
  - unfold handleNoteMiss.
    destruct (negb (isNoFailMode s)); [|reflexivity].
    destruct (health s - 15 <=? 0)%Z; reflexivity.
  - exact H.
Qed.

Lemma dispatchAll_multiplierInSync (cs : list Callback) :
  forall s, multiplierInSync s -> multiplierInSync (dispatchAll s cs).
Proof.
  induction cs as [|c cs IH]; intros s H; simpl; [exact H|].
  apply IH, dispatch_multiplierInSync, H.
Qed.

Lemma dispatch_noFailFull (s : SessionState) (c : Callback) :
  noFailFull s -> noFailFull (dispatch s c).
Proof.
  intros [Hn Hh]. unfold noFailFull. destruct c as [k g|k|]; simpl.
  - split; [exact Hn|]. rewrite Hh. reflexivity.
  - unfold handleNoteMiss. rewrite Hn. simpl. split; [reflexivity | exact Hh].
  - split; assumption.
Qed.

Lemma sessionTrace_noFailFull (cs : list Callback) :
  forall s, noFailFull s -> Forall noFailFull (sessionTrace s cs).
Proof.
  induction cs as [|c cs IH]; intros s H; simpl; constructor.
  - apply dispatch_noFailFull, H.
  - apply IH, dispatch_noFailFull, H.
Qed.

Lemma dispatchAll_noFailFull (cs : list Callback) :
  forall s, noFailFull s -> noFailFull (dispatchAll s cs).
Proof.
  induction cs as [|c cs IH]; intros s H; simpl; [exact H|].
  apply IH, dispatch_noFailFull, H.
Qed.

(** ** C3 *)

(** C3. In a session started with no-fail mode on, the health keeps its
    session-start value: after every callback of every sequence of hits and
    misses, in any order and of any length, it is what [handleStartRequest]
    set it to. *)
Theorem noFail_health_never_changes (s0 : SessionState) (cs : list Callback) :
  isNoFailMode s0 = true ->
  let start := handleStartRequest true s0 in
  Forall (fun s => health s = health start) (sessionTrace start cs) /\
  health (dispatchAll start cs) = health start.
Proof.
  intros Hn start.
  assert (H0 : noFailFull start) by (split; [exact Hn | reflexivity]).
  split.
  - eapply Forall_impl; [|apply sessionTrace_noFailFull, H0].
    intros s [_ Hs]. rewrite Hs. reflexivity.
  - destruct (dispatchAll_noFailFull cs start H0) as [_ Hh].
    rewrite Hh. reflexivity.
Qed.

Lemma noFail_health_never_changes_witness :
  isNoFailMode (mkSession 40 3 1 55 0 true IDLE 0) = true /\
  health (dispatchAll (handleStartRequest true (mkSession 40 3 1 55 0 true IDLE 0))
            [OnNoteMiss 0; OnNoteHit 1 true; OnNoteMiss 2; OnNoteMiss 3;
             OnNoteHit 4 false])
  = 100%Z.
Proof.
  split; [reflexivity|].
  exact (proj2 (noFail_health_never_changes (mkSession 40 3 1 55 0 true IDLE 0)
                  [OnNoteMiss 0; OnNoteHit 1 true; OnNoteMiss 2; OnNoteMiss 3;
                   OnNoteHit 4 false] eq_refl)).
Defined.

(** ** C4 *)

(** A frame with one callback is served as [dispatch] serves it. *)
Lemma dispatchFrame_single (s : SessionState) (c : Callback) :
  dispatchFrame s [c] = dispatch s c.
Proof. destruct c; reflexivity. Qed.

Lemma serve_sameButScore (m : Z) (nf : bool) (cs : list Callback) :
  forall st1 st2 : SessionState,
    sameButScore st1 st2 -> isNoFailMode st2 = nf ->
    sameButScore
      (fold_left (fun st c =>
                    match c with
                    | OnNoteHit _ goodCut => handleNoteHit m goodCut st
                    | OnNoteMiss _ => handleNoteMiss nf st
                    | OnSongEnd => endGame true st
                    end) cs st1)
      (dispatchAll st2 cs).
Proof.
  induction cs as [|c cs IH]; intros st1 st2 H Hnf; [exact H|].
  cbn [fold_left dispatchAll].
  destruct st1 as [sc1 c1 m1 h1 cd1 n1 g1 d1], st2 as [sc2 c2 m2 h2 cd2 n2 g2 d2].
  unfold sameButScore in H. cbn in H, Hnf.
  destruct H as (-> & -> & -> & -> & -> & -> & ->). subst nf.
  apply IH.
  - destruct c as [k g| k |]; unfold dispatch, handleNoteHit, handleNoteMiss, endGame;
      cbn [score combo multiplier health countdown isNoFailMode gameStatus defeatSignals];
      [repeat split| |repeat split].
    destruct (negb n2); [destruct (h2 - 15 <=? 0)%Z|]; repeat split.
  - destruct c as [k g| k |]; unfold dispatch, handleNoteHit, handleNoteMiss, endGame;
      cbn [score combo multiplier health countdown isNoFailMode gameStatus defeatSignals];
      [reflexivity| |reflexivity].
    destruct (negb n2); [destruct (h2 - 15 <=? 0)%Z|]; reflexivity.
Qed.

(** The callbacks of a frame leave the combo, the multiplier, the health
    and the defeat signals as [dispatchAll] does, whatever render serves
    them: only the score depends on the render. *)
Lemma dispatchFrame_sameButScore (s : SessionState) (cs : list Callback) :
  sameButScore (dispatchFrame s cs) (dispatchAll s cs).
Proof.
  unfold dispatchFrame. apply serve_sameButScore; [repeat split|reflexivity].
Qed.

(** At the start of every frame of a game the multiplier is the one of the
    combo, so the first hit of a frame adds its points times the multiplier
    of the combo before the hit. *)
Lemma dispatchFrames_multiplierInSync (frames : list (list Callback)) :
  forall s, multiplierInSync s -> multiplierInSync (dispatchFrames s frames).
Proof.
  induction frames as [|cs frames IH]; intros s H; [exact H|].
  cbn [dispatchFrames fold_left]. apply IH.
  destruct (dispatchFrame_sameButScore s cs) as (Hc & Hm & _).
  unfold multiplierInSync. rewrite Hc, Hm.
  apply dispatchAll_multiplierInSync, H.
Qed.

Lemma first_hit_of_frame (s0 : SessionState) (frames : list (list Callback))
    (k : nat) (goodCut : bool) :
  let s := dispatchFrames (handleStartRequest true s0) frames in
  let s' := dispatchFrame s [OnNoteHit k goodCut] in
  score s' = (score s + hitPoints goodCut * multiplierFor (combo s))%Z /\
  combo s' = (combo s + 1)%Z.
Proof.
  intros s s'.
  assert (H : multiplierInSync s).
  { apply dispatchFrames_multiplierInSync. destruct s0; reflexivity. }
  unfold multiplierInSync in H. rewrite <- H.
  subst s'. cbn. split; [|reflexivity]. destruct goodCut; reflexivity.
Qed.

(** C4. On the chart of one minute at 120 beats per minute, in the default
    mode, the player misses the first four notes and then cuts every note:
    after the note 33 the combo is 30, the multiplier 4 and the score
    10050.  The frame at second 32 cuts both notes of the wide double and
    makes the two calls [onNoteHit] with the handler of one render.  The
    first hit adds 150 * 4 and takes the combo to 31, whose multiplier is
    8; the second hit adds 150 * 4 again, not 150 * 8: the score is 11250,
    where the multiplier of the combo before each hit gives 11850. *)
Theorem double_hit_scores_with_stale_multiplier :
  let scene := fst (runFrames lateStart (initScene chartMinute)) in
  let before := dispatchFrames gameStart (frameCallbacks lateStart (initScene chartMinute)) in
  let cbs := snd (runFrame doubleFrame scene) in
  let mid := dispatchFrame before (firstn 1 cbs) in
  let after := dispatchFrame before cbs in
  cbs = [OnNoteHit 35 true; OnNoteHit 34 true] /\
  gameStatus before = PLAYING /\
  (score before, combo before, multiplier before) = (10050, 30, 4)%Z /\
  (score mid, combo mid, multiplierFor (combo mid)) = (10650, 31, 8)%Z /\
  (score after, combo after) = (11250, 32)%Z /\
  score after = (score mid + hitPoints true * 4)%Z /\
  score after <> (score mid + hitPoints true * multiplierFor (combo mid))%Z /\
  score (dispatchAll before cbs) = 11850%Z.
Proof.
  vm_compute. repeat split; try reflexivity. discriminate.
Qed.

(** ** C7 *)

(** C7. From health 100 with no-fail mode off, seven misses in a row take
    the health through 85, 70, 55, 40, 25, 10 to 0; the number of defeat
    signals sent is unchanged after each of the first six misses and one
    more after the seventh. *)
Theorem seven_misses_defeat (s : SessionState) (k1 k2 k3 k4 k5 k6 k7 : nat) :
  health s = 100%Z -> isNoFailMode s = false ->
  let misses := [OnNoteMiss k1; OnNoteMiss k2; OnNoteMiss k3; OnNoteMiss k4;
                 OnNoteMiss k5; OnNoteMiss k6; OnNoteMiss k7] in
  map health (sessionTrace s misses) = [85; 70; 55; 40; 25; 10; 0]%Z /\
  let d := defeatSignals s in
  map defeatSignals (sessionTrace s misses) = [d; d; d; d; d; d; S d].
Proof.
  destruct s as [sc co mu he cd nf gs ds]. simpl. intros Hh Hn. subst he nf.
  split; reflexivity.
Qed.

Lemma seven_misses_defeat_witness :
  map health (sessionTrace (handleStartRequest true initialSession)
                (map OnNoteMiss [0; 1; 2; 3; 4; 5; 6])%nat)
  = [85; 70; 55; 40; 25; 10; 0]%Z.
Proof.
  exact (proj1 (seven_misses_defeat (handleStartRequest true initialSession)
                  0 1 2 3 4 5 6 eq_refl eq_refl)).
Defined.

(** ** C10 *)

(** C10. A hit heals whatever the mode: on every session state with health
    below 100, in no-fail mode or not, the health after a hit is
    [min(100, health + 2)], which is more than before. *)
Theorem hit_heals_in_any_mode (multiplier_r : Z) (goodCut : bool) (s : SessionState) :
  (health s < 100)%Z ->
  health (handleNoteHit multiplier_r goodCut s) = Z.min 100 (health s + 2) /\
  (health s < health (handleNoteHit multiplier_r goodCut s))%Z /\
  isNoFailMode (handleNoteHit multiplier_r goodCut s) = isNoFailMode s.
Proof.
  intro H. simpl. split; [reflexivity|]. split; [lia|reflexivity].
Qed.

Lemma hit_heals_in_any_mode_witness :
  isNoFailMode (mkSession 0 0 1 99 0 true PLAYING 0) = true /\
  health (dispatch (mkSession 0 0 1 99 0 true PLAYING 0) (OnNoteHit 0 true)) = 100%Z.
Proof.
  split; [reflexivity|].
  exact (proj1 (hit_heals_in_any_mode 1 true (mkSession 0 0 1 99 0 true PLAYING 0)
                  eq_refl)).
Defined.

(** ** C2 *)

(** C2 fails as stated: on a note at the player plane with the hand on it,
    the iteration evaluates the miss check first and the collision check
    second; no iteration starts with the collision check. *)
Lemma collision_is_not_evaluated_first :
  evalNote 10 handOnTarget noteAtTen = ([MissCheck; CollisionCheck], Cut true) /\
  ~ (forall t hands note,
        hit note || missed note = false ->
        exists rest, fst (evalNote t hands note) = CollisionCheck :: rest).
Proof.
  split; [vm_compute; reflexivity|].
  intro H. destruct (H 10 handOnTarget noteAtTen eq_refl) as [rest Hrest].
  vm_compute in Hrest. discriminate Hrest.
Qed.

Lemma miss_and_window_exclusive (t : Q) (note : NoteData) :
  pastMissPlane t note && nearPlayer t note = false.
Proof.
  unfold pastMissPlane, nearPlayer.
  destruct (Qltb MISS_Z (currentZ t note)) eqn:E1; [|reflexivity].
  destruct (Qltb (currentZ t note) (PLAYER_Z + 1.0)) eqn:E2;
    [|rewrite andb_false_r; reflexivity].
  apply Qltb_true in E1. apply Qltb_true in E2.
  unfold MISS_Z, PLAYER_Z in *. lra.
Qed.

(** C2, as the code has it.  An iteration on an unresolved note evaluates
    the miss check first, and the collision check only when the note has not
    passed the miss plane.  The miss check and the collision window exclude
    each other, so no note is eligible for both in one tick, and the decision
    of the iteration is the one that evaluating the collision first gives. *)
Theorem miss_check_first_same_decision (t : Q) (hands : Hands.HandPositions)
    (note : NoteData) :
  fst (evalNote t hands note)
    = (if hit note || missed note then []
       else if pastMissPlane t note then [MissCheck]
       else [MissCheck; CollisionCheck]) /\
  pastMissPlane t note && nearPlayer t note = false /\
  snd (evalNote t hands note) = evalNote_collisionFirst t hands note.
Proof.
  pose proof (miss_and_window_exclusive t note) as Hex.
  unfold evalNote, evalNote_collisionFirst.
  destruct (hit note || missed note); [auto|].
  destruct (pastMissPlane t note) eqn:Em.
  - simpl in Hex. rewrite Hex. auto.
  - destruct (nearPlayer t note).
    + destruct (collision t hands note); auto.
    + auto.
Qed.

(** A note half a second and more past its time is missed, whatever the
    hands do. *)
Example late_note_is_missed :
  evalNote (10 + 0.6) handOnTarget noteAtTen = ([MissCheck], Missed).
Proof. vm_compute. reflexivity. Qed.

(** ** The spawn step *)

Lemma skipn_nth_error_cons {A : Type} (l : list A) :
  forall (i : nat) (a : A),
    nth_error l i = Some a -> skipn i l = a :: skipn (S i) l.
Proof.
  induction l as [|b l IH]; intros [|i] a H; simpl in *; try discriminate.
  - inversion H. reflexivity.
  - apply IH. exact H.
Qed.

Lemma spawnLoop_spec (t : Q) :
  forall (fuel : nat) (s : SceneState),
    (List.length (notesState s) - nextNoteIndex s <= fuel)%nat ->
    spawnLoop fuel t s =
    mkScene (notesState s)
            (activeNotes s ++
               seq (nextNoteIndex s)
                   (duePrefix t (skipn (nextNoteIndex s) (notesState s))))
            (nextNoteIndex s + duePrefix t (skipn (nextNoteIndex s) (notesState s))).
Proof.
  induction fuel as [|fuel IH]; intros [ns act idx] Hf; simpl in *.
  - rewrite skipn_all2 by lia. simpl. rewrite app_nil_r, Nat.add_0_r. reflexivity.
  - destruct (idx <? List.length ns)%nat eqn:E.
    + apply Nat.ltb_lt in E.
      destruct (nth_error ns idx) as [n|] eqn:En.
      * rewrite (skipn_nth_error_cons ns idx n En). simpl.
        destruct (dueBy t n).
        -- rewrite IH by (simpl; lia). simpl.
           rewrite <- app_assoc. simpl. f_equal. lia.
        -- simpl. rewrite app_nil_r, Nat.add_0_r. reflexivity.
      * apply nth_error_None in En. lia.
    + apply Nat.ltb_ge in E. rewrite skipn_all2 by lia. simpl.
      rewrite app_nil_r, Nat.add_0_r. reflexivity.
Qed.

(** The fuel of [spawnNotes] is enough, and more fuel changes nothing. *)
Lemma spawnNotes_fuel (t : Q) (s : SceneState) (extra : nat) :
  spawnLoop (List.length (notesState s) + extra) t s = spawnNotes t s.
Proof.
  unfold spawnNotes. rewrite !spawnLoop_spec by lia. reflexivity.
Qed.

Lemma spawnNotes_spec (t : Q) (s : SceneState) :
  spawnNotes t s =
  mkScene (notesState s)
          (activeNotes s ++
             seq (nextNoteIndex s)
                 (duePrefix t (skipn (nextNoteIndex s) (notesState s))))
          (nextNoteIndex s + duePrefix t (skipn (nextNoteIndex s) (notesState s))).
Proof. unfold spawnNotes. apply spawnLoop_spec. lia. Qed.

Lemma duePrefix_le (t : Q) (l : list NoteData) : (duePrefix t l <= List.length l)%nat.
Proof.
  induction l as [|n l IH]; simpl; [lia|]. destruct (dueBy t n); lia.
Qed.

Lemma duePrefix_due (t : Q) (l : list NoteData) :
  forall (j : nat) (n : NoteData),
    (j < duePrefix t l)%nat -> nth_error l j = Some n -> dueBy t n = true.
Proof.
  induction l as [|a l IH]; intros j n Hj Hn; simpl in *; [lia|].
  destruct (dueBy t a) eqn:E; [|lia].
  destruct j as [|j]; simpl in Hn.
  - inversion Hn; subst. exact E.
  - apply (IH j); [lia | exact Hn].
Qed.

Lemma duePrefix_stop (t : Q) (l : list NoteData) (n : NoteData) :
  nth_error l (duePrefix t l) = Some n -> dueBy t n = false.
Proof.
  induction l as [|a l IH]; simpl; [discriminate|].
  destruct (dueBy t a) eqn:E; simpl.
  - exact IH.
  - intro H. inversion H; subst. exact E.
Qed.

Lemma nth_error_skipn {A : Type} (l : list A) :
  forall (i j : nat), nth_error (skipn i l) j = nth_error l (i + j).
Proof.
  induction l as [|a l IH]; intros [|i] j; simpl; try reflexivity.
  - destruct j; reflexivity.
  - apply IH.
Qed.

Lemma sorted_nth_le (l : list NoteData) :
  StronglySorted timeLe l ->
  forall (i j : nat) (a b : NoteData),
    (i <= j)%nat -> nth_error l i = Some a -> nth_error l j = Some b ->
    time a <= time b.
Proof.
  induction 1 as [|x l Hs IH Hx]; intros i j a b Hij Ha Hb.
  - destruct i; discriminate.
  - destruct i as [|i], j as [|j]; simpl in *; try lia.
    + inversion Ha; inversion Hb; subst. lra.
    + inversion Ha; subst. rewrite Forall_forall in Hx.
      apply Hx. eapply nth_error_In. exact Hb.
    + apply (IH i j); [lia | assumption | assumption].
Qed.

Lemma pushedAt_spec (t : Q) (s : SceneState) :
  pushedAt t s =
  seq (nextNoteIndex s) (nextNoteIndex (spawnNotes t s) - nextNoteIndex s).
Proof.
  unfold pushedAt. rewrite spawnNotes_spec. simpl.
  rewrite skipn_app, Nat.sub_diag, skipn_all. simpl.
  f_equal. lia.
Qed.

Lemma collideNote_index (t : Q) (hands : Hands.HandPositions) (i : nat)
    (st : SceneState * list Callback) :
  nextNoteIndex (fst (collideNote t hands i st)) = nextNoteIndex (fst st).
Proof.
  destruct st as [s out]. unfold collideNote.
  destruct (nth_error (activeNotes s) i) as [ref|]; [|reflexivity].
  destruct (nth_error (notesState s) ref) as [note|]; [|reflexivity].
  destruct (snd (evalNote t hands note)); reflexivity.
Qed.

Lemma collideLoop_index (t : Q) (hands : Hands.HandPositions) :
  forall (n : nat) (st : SceneState * list Callback),
    nextNoteIndex (fst (collideLoop n t hands st)) = nextNoteIndex (fst st).
Proof.
  induction n as [|n IH]; intro st; simpl; [reflexivity|].
  rewrite IH. apply collideNote_index.
Qed.

Lemma runFrame_index (f : Frame) (s : SceneState) :
  nextNoteIndex (fst (runFrame f s))
  = (nextNoteIndex s + List.length (pushedIn f s))%nat /\
  pushedIn f s = seq (nextNoteIndex s) (List.length (pushedIn f s)).
Proof.
  unfold runFrame, useFrame, pushedIn.
  destruct (frameStatus f); try (simpl; split; [lia|reflexivity]).
  destruct (frameAudio f) as [a|]; [|simpl; split; [lia|reflexivity]].
  destruct (ended a); [simpl; split; [lia|reflexivity]|].
  rewrite collideLoop_index. simpl.
  rewrite pushedAt_spec, length_seq.
  rewrite spawnNotes_spec. simpl. split; [lia|reflexivity].
Qed.

Lemma runFrames_cons (f : Frame) (fs : list Frame) (s : SceneState) :
  runFrames (f :: fs) s =
  (fst (runFrames fs (fst (runFrame f s))),
   snd (runFrame f s) ++ snd (runFrames fs (fst (runFrame f s)))).
Proof.
  simpl. destruct (runFrame f s) as [s1 out1]. simpl.
  destruct (runFrames fs s1) as [s2 out2]. reflexivity.
Qed.

Lemma pushes_spec (fs : list Frame) :
  forall s : SceneState,
    (nextNoteIndex s <= nextNoteIndex (fst (runFrames fs s)))%nat /\
    pushes fs s =
    seq (nextNoteIndex s)
        (nextNoteIndex (fst (runFrames fs s)) - nextNoteIndex s).
Proof.
  induction fs as [|f fs IH]; intro s.
  - simpl. rewrite Nat.sub_diag. split; [lia|reflexivity].
  - rewrite runFrames_cons. simpl fst.
    change (pushes (f :: fs) s)
      with (pushedIn f s ++ pushes fs (fst (runFrame f s))).
    destruct (IH (fst (runFrame f s))) as [Hle Heq].
    destruct (runFrame_index f s) as [Hi Ha].
    split; [lia|].
    remember (List.length (pushedIn f s)) as a eqn:Ea.
    rewrite Heq, Ha, Hi.
    replace (nextNoteIndex (fst (runFrames fs (fst (runFrame f s)))) - nextNoteIndex s)%nat
      with (a + (nextNoteIndex (fst (runFrames fs (fst (runFrame f s))))
                 - (nextNoteIndex s + a)))%nat by lia.
    symmetry. apply seq_app.
Qed.

(** The spawn lead time is the distance from the spawn plane to the player
    plane over the note speed (3 seconds).  Step 1 of a frame at time [t]
    moves the cursor forward only, over a run of consecutive notes that
    starts at the cursor, and pushes exactly these, in order: each of them
    has [time - spawnLeadTime <= t], and the note at which the cursor stops,
    if there is one, has not.  On a chart in order of time a note at or
    after the cursor is therefore admitted exactly when
    [time - spawnLeadTime <= t]; a note before the cursor is not admitted
    again.  Over any run of frames the notes admitted are consecutive
    positions of the chart, each admitted once. *)
Theorem spawn_pushes_due_prefix (t : Q) (s : SceneState) :
  let s' := spawnNotes t s in
  spawnAheadTime == Qabs (SPAWN_Z - PLAYER_Z) / NOTE_SPEED /\
  spawnAheadTime == 3 /\
  notesState s' = notesState s /\
  (nextNoteIndex s <= nextNoteIndex s')%nat /\
  activeNotes s' =
    activeNotes s ++ seq (nextNoteIndex s) (nextNoteIndex s' - nextNoteIndex s) /\
  (forall k n, (nextNoteIndex s <= k < nextNoteIndex s')%nat ->
               nth_error (notesState s) k = Some n ->
               time n - spawnAheadTime <= t) /\
  (forall n, nth_error (notesState s) (nextNoteIndex s') = Some n ->
             ~ time n - spawnAheadTime <= t) /\
  (StronglySorted timeLe (notesState s) ->
   forall k n, (nextNoteIndex s <= k)%nat ->
               nth_error (notesState s) k = Some n ->
               ((k < nextNoteIndex s')%nat <-> time n - spawnAheadTime <= t)) /\
  (forall fs : list Frame,
      pushes fs s =
        seq (nextNoteIndex s)
            (nextNoteIndex (fst (runFrames fs s)) - nextNoteIndex s) /\
      NoDup (pushes fs s)).
Proof.
  intro s'. subst s'. rewrite spawnNotes_spec. simpl.
  set (idx := nextNoteIndex s).
  set (m := duePrefix t (skipn idx (notesState s))).
  assert (Hdue : forall k n, (idx <= k < idx + m)%nat ->
                   nth_error (notesState s) k = Some n ->
                   time n - spawnAheadTime <= t).
  { intros k n Hk Hn. apply Qleb_true.
    apply (duePrefix_due t (skipn idx (notesState s)) (k - idx) n); [fold m; lia|].
    rewrite nth_error_skipn. replace (idx + (k - idx))%nat with k by lia. exact Hn. }
  assert (Hstop : forall n, nth_error (notesState s) (idx + m) = Some n ->
                    ~ time n - spawnAheadTime <= t).
  { intros n Hn Hle. apply Qleb_true in Hle.
    assert (Hf : dueBy t n = false).
    { apply (duePrefix_stop t (skipn idx (notesState s))).
      rewrite nth_error_skipn. exact Hn. }
    unfold dueBy in Hf. congruence. }
  split; [reflexivity|]. split; [reflexivity|]. split; [reflexivity|].
  split; [lia|]. split; [f_equal; f_equal; lia|].
  split; [exact Hdue|]. split; [exact Hstop|]. split.
  - intros Hsorted k n Hk Hn. split.
    + intro Hlt. apply (Hdue k n); [lia | exact Hn].
    + intro Hle. destruct (Nat.lt_ge_cases k (idx + m)) as [Hlt|Hge]; [exact Hlt|].
      assert (Hlen : (idx + m < List.length (notesState s))%nat).
      { apply Nat.le_lt_trans with k; [exact Hge|].
        apply nth_error_Some. congruence. }
      destruct (nth_error (notesState s) (idx + m)) as [n0|] eqn:E0;
        [|apply nth_error_None in E0; lia].
      pose proof (Hstop n0 eq_refl) as Hn0.
      pose proof (sorted_nth_le _ Hsorted (idx + m)%nat k n0 n Hge E0 Hn) as Hord.
      exfalso. apply Hn0. lra.
  - intro fs. destruct (pushes_spec fs s) as [_ Heq].
    split; [exact Heq|]. rewrite Heq. apply seq_NoDup.
Qed.

Lemma spawn_pushes_due_prefix_witness :
  StronglySorted timeLe (notesState (initScene chart120)) /\
  activeNotes (spawnNotes 1 (initScene chart120)) = [0; 1; 2]%nat /\
  (forall k n,
     (nextNoteIndex (initScene chart120) <= k)%nat ->
     nth_error (notesState (initScene chart120)) k = Some n ->
     ((k < nextNoteIndex (spawnNotes 1 (initScene chart120)))%nat
      <-> time n - spawnAheadTime <= 1)).
Proof.
  assert (Hs : StronglySorted timeLe (notesState (initScene chart120))).
  { unfold chart120, generateChart, initScene, notesState. apply sortBy_sorted. }
  split; [exact Hs|]. split; [vm_compute; reflexivity|].
  pose proof (spawn_pushes_due_prefix 1 (initScene chart120)) as H.
  cbv zeta in H.
  destruct H as (_ & _ & _ & _ & _ & _ & _ & H & _).
  exact (H Hs).
Defined.

(** ** The loop over the active notes *)

Lemma nth_error_updateAt {A : Type} (f : A -> A) (l : list A) :
  forall (k j : nat),
    nth_error (updateAt k f l) j =
    if Nat.eqb j k then option_map f (nth_error l j) else nth_error l j.
Proof.
  induction l as [|a l IH]; intros k j; simpl.
  - destruct k; simpl; destruct j; simpl;
      try match goal with |- context [if ?b then _ else _] => destruct b end;
      reflexivity.
  - destruct k as [|k], j as [|j]; simpl; try reflexivity.
    apply IH.
Qed.

Lemma splice1_split {A : Type} (l1 l2 : list A) (a : A) :
  splice1 (List.length l1) (l1 ++ a :: l2) = l1 ++ l2.
Proof.
  unfold splice1. induction l1 as [|b l1 IH]; simpl; [reflexivity|].
  f_equal. exact IH.
Qed.

Lemma splice1_keeps {A : Type} (l : list A) (i : nat) (r k : A) :
  nth_error l i = Some r -> In k l -> k <> r -> In k (splice1 i l).
Proof.
  intros Hi Hk Hne.
  destruct (nth_error_split l i Hi) as (l1 & l2 & Hl & Hlen).
  subst l i. rewrite splice1_split.
  apply in_app_or in Hk. apply in_or_app.
  destruct Hk as [Hk|[Hk|Hk]]; [left; exact Hk | congruence | right; exact Hk].
Qed.

Lemma splice1_sub {A : Type} (l : list A) (i : nat) (k : A) :
  In k (splice1 i l) -> In k l.
Proof.
  unfold splice1. intro H. apply in_app_or in H.
  rewrite <- (firstn_skipn i l). apply in_or_app.
  destruct H as [H|H]; [left; exact H|].
  right. rewrite <- (firstn_skipn 1 (skipn i l)). apply in_or_app. right.
  rewrite skipn_skipn. exact H.
Qed.

Lemma noteStep_resolved (k : nat) (n n' : NoteData) (cbs : list Callback) :
  hit n || missed n = true -> noteStep k n n' cbs -> n' = n /\ cbs = [].
Proof.
  intros Hf [H|(Hh & Hm & _)]; [exact H|].
  rewrite Hh, Hm in Hf. discriminate.
Qed.

Lemma Evolves_refl (s : SceneState) : Evolves s s [].
Proof.
  split.
  - intro k. destruct (nth_error (notesState s) k) as [n|] eqn:E.
    + exists n. split; [reflexivity|]. left. split; reflexivity.
    + split; reflexivity.
  - intros k Hk. left. exact Hk.
Qed.

Lemma Evolves_trans (s s1 s2 : SceneState) (o1 o2 : list Callback) :
  Evolves s s1 o1 -> Evolves s1 s2 o2 -> Evolves s s2 (o1 ++ o2).
Proof.
  intros [Hn1 Ha1] [Hn2 Ha2]. split.
  - intro k. specialize (Hn1 k). specialize (Hn2 k). rewrite filter_app.
    destruct (nth_error (notesState s) k) as [n|].
    + destruct Hn1 as (n1 & E1 & St1). rewrite E1 in Hn2.
      destruct Hn2 as (n2 & E2 & St2). exists n2. split; [exact E2|].
      destruct St1 as [[-> ->]|(Hh & Hm & St1)]; [exact St2|].
      assert (Hf : hit n1 || missed n1 = true).
      { destruct St1 as [[-> _]|(t & g & -> & _)]; simpl;
          [apply orb_true_r | reflexivity]. }
      destruct (noteStep_resolved k n1 n2 _ Hf St2) as [-> ->].
      rewrite app_nil_r. right. auto.
    + destruct Hn1 as [E1 F1]. rewrite E1 in Hn2. destruct Hn2 as [E2 F2].
      rewrite F1, F2. split; [exact E2 | reflexivity].
  - intros k Hk. destruct (Ha1 k Hk) as [H1|(n1 & E1 & Hf)].
    + apply Ha2. exact H1.
    + right. specialize (Hn2 k). rewrite E1 in Hn2.
      destruct Hn2 as (n2 & E2 & St2).
      destruct (noteStep_resolved k n1 n2 _ Hf St2) as [-> _].
      exists n1. split; assumption.
Qed.

Lemma evalNote_unresolved (t : Q) (hands : Hands.HandPositions) (note : NoteData) :
  snd (evalNote t hands note) = Missed \/
  (exists g, snd (evalNote t hands note) = Cut g) ->
  hit note = false /\ missed note = false.
Proof.
  unfold evalNote. destruct (hit note), (missed note); simpl;
    intros [H|[g H]]; try discriminate; auto.
Qed.

Lemma resolves_single (k ref : nat) (c : Callback) :
  callbackNote c = Some ref ->
  filter (resolves k) [c] = if Nat.eqb ref k then [c] else [].
Proof.
  intro H. simpl. unfold resolves. rewrite H. reflexivity.
Qed.

(** One mutation of the loop: the note at [ref], unresolved in [s], gets the
    new value [f note], the entry [i] of the active notes, which refers to
    it, is removed, and the callback [c] is made for it. *)
Lemma mutation_evolves (s : SceneState) (i ref : nat) (note : NoteData)
    (f : NoteData -> NoteData) (c : Callback) :
  nth_error (activeNotes s) i = Some ref ->
  nth_error (notesState s) ref = Some note ->
  callbackNote c = Some ref ->
  hit (f note) || missed (f note) = true ->
  noteStep ref note (f note) [c] ->
  Evolves s (mkScene (updateAt ref f (notesState s)) (splice1 i (activeNotes s))
                     (nextNoteIndex s)) [c].
Proof.
  intros Hi Hr Hc Hf Hst. split.
  - intro k. rewrite (resolves_single k ref c Hc). cbn [notesState].
    rewrite nth_error_updateAt.
    destruct (Nat.eqb k ref) eqn:E.
    + apply Nat.eqb_eq in E. subst k. rewrite Hr, Nat.eqb_refl. simpl.
      exists (f note). split; [reflexivity | exact Hst].
    + rewrite Nat.eqb_sym, E.
      destruct (nth_error (notesState s) k) as [n|].
      * exists n. split; [reflexivity|]. left. split; reflexivity.
      * split; reflexivity.
  - cbn [notesState activeNotes]. intros k Hk.
    destruct (Nat.eq_dec k ref) as [->|Hne].
    + right. exists (f note). rewrite nth_error_updateAt, Nat.eqb_refl, Hr.
      split; [reflexivity | exact Hf].
    + left. eapply splice1_keeps; eassumption.
Qed.

Lemma collideNote_evolves (t : Q) (hands : Hands.HandPositions) (i : nat)
    (st : SceneState * list Callback) :
  exists new,
    snd (collideNote t hands i st) = snd st ++ new /\
    Evolves (fst st) (fst (collideNote t hands i st)) new.
Proof.
  destruct st as [s out]. unfold collideNote.
  assert (Hsame : exists new, snd (s, out) = snd (s, out) ++ new /\
                              Evolves (fst (s, out)) (fst (s, out)) new).
  { exists []. simpl. rewrite app_nil_r. split; [reflexivity | apply Evolves_refl]. }
  destruct (nth_error (activeNotes s) i) as [ref|] eqn:Ei; [|exact Hsame].
  destruct (nth_error (notesState s) ref) as [note|] eqn:Er; [|exact Hsame].
  destruct (snd (evalNote t hands note)) as [| |g|] eqn:Ev; try exact Hsame.
  - destruct (evalNote_unresolved t hands note (or_introl Ev)) as [Hh Hm].
    exists [OnNoteMiss ref]. simpl. split; [reflexivity|].
    apply mutation_evolves with (note := note); try assumption; try reflexivity.
    + simpl. apply orb_true_r.
    + right. auto.
  - destruct (evalNote_unresolved t hands note
                (or_intror (ex_intro _ g Ev))) as [Hh Hm].
    exists [OnNoteHit ref g]. simpl. split; [reflexivity|].
    apply mutation_evolves with (note := note); try assumption; try reflexivity.
    right. split; [exact Hh|]. split; [exact Hm|]. right. exists t, g. auto.
Qed.

Lemma collideLoop_evolves (t : Q) (hands : Hands.HandPositions) :
  forall (n : nat) (st : SceneState * list Callback),
  exists new,
    snd (collideLoop n t hands st) = snd st ++ new /\
    Evolves (fst st) (fst (collideLoop n t hands st)) new.
Proof.
  induction n as [|n IH]; intro st; simpl.
  - exists []. rewrite app_nil_r. split; [reflexivity | apply Evolves_refl].
  - destruct (collideNote_evolves t hands n st) as (new1 & E1 & H1).
    destruct (IH (collideNote t hands n st)) as (new2 & E2 & H2).
    exists (new1 ++ new2). split.
    + rewrite E2, E1, app_assoc. reflexivity.
    + eapply Evolves_trans; eassumption.
Qed.

Lemma spawnNotes_evolves (t : Q) (s : SceneState) : Evolves s (spawnNotes t s) [].
Proof.
  rewrite spawnNotes_spec. split; simpl.
  - intro k. destruct (nth_error (notesState s) k) as [n|].
    + exists n. split; [reflexivity|]. left. split; reflexivity.
    + split; reflexivity.
  - intros k Hk. left. apply in_or_app. left. exact Hk.
Qed.

Lemma runFrame_evolves (f : Frame) (s : SceneState) :
  Evolves s (fst (runFrame f s)) (snd (runFrame f s)).
Proof.
  unfold runFrame, useFrame.
  destruct (frameStatus f); try apply Evolves_refl.
  destruct (frameAudio f) as [a|]; [|apply Evolves_refl].
  destruct (ended a).
  - simpl. split.
    + intro k. destruct (nth_error (notesState s) k) as [n|].
      * exists n. split; [reflexivity|]. left. split; reflexivity.
      * split; reflexivity.
    + intros k Hk. left. exact Hk.
  - destruct (collideLoop_evolves (currentTime a) (frameHands f)
                (List.length (activeNotes (spawnNotes (currentTime a) s)))
                (spawnNotes (currentTime a) s, [])) as (new & E & H).
    simpl in E. rewrite E.
    change new with ([] ++ new).
    eapply Evolves_trans; [apply spawnNotes_evolves | exact H].
Qed.

Lemma runFrames_evolves (fs : list Frame) :
  forall s : SceneState,
    Evolves s (fst (runFrames fs s)) (snd (runFrames fs s)).
Proof.
  induction fs as [|f fs IH]; intro s.
  - apply Evolves_refl.
  - rewrite runFrames_cons. simpl.
    eapply Evolves_trans; [apply runFrame_evolves | apply IH].
Qed.

Lemma spawnNotes_cursor (t : Q) (s : SceneState) :
  BeforeCursor s -> BeforeCursor (spawnNotes t s).
Proof.
  intros [Ha Hn]. rewrite spawnNotes_spec. split; simpl.
  - intros k Hk. apply in_app_or in Hk. destruct Hk as [Hk|Hk].
    + apply Ha in Hk. lia.
    + apply in_seq in Hk. lia.
  - intros k n Hk Hf. specialize (Hn k n Hk Hf). lia.
Qed.

Lemma collideNote_cursor (t : Q) (hands : Hands.HandPositions) (i : nat)
    (st : SceneState * list Callback) :
  BeforeCursor (fst st) ->
  BeforeCursor (fst (collideNote t hands i st)).
Proof.
  destruct st as [s out]. simpl. intros [Ha Hn]. unfold collideNote.
  destruct (nth_error (activeNotes s) i) as [ref|] eqn:Ei; [|split; assumption].
  destruct (nth_error (notesState s) ref) as [note|] eqn:Er; [|split; assumption].
  assert (Href : (ref < nextNoteIndex s)%nat).
  { apply Ha. eapply nth_error_In. exact Ei. }
  assert (Hmut : forall f,
             BeforeCursor
               (mkScene (updateAt ref f (notesState s))
                        (splice1 i (activeNotes s)) (nextNoteIndex s))).
  { intro f. split; simpl.
    - intros k Hk. apply Ha. eapply splice1_sub. exact Hk.
    - intros k n Hk Hf. rewrite nth_error_updateAt in Hk.
      destruct (Nat.eqb k ref) eqn:E.
      + apply Nat.eqb_eq in E. subst k. exact Href.
      + apply (Hn k n Hk Hf). }
  destruct (snd (evalNote t hands note)); simpl;
    try (split; assumption); apply Hmut.
Qed.

Lemma collideLoop_cursor (t : Q) (hands : Hands.HandPositions) :
  forall (n : nat) (st : SceneState * list Callback),
    BeforeCursor (fst st) ->
    BeforeCursor (fst (collideLoop n t hands st)).
Proof.
  induction n as [|n IH]; intros st H; simpl; [exact H|].
  apply IH, collideNote_cursor, H.
Qed.

Lemma runFrame_cursor (f : Frame) (s : SceneState) :
  BeforeCursor s -> BeforeCursor (fst (runFrame f s)).
Proof.
  intro H. unfold runFrame, useFrame.
  destruct (frameStatus f); try exact H.
  destruct (frameAudio f) as [a|]; [|exact H].
  destruct (ended a); [exact H|].
  apply collideLoop_cursor. simpl. apply spawnNotes_cursor, H.
Qed.

Lemma runFrames_cursor (fs : list Frame) :
  forall s : SceneState,
    BeforeCursor s -> BeforeCursor (fst (runFrames fs s)).
Proof.
  induction fs as [|f fs IH]; intros s H; [exact H|].
  rewrite runFrames_cons. simpl. apply IH, runFrame_cursor, H.
Qed.

Lemma chartStep_fresh rand offset beatTime i st :
  freshChart (notes st) -> freshChart (notes (chartStep rand offset beatTime i st)).
Proof.
  unfold freshChart, chartStep, pushRandom, pushFixed. intro H.
  assert (Hpush : forall l n, Forall (fun n => hit n = false /\ missed n = false) l ->
                    hit n = false -> missed n = false ->
                    Forall (fun n => hit n = false /\ missed n = false) (l ++ [n])).
  { intros l n Hl Hh Hm. apply Forall_app. split; [exact Hl|].
    constructor; [split; assumption | constructor]. }
  destruct (Z.rem (i / 16) 3 =? 0)%Z.
  - destruct (Z.rem i 4 =? 0)%Z; simpl; apply Hpush; try reflexivity; exact H.
  - destruct (Z.rem (i / 16) 3 =? 1)%Z.
    + destruct (Z.rem i 8 =? 0)%Z; simpl; [|exact H].
      repeat (apply Hpush; try reflexivity). exact H.
    + simpl. repeat (apply Hpush; try reflexivity). exact H.
Qed.

Lemma chartLoop_fresh rand offset beatTime totalBeats :
  forall (f : nat) (i : Z) (st : GenState),
    freshChart (notes st) ->
    freshChart (notes (chartLoop f rand offset beatTime totalBeats i st)).
Proof.
  induction f as [|f IH]; intros i st H; simpl; [exact H|].
  destruct (i <? totalBeats)%Z; [|exact H].
  apply IH, chartStep_fresh, H.
Qed.

(** The charts that [generateChart] returns are fresh. *)
Lemma generateChart_fresh rand bpm offset durationSeconds :
  freshChart (generateChart rand bpm offset durationSeconds).
Proof.
  unfold freshChart.
  eapply Permutation_Forall; [apply generateChart_permutation|].
  unfold chartNotes. apply chartLoop_fresh. constructor.
Qed.

Lemma initScene_cursor (chart : list NoteData) :
  freshChart chart -> BeforeCursor (initScene chart).
Proof.
  intro H. split; simpl.
  - intros k [].
  - intros k n Hk Hf. unfold freshChart in H. rewrite Forall_forall in H.
    destruct (H n (nth_error_In _ _ Hk)) as [Hh Hm].
    rewrite Hh, Hm in Hf. discriminate.
Qed.

Lemma Evolves_rank (s s' : SceneState) (out : list Callback) (k : nat) :
  Evolves s s' out -> (rank (statusOf s k) <= rank (statusOf s' k))%nat.
Proof.
  intros [Hn Ha]. specialize (Hn k). unfold statusOf.
  destruct (nth_error (notesState s) k) as [n|]; [|simpl; lia].
  destruct Hn as (n' & E' & St). rewrite E'.
  destruct (hit n || missed n) eqn:Ef.
  - destruct (noteStep_resolved k n n' _ Ef St) as [-> _].
    destruct (hit n); [simpl; lia|]. destruct (missed n); [simpl; lia|].
    discriminate.
  - apply orb_false_elim in Ef. destruct Ef as [Hh Hm]. rewrite Hh, Hm.
    destruct (existsb (Nat.eqb k) (activeNotes s)) eqn:Ex; [|simpl; lia].
    apply existsb_exists in Ex. destruct Ex as (j & Hj & Ej).
    apply Nat.eqb_eq in Ej. subst j.
    destruct (hit n') eqn:Hh'; [simpl; lia|].
    destruct (missed n') eqn:Hm'; [simpl; lia|].
    destruct (Ha k Hj) as [Hin|(n2 & E2 & Hf2)].
    + assert (Ex : existsb (Nat.eqb k) (activeNotes s') = true).
      { apply existsb_exists. exists k. split; [exact Hin | apply Nat.eqb_refl]. }
      rewrite Ex. simpl. lia.
    + rewrite E' in E2. inversion E2; subst n2.
      rewrite Hh', Hm' in Hf2. discriminate.
Qed.

Lemma Evolves_resolved (s s' : SceneState) (out : list Callback) (k : nat) :
  rank (statusOf s k) = 2%nat -> Evolves s s' out ->
  statusOf s' k = statusOf s k /\
  nth_error (notesState s') k = nth_error (notesState s) k /\
  filter (resolves k) out = [].
Proof.
  intros Hr [Hn _]. specialize (Hn k). unfold statusOf in *.
  destruct (nth_error (notesState s) k) as [n|]; [|discriminate].
  destruct Hn as (n' & E' & St).
  assert (Hf : hit n || missed n = true).
  { destruct (hit n); [reflexivity|]. destruct (missed n); [reflexivity|].
    destruct (existsb (Nat.eqb k) (activeNotes s)); discriminate. }
  destruct (noteStep_resolved k n n' _ Hf St) as [-> Hout].
  rewrite E'. repeat split; try assumption.
  destruct (hit n); [reflexivity|]. destruct (missed n); [reflexivity|].
  discriminate.
Qed.

(** In a run from a fresh chart, the flags of a note tell which callback
    was made for it, and there is at most one. *)
Lemma fresh_run_flags (chart : list NoteData) (s : SceneState)
    (out : list Callback) (k : nat) (n : NoteData) :
  freshChart chart -> Evolves (initScene chart) s out ->
  nth_error (notesState s) k = Some n ->
  (hit n = false /\ missed n = false /\ filter (resolves k) out = []) \/
  (hit n = false /\ missed n = true /\ filter (resolves k) out = [OnNoteMiss k]) \/
  (hit n = true /\ missed n = false /\
   exists g, filter (resolves k) out = [OnNoteHit k g]).
Proof.
  intros Hfresh [Hn _] Hk. specialize (Hn k). simpl in Hn.
  destruct (nth_error chart k) as [n0|] eqn:E0.
  - destruct Hn as (n' & E' & St). rewrite Hk in E'. inversion E'; subst n'.
    unfold freshChart in Hfresh. rewrite Forall_forall in Hfresh.
    destruct (Hfresh n0 (nth_error_In _ _ E0)) as [Hh Hm].
    destruct St as [[-> ->]|(_ & _ & [[-> ->]|(t & g & -> & ->)])]; simpl.
    + left. auto.
    + right. left. auto.
    + right. right. split; [reflexivity|]. split; [exact Hm|]. exists g. reflexivity.
  - destruct Hn as [E' _]. congruence.
Qed.

(** ** C9 *)

(** C9. In every run of frames on a fresh chart, and for every note: a frame
    never lowers the status of the note in the order pending, active,
    hit or missed; a note that is hit or missed keeps its status and its
    fields in every later frame and gets no further callback; no note is
    both hit and missed; a note gets at most one callback over the whole
    run, [onNoteHit] exactly when it is hit and [onNoteMiss] exactly when it
    is missed; and a note at or after the cursor is pending. *)
Theorem note_status_monotonic (chart : list NoteData) (fs : list Frame)
    (f : Frame) (k : nat) :
  freshChart chart ->
  let s := fst (runFrames fs (initScene chart)) in
  let out := snd (runFrames fs (initScene chart)) in
  let s' := fst (runFrame f s) in
  let out' := snd (runFrame f s) in
  (rank (statusOf s k) <= rank (statusOf s' k))%nat /\
  (rank (statusOf s k) = 2%nat ->
   statusOf s' k = statusOf s k /\
   nth_error (notesState s') k = nth_error (notesState s) k /\
   filter (resolves k) out' = []) /\
  (forall n, nth_error (notesState s) k = Some n -> hit n && missed n = false) /\
  (List.length (filter (resolves k) out) <= 1)%nat /\
  (statusOf s k = Hit <-> exists g, filter (resolves k) out = [OnNoteHit k g]) /\
  (statusOf s k = Miss <-> filter (resolves k) out = [OnNoteMiss k]) /\
  ((nextNoteIndex s <= k)%nat -> statusOf s k = Pending).
Proof.
  intros Hfresh s out s' out'.
  pose proof (runFrames_evolves fs (initScene chart)) as Hrun.
  pose proof (runFrame_evolves f s) as Hstep.
  pose proof (runFrames_cursor fs _ (initScene_cursor chart Hfresh)) as Hcur.
  fold s in Hrun, Hcur. fold out in Hrun. fold s' out' in Hstep.
  split; [eapply Evolves_rank; exact Hstep|].
  split; [intro Hr; eapply Evolves_resolved; eassumption|].
  assert (Hcases :
    match nth_error (notesState s) k with
    | Some n =>
        (hit n = false /\ missed n = false /\ filter (resolves k) out = []) \/
        (hit n = false /\ missed n = true /\
         filter (resolves k) out = [OnNoteMiss k]) \/
        (hit n = true /\ missed n = false /\
         exists g, filter (resolves k) out = [OnNoteHit k g])
    | None => filter (resolves k) out = []
    end).
  { destruct (nth_error (notesState s) k) as [n|] eqn:E.
    - eapply fresh_run_flags; eassumption.
    - destruct Hrun as [Hn _]. specialize (Hn k).
      destruct (nth_error (notesState (initScene chart)) k).
      + destruct Hn as (n' & E' & _). congruence.
      + apply Hn. }
  unfold statusOf.
  destruct (nth_error (notesState s) k) as [n|] eqn:E.
  - destruct Hcases as [(Hh & Hm & Ho)|[(Hh & Hm & Ho)|(Hh & Hm & g & Ho)]];
      rewrite Hh, ?Hm, Ho.
    + split; [intros n0 Hn0; inversion Hn0; subst; rewrite Hh; reflexivity|].
      split; [simpl; lia|].
      split.
      { split; [|intros [g Hg]; discriminate].
        destruct (existsb (Nat.eqb k) (activeNotes s)); discriminate. }
      split.
      { split; [|discriminate].
        destruct (existsb (Nat.eqb k) (activeNotes s)); discriminate. }
      intro Hk.
      destruct (existsb (Nat.eqb k) (activeNotes s)) eqn:Ex; [|reflexivity].
      apply existsb_exists in Ex. destruct Ex as (j & Hj & Ej).
      apply Nat.eqb_eq in Ej. subst j.
      destruct Hcur as [Ha _]. apply Ha in Hj. lia.
    + split; [intros n0 Hn0; inversion Hn0; subst; rewrite Hh; reflexivity|].
      split; [simpl; lia|].
      split; [split; [discriminate | intros [g Hg]; discriminate]|].
      split; [split; reflexivity|].
      intro Hk. destruct Hcur as [_ Hn].
      assert (Hlt : (k < nextNoteIndex s)%nat).
      { apply (Hn k n E). rewrite Hh, Hm. reflexivity. }
      lia.
    + split; [intros n0 Hn0; inversion Hn0; subst; rewrite Hh, Hm; reflexivity|].
      split; [simpl; lia|].
      split; [split; [intros _; exists g; reflexivity | reflexivity]|].
      split; [split; discriminate|].
      intro Hk. destruct Hcur as [_ Hn].
      assert (Hlt : (k < nextNoteIndex s)%nat).
      { apply (Hn k n E). rewrite Hh. reflexivity. }
      lia.
  - rewrite Hcases.
    split; [intros n0 Hn0; discriminate|].
    split; [simpl; lia|].
    split; [split; [discriminate | intros [g Hg]; discriminate]|].
    split; [split; discriminate|].
    reflexivity.
Qed.

Lemma note_status_monotonic_witness :
  freshChart [noteAtTen] /\
  statusOf (fst (runFrames [frameAtTen] (initScene [noteAtTen]))) 0 = Hit /\
  statusOf (fst (runFrame frameAtEleven
                   (fst (runFrames [frameAtTen] (initScene [noteAtTen]))))) 0
  = Hit.
Proof.
  assert (Hfresh : freshChart [noteAtTen]).
  { constructor; [split; reflexivity | constructor]. }
  split; [exact Hfresh|]. split; [vm_compute; reflexivity|].
  pose proof (note_status_monotonic [noteAtTen] [frameAtTen] frameAtEleven 0
                Hfresh) as H.
  cbv zeta in H. destruct H as (_ & Hfrozen & _).
  assert (Hr : rank (statusOf (fst (runFrames [frameAtTen] (initScene [noteAtTen]))) 0)
               = 2%nat) by (vm_compute; reflexivity).
  destruct (Hfrozen Hr) as [Hs _]. rewrite Hs. vm_compute. reflexivity.
Defined.

(** A note that nobody cuts is missed once it is more than half a second
    late, with one callback. *)
Example uncut_note_is_missed :
  let hands := Hands.mk None None (mkVec 0 0 0) (mkVec 0 0 0) in
  let frames := map (fun t => mkFrame PLAYING (Some (mkAudio t false)) hands)
                    [6; 9.9; 10.5; 10.6; 12] in
  snd (runFrames frames (initScene [noteAtTen])) = [OnNoteMiss 0] /\
  map (fun n => (hit n, missed n))
      (notesState (fst (runFrames frames (initScene [noteAtTen]))))
  = [(false, true)].
Proof. vm_compute. split; reflexivity. Qed.

(** * Further properties *)

(** ** The chart generator *)

(** An invariant [I i st] of the loop of [generateChart], [i] being the
    beat index at the head of the loop, holds when the loop ends. *)
Lemma chartLoop_invariant rand offset beatTime totalBeats
    (I : Z -> GenState -> Prop) :
  (forall i st, (4 <= i < totalBeats)%Z -> I i st ->
                I (i + 2)%Z (chartStep rand offset beatTime i st)) ->
  forall (f : nat) (i : Z) (st : GenState),
    (4 <= i)%Z -> I i st ->
    exists j, (i <= j)%Z /\
              I j (chartLoop f rand offset beatTime totalBeats i st).
Proof.
  intros Hstep. induction f as [|f IH]; intros i st Hi H; simpl.
  - exists i. split; [lia | exact H].
  - destruct (i <? totalBeats)%Z eqn:E.
    + apply Z.ltb_lt in E.
      destruct (IH (i + 2)%Z (chartStep rand offset beatTime i st)) as (j & Hj & HI);
        [lia | apply Hstep; [lia | exact H] |].
      exists j. split; [lia | exact HI].
    + exists i. split; [lia | exact H].
Qed.

(** Every note that an iteration pushes satisfies [P], when the two kinds
    of pushed notes do. *)
Lemma chartStep_Forall rand offset beatTime i st (P : NoteData -> Prop) :
  (forall t lo hi h k,
      (t == beatAt offset beatTime i \/ t == beatAt offset beatTime (i + 1)) ->
      (lo, hi, h) = (0, 1, LeftHand)%Z \/ (lo, hi, h) = (2, 3, RightHand)%Z ->
      P (mkNote (noteId k) t (getRandomInt lo hi (rand (draws st))) 0 h ANY
                false false None) /\
      P (mkNote (noteId k) t (getRandomInt lo hi (rand (S (draws st)))) 0 h ANY
                false false None)) ->
  (forall t lane h k,
      t == beatAt offset beatTime i ->
      (lane, h) = (0, LeftHand)%Z \/ (lane, h) = (3, RightHand)%Z ->
      P (mkNote (noteId k) t lane 1 h ANY false false None)) ->
  Forall P (notes st) ->
  Forall P (notes (chartStep rand offset beatTime i st)).
Proof.
  intros Hr Hf H.
  assert (Hnow : offset + inject_Z i * beatTime == beatAt offset beatTime i)
    by reflexivity.
  assert (Hnext : offset + inject_Z i * beatTime + beatTime
                  == beatAt offset beatTime (i + 1)).
  { unfold beatAt. rewrite inject_Z_plus. ring. }
  unfold chartStep.
  destruct (Z.rem (i / 16) 3 =? 0)%Z.
  - destruct (Z.rem i 4 =? 0)%Z; simpl; apply Forall_app; split; try exact H;
      constructor; try constructor; apply Hr; auto.
  - destruct (Z.rem (i / 16) 3 =? 1)%Z.
    + destruct (Z.rem i 8 =? 0)%Z; [|exact H]. simpl.
      apply Forall_app; split; [apply Forall_app; split; [exact H|]|];
        constructor; try constructor; apply Hf; auto.
    + simpl.
      apply Forall_app; split; [apply Forall_app; split; [exact H|]|];
        constructor; try constructor; apply Hr; auto.
Qed.

Lemma beatAt_between (offset beatTime : Q) (lo i hi : Z) :
  0 <= beatTime -> (lo <= i <= hi)%Z ->
  beatAt offset beatTime lo <= beatAt offset beatTime i /\
  beatAt offset beatTime i <= beatAt offset beatTime hi.
Proof.
  intros Hb [H1 H2]. unfold beatAt.
  rewrite Zle_Qle in H1, H2. split; nra.
Qed.

Lemma chartNotes_between rand bpm offset durationSeconds :
  0 < bpm ->
  let beatTime := 60 / bpm in
  let totalBeats := Qceiling ((durationSeconds / 60) * bpm) in
  Forall (fun n => beatAt offset beatTime 4 <= time n /\
                   time n <= beatAt offset beatTime totalBeats)
         (chartNotes rand bpm offset durationSeconds).
Proof.
  intros Hbpm beatTime totalBeats.
  assert (Hbt : 0 <= beatTime).
  { unfold beatTime. apply Qlt_le_weak. apply Qlt_shift_div_l; [exact Hbpm | lra]. }
  unfold chartNotes. fold beatTime totalBeats.
  destruct (chartLoop_invariant rand offset beatTime totalBeats
              (fun _ st => Forall (fun n => beatAt offset beatTime 4 <= time n /\
                                            time n <= beatAt offset beatTime totalBeats)
                                  (notes st)))
    with (f := Z.to_nat totalBeats) (i := 4%Z) (st := mkGen [] 0 0)
    as (j & _ & H); [ | lia | constructor | exact H].
  intros i st Hi H. apply chartStep_Forall; [| |exact H].
  - intros t lo hi h k [Ht|Ht] _; simpl; rewrite Ht.
    + destruct (beatAt_between offset beatTime 4 i totalBeats Hbt); [lia|]. auto.
    + destruct (beatAt_between offset beatTime 4 (i + 1) totalBeats Hbt); [lia|]. auto.
  - intros t lane h k Ht _; simpl; rewrite Ht.
    destruct (beatAt_between offset beatTime 4 i totalBeats Hbt); [lia|]. auto.
Qed.



Lemma getRandomInt_range (lo : Z) (r : Q) :
  0 <= r -> r < 1 ->
  getRandomInt lo (lo + 1) r = lo \/ getRandomInt lo (lo + 1) r = (lo + 1)%Z.
Proof.
  intros H0 H1. unfold getRandomInt.
  replace (lo + 1 - lo + 1)%Z with 2%Z by lia.
  pose proof (Qfloor_le (r * inject_Z 2)) as Hle.
  pose proof (Qlt_floor (r * inject_Z 2)) as Hlt.
  change (inject_Z 2) with 2 in *.
  assert (Hlo : (0 < Qfloor (r * 2) + 1)%Z).
  { rewrite Zlt_Qlt. change (inject_Z 0) with 0. lra. }
  assert (Hhi : (Qfloor (r * 2) < 2)%Z).
  { rewrite Zlt_Qlt. change (inject_Z 2) with 2. lra. }
  lia.
Qed.

(** X2. When every random draw is in [0, 1), every note of the chart is for
    the left hand in lane 0 or 1, or for the right hand in lane 2 or 3, in
    layer 0 or 1, with cut direction [ANY]. *)
Theorem generateChart_wellPlaced rand bpm offset durationSeconds :
  (forall k, 0 <= rand k /\ rand k < 1) ->
  Forall wellPlaced (generateChart rand bpm offset durationSeconds).
Proof.
  intro Hrand.
  eapply Permutation_Forall; [apply generateChart_permutation|].
  unfold chartNotes.
  assert (Hloop : forall f i st, Forall wellPlaced (notes st) ->
            Forall wellPlaced
              (notes (chartLoop f rand offset (60 / bpm)
                        (Qceiling ((durationSeconds / 60) * bpm)) i st))).
  { induction f as [|f IH]; intros i st H; simpl; [exact H|].
    destruct (i <? _)%Z; [|exact H]. apply IH.
    apply chartStep_Forall; [| |exact H].
    - intros t lo hi h k _ Hl. unfold wellPlaced; simpl.
      destruct Hl as [Hl|Hl]; inversion Hl; subst; simpl.
      + destruct (Hrand (draws st)) as [Ha Hb].
        destruct (Hrand (S (draws st))) as [Hc Hd].
        pose proof (getRandomInt_range 0 _ Ha Hb).
        pose proof (getRandomInt_range 0 _ Hc Hd). simpl in *. auto.
      + destruct (Hrand (draws st)) as [Ha Hb].
        destruct (Hrand (S (draws st))) as [Hc Hd].
        pose proof (getRandomInt_range 2 _ Ha Hb).
        pose proof (getRandomInt_range 2 _ Hc Hd). simpl in *. auto.
    - intros t lane h k _ Hl. unfold wellPlaced; simpl.
      destruct Hl as [Hl|Hl]; inversion Hl; subst; simpl; auto. }
  apply Hloop. constructor.
Qed.

Lemma generateChart_wellPlaced_witness :
  (forall k, 0 <= randAlt k /\ randAlt k < 1) /\
  Forall wellPlaced (generateChart randAlt 120 0 30).
Proof.
  assert (H : forall k, 0 <= randAlt k /\ randAlt k < 1).
  { intro k. unfold randAlt. destruct (Nat.even k); split; reflexivity || discriminate. }
  split; [exact H|].
  apply (generateChart_wellPlaced randAlt 120 0 30 H).
Defined.

Lemma noteId_injective (a b : nat) : noteId a = noteId b -> a = b.
Proof.
  unfold noteId. intro H. simpl in H. inversion H as [H1].
  apply (f_equal NilEmpty.uint_of_string) in H1.
  rewrite !NilEmpty.usu in H1. inversion H1 as [H2].
  apply (f_equal Nat.of_uint) in H2. rewrite !Unsigned.of_to in H2. exact H2.
Qed.

Lemma numbered_push (st : GenState) (n : NoteData) (d : nat) :
  numbered st -> id n = noteId (idCount st) ->
  numbered (mkGen (notes st ++ [n]) (S (idCount st)) d).
Proof.
  intros [Hc Hm] Hn. unfold numbered; simpl.
  rewrite length_app; simpl. split; [lia|].
  rewrite Nat.add_1_r, seq_S, !map_app, <- Hm. simpl. rewrite Hn, Hc. reflexivity.
Qed.

Lemma chartStep_numbered rand offset beatTime i st :
  numbered st -> numbered (chartStep rand offset beatTime i st).
Proof.
  intro H.
  assert (Hr : forall t lo hi h st', numbered st' ->
                 numbered (pushRandom rand t lo hi h st')).
  { intros t lo hi h st' H'. unfold pushRandom. apply numbered_push; auto. }
  assert (Hf : forall t lane layer h st', numbered st' ->
                 numbered (pushFixed t lane layer h st')).
  { intros t lane layer h st' H'. unfold pushFixed. apply numbered_push; auto. }
  unfold chartStep.
  destruct (Z.rem (i / 16) 3 =? 0)%Z.
  - destruct (Z.rem i 4 =? 0)%Z; apply Hr, H.
  - destruct (Z.rem (i / 16) 3 =? 1)%Z.
    + destruct (Z.rem i 8 =? 0)%Z; [|exact H]. apply Hf, Hf, H.
    + apply Hr, Hr, H.
Qed.

Lemma chartNotes_numbered rand bpm offset durationSeconds :
  map id (chartNotes rand bpm offset durationSeconds)
  = map noteId (seq 0 (List.length (chartNotes rand bpm offset durationSeconds))).
Proof.
  unfold chartNotes.
  assert (Hloop : forall f tb i st, numbered st ->
            numbered (chartLoop f rand offset (60 / bpm) tb i st)).
  { induction f as [|f IH]; intros tb i st H; simpl; [exact H|].
    destruct (i <? tb)%Z; [|exact H]. apply IH, chartStep_numbered, H. }
  apply Hloop. split; reflexivity.
Qed.

(** X3. The ids of the notes of a chart are pairwise different. *)
Theorem generateChart_ids_unique rand bpm offset durationSeconds :
  NoDup (map id (generateChart rand bpm offset durationSeconds)).
Proof.
  eapply Permutation_NoDup.
  - apply Permutation_map. apply generateChart_permutation.
  - rewrite chartNotes_numbered.
    apply Finite.Injective_map_NoDup; [|apply seq_NoDup].
    intros a b. apply noteId_injective.
Qed.

Section SortRelated.
Context (R : NoteData -> NoteData -> Prop).
Hypothesis R_time : forall a b, R a b -> time a == time b.

Lemma insertBy_related (a b : NoteData) (l1 l2 : list NoteData) :
  R a b -> Forall2 R l1 l2 ->
  Forall2 R (insertBy compareTime a l1) (insertBy compareTime b l2).
Proof.
  intros Hab H. induction H as [|x y l1 l2 Hxy Hl IH]; simpl.
  - constructor; [exact Hab | constructor].
  - assert (E : Qleb (compareTime a x) 0 = Qleb (compareTime b y) 0).
    { apply Qleb_ext. unfold compareTime.
      rewrite (R_time a b Hab), (R_time x y Hxy). reflexivity. }
    rewrite E. destruct (Qleb (compareTime b y) 0).
    + constructor; [assumption|]. constructor; assumption.
    + constructor; assumption.
Qed.

Lemma sortBy_related (l1 l2 : list NoteData) :
  Forall2 R l1 l2 ->
  Forall2 R (sortBy compareTime l1) (sortBy compareTime l2).
Proof.
  induction 1; simpl; [constructor | apply insertBy_related; assumption].
Qed.
End SortRelated.

Lemma chartStep_sameButLane rand1 rand2 offset beatTime i st1 st2 :
  Forall2 sameButLane (notes st1) (notes st2) /\ idCount st1 = idCount st2 ->
  Forall2 sameButLane (notes (chartStep rand1 offset beatTime i st1))
                      (notes (chartStep rand2 offset beatTime i st2)) /\
  idCount (chartStep rand1 offset beatTime i st1)
  = idCount (chartStep rand2 offset beatTime i st2).
Proof.
  intros [Hn Hi]. unfold chartStep, pushRandom, pushFixed.
  assert (Hpush : forall l1 l2 a b, Forall2 sameButLane l1 l2 -> sameButLane a b ->
                    Forall2 sameButLane (l1 ++ [a]) (l2 ++ [b])).
  { intros l1 l2 a b Hl Hab. apply Forall2_app; [exact Hl|].
    constructor; [exact Hab | constructor]. }
  destruct (Z.rem (i / 16) 3 =? 0)%Z.
  - destruct (Z.rem i 4 =? 0)%Z; simpl; rewrite Hi; (split; [|reflexivity]);
      apply Hpush; try exact Hn; repeat split.
  - destruct (Z.rem (i / 16) 3 =? 1)%Z.
    + destruct (Z.rem i 8 =? 0)%Z; [|split; assumption].
      simpl; rewrite Hi; (split; [|reflexivity]).
      apply Hpush; [apply Hpush; [exact Hn|] |]; repeat split.
    + simpl; rewrite Hi; (split; [|reflexivity]).
      apply Hpush; [apply Hpush; [exact Hn|] |]; repeat split.
Qed.

(** X4. The random draws decide lanes only: two charts for the same tempo,
    offset and duration, generated with any two random sources, have the
    same length and, position by position, notes with the same id, time,
    layer, hand and cut direction. *)
Theorem generateChart_random_lanes_only rand1 rand2 bpm offset durationSeconds :
  Forall2 sameButLane (generateChart rand1 bpm offset durationSeconds)
                      (generateChart rand2 bpm offset durationSeconds).
Proof.
  unfold generateChart, chartNotes.
  apply sortBy_related.
  - intros a b H. destruct H as [Ht _]. rewrite Ht. reflexivity.
  - assert (Hloop : forall f tb i st1 st2,
              Forall2 sameButLane (notes st1) (notes st2) /\ idCount st1 = idCount st2 ->
              Forall2 sameButLane
                (notes (chartLoop f rand1 offset (60 / bpm) tb i st1))
                (notes (chartLoop f rand2 offset (60 / bpm) tb i st2)) /\
              idCount (chartLoop f rand1 offset (60 / bpm) tb i st1)
              = idCount (chartLoop f rand2 offset (60 / bpm) tb i st2)).
    { induction f as [|f IH]; intros tb i st1 st2 H; simpl; [exact H|].
      destruct (i <? tb)%Z; [|exact H]. apply IH, chartStep_sameButLane, H. }
    apply Hloop. split; [constructor | reflexivity].
Qed.

Lemma sorted_snoc (l : list NoteData) (n : NoteData) :
  StronglySorted timeLe l -> Forall (fun m => time m <= time n) l ->
  StronglySorted timeLe (l ++ [n]).
Proof.
  induction 1 as [|a l Hs IH Ha]; intro Hl; simpl.
  - repeat constructor.
  - inversion Hl as [|? ? Han Hrest]; subst.
    constructor; [apply IH; exact Hrest|].
    apply Forall_app. split; [exact Ha|].
    constructor; [exact Han | constructor].
Qed.

Lemma sortBy_sorted_id (l : list NoteData) :
  StronglySorted timeLe l -> sortBy compareTime l = l.
Proof.
  induction 1 as [|a l Hs IH Ha]; simpl; [reflexivity|].
  rewrite IH. destruct l as [|b l]; simpl; [reflexivity|].
  inversion Ha as [|? ? Hab _]; subst.
  assert (E : Qleb (compareTime a b) 0 = true).
  { apply Qleb_true. unfold compareTime, timeLe in *. lra. }
  rewrite E. reflexivity.
Qed.

Lemma pushedInOrder_push offset beatTime (j j' : Z) (st : GenState)
    (n : NoteData) (c d : nat) :
  0 <= beatTime -> (j - 1 <= j' - 1)%Z ->
  pushedInOrder offset beatTime j st ->
  beatAt offset beatTime (j - 1) <= time n ->
  time n <= beatAt offset beatTime (j' - 1) ->
  pushedInOrder offset beatTime j' (mkGen (notes st ++ [n]) c d).
Proof.
  intros Hb Hj [Hs Hf] Hlo Hhi. split; simpl.
  - apply sorted_snoc; [exact Hs|].
    eapply Forall_impl; [|exact Hf]. intros m Hm. simpl in Hm. lra.
  - apply Forall_app. split.
    + eapply Forall_impl; [|exact Hf]. intros m Hm. simpl in Hm.
      destruct (beatAt_between offset beatTime (j - 1) (j - 1) (j' - 1) Hb); [lia|].
      lra.
    + constructor; [exact Hhi | constructor].
Qed.

Lemma beatAt_step (offset beatTime : Q) (i k : Z) :
  beatAt offset beatTime (i + k) == beatAt offset beatTime i + inject_Z k * beatTime.
Proof. unfold beatAt. rewrite inject_Z_plus. ring. Qed.

Lemma chartStep_pushedInOrder rand offset beatTime i st :
  0 <= beatTime ->
  pushedInOrder offset beatTime i st ->
  pushedInOrder offset beatTime (i + 2) (chartStep rand offset beatTime i st).
Proof.
  intros Hb H.
  pose proof (beatAt_step offset beatTime i (-1)) as Hm1.
  pose proof (beatAt_step offset beatTime i 1) as Hp1.
  change (inject_Z (-1)) with (-1) in Hm1. change (inject_Z 1) with 1 in Hp1.
  assert (Hnow : offset + inject_Z i * beatTime == beatAt offset beatTime i)
    by reflexivity.
  replace (i + -1)%Z with (i - 1)%Z in Hm1 by lia.
  assert (Hone : forall lo hi h st',
            pushedInOrder offset beatTime i st' ->
            pushedInOrder offset beatTime (i + 1)
              (pushRandom rand (offset + inject_Z i * beatTime) lo hi h st')).
  { intros lo hi h st' H'. unfold pushRandom.
    eapply pushedInOrder_push; [exact Hb | | exact H' | |]; simpl.
    - lia.
    - rewrite Hnow, Hm1. lra.
    - replace (i + 1 - 1)%Z with i by lia. rewrite Hnow. lra. }
  assert (Hfix : forall lane j st', (i <= j <= i + 1)%Z ->
            pushedInOrder offset beatTime j st' ->
            pushedInOrder offset beatTime (j + 1)
              (pushFixed (offset + inject_Z i * beatTime) lane 1
                 (if (lane =? 0)%Z then LeftHand else RightHand) st')).
  { intros lane j st' Hj H'. unfold pushFixed.
    eapply pushedInOrder_push; [exact Hb | | exact H' | |]; simpl.
    - lia.
    - rewrite Hnow.
      destruct (beatAt_between offset beatTime (j - 1) (j - 1) i Hb); [lia|]. lra.
    - replace (j + 1 - 1)%Z with j by lia. rewrite Hnow.
      destruct (beatAt_between offset beatTime i i j Hb); [lia|]. lra. }
  assert (Hweak : forall st', pushedInOrder offset beatTime (i + 1) st' ->
                              pushedInOrder offset beatTime (i + 2) st').
  { intros st' [Hs Hf]. split; [exact Hs|].
    eapply Forall_impl; [|exact Hf]. intros m Hm. simpl in Hm.
    destruct (beatAt_between offset beatTime (i + 1 - 1) (i + 1 - 1) (i + 2 - 1) Hb);
      [lia|]. lra. }
  assert (Hweak0 : forall st', pushedInOrder offset beatTime i st' ->
                               pushedInOrder offset beatTime (i + 1) st').
  { intros st' [Hs Hf]. split; [exact Hs|].
    eapply Forall_impl; [|exact Hf]. intros m Hm. simpl in Hm.
    destruct (beatAt_between offset beatTime (i - 1) (i - 1) (i + 1 - 1) Hb);
      [lia|]. lra. }
  unfold chartStep.
  destruct (Z.rem (i / 16) 3 =? 0)%Z.
  - destruct (Z.rem i 4 =? 0)%Z; apply Hweak, Hone; exact H.
  - destruct (Z.rem (i / 16) 3 =? 1)%Z.
    + destruct (Z.rem i 8 =? 0)%Z; [|apply Hweak, Hweak0, H].
      replace (i + 2)%Z with (i + 1 + 1)%Z by lia.
      apply (Hfix 3%Z (i + 1)%Z); [lia|].
      apply (Hfix 0%Z i); [lia | exact H].
    + unfold pushRandom at 1.
      eapply pushedInOrder_push; [exact Hb | | apply Hone; exact H | |]; simpl.
      * lia.
      * replace (i + 1 - 1)%Z with i by lia. rewrite Hnow. lra.
      * replace (i + 2 - 1)%Z with (i + 1)%Z by lia. rewrite Hnow, Hp1. lra.
Qed.

Lemma chartNotes_sorted rand bpm offset durationSeconds :
  0 < bpm -> StronglySorted timeLe (chartNotes rand bpm offset durationSeconds).
Proof.
  intro Hbpm.
  assert (Hbt : 0 <= 60 / bpm).
  { apply Qlt_le_weak. apply Qlt_shift_div_l; [exact Hbpm | lra]. }
  unfold chartNotes.
  destruct (chartLoop_invariant rand offset (60 / bpm)
              (Qceiling ((durationSeconds / 60) * bpm))
              (pushedInOrder offset (60 / bpm)))
    with (f := Z.to_nat (Qceiling ((durationSeconds / 60) * bpm)))
         (i := 4%Z) (st := mkGen [] 0 0)
    as (j & _ & [H _]); [ | lia | split; constructor | exact H].
  intros i st _ H. apply chartStep_pushedInOrder; assumption.
Qed.

(** X5. With a positive tempo the loop pushes the notes in order of time
    already: the final sort moves no note, and the note at position [k] of
    the chart has the id [note-k]. *)
Theorem generateChart_sort_is_identity rand bpm offset durationSeconds :
  0 < bpm ->
  generateChart rand bpm offset durationSeconds
    = chartNotes rand bpm offset durationSeconds /\
  map id (generateChart rand bpm offset durationSeconds)
    = map noteId (seq 0 (List.length (generateChart rand bpm offset durationSeconds))).
Proof.
  intro Hbpm.
  assert (E : generateChart rand bpm offset durationSeconds
              = chartNotes rand bpm offset durationSeconds).
  { unfold generateChart. apply sortBy_sorted_id, chartNotes_sorted, Hbpm. }
  split; [exact E|]. rewrite E. apply chartNotes_numbered.
Qed.

Lemma generateChart_sort_is_identity_witness :
  0 < 140 /\
  generateChart randAlt 140 0.1 20 = chartNotes randAlt 140 0.1 20.
Proof.
  split; [reflexivity|].
  exact (proj1 (generateChart_sort_is_identity randAlt 140 0.1 20 eq_refl)).
Defined.

(** ** The session handlers *)

Lemma multiplierFor_pos (c : Z) : (1 <= multiplierFor c)%Z.
Proof.
  unfold multiplierFor.
  destruct (c >? 30)%Z; [lia|]. destruct (c >? 20)%Z; [lia|].
  destruct (c >? 10)%Z; lia.
Qed.

(** What every state of a session satisfies. *)
Lemma session_invariant (s0 : SessionState) (cs : list Callback) :
  let s := dispatchAll (handleStartRequest true s0) cs in
  multiplier s = multiplierFor (combo s) /\
  (0 <= score s)%Z /\ (0 <= health s <= 100)%Z.
Proof.
  simpl.
  assert (H : forall cs s,
            (multiplier s = multiplierFor (combo s) /\
             (0 <= score s)%Z /\ (0 <= health s <= 100)%Z) ->
            let s' := dispatchAll s cs in
            multiplier s' = multiplierFor (combo s') /\
            (0 <= score s')%Z /\ (0 <= health s' <= 100)%Z).
  { clear. induction cs as [|c cs IH]; intros s H; [exact H|].
    apply IH. destruct H as (Hm & Hs & Hh).
    destruct c as [k g|k|]; simpl.
    - split; [reflexivity|]. split; [|lia].
      pose proof (multiplierFor_pos (combo s)). rewrite Hm.
      destruct g; nia.
    - unfold handleNoteMiss. destruct (negb (isNoFailMode s)).
      + destruct (health s - 15 <=? 0)%Z eqn:E; simpl.
        * repeat split; lia.
        * apply Z.leb_gt in E. repeat split; lia.
      + simpl. repeat split; lia.
    - repeat split; assumption || lia. }
  apply H. simpl. repeat split; lia.
Qed.

(** X6. Over a session the score never goes down: a hit raises it, by at
    least 100 points, and a miss or the end of the song leaves it as it is. *)
Theorem session_score_monotone (s0 : SessionState) (cs : list Callback)
    (c : Callback) :
  let s := dispatchAll (handleStartRequest true s0) cs in
  (score s <= score (dispatch s c))%Z /\
  (isHit c = true -> (score s + 100 <= score (dispatch s c))%Z) /\
  (isHit c = false -> score (dispatch s c) = score s).
Proof.
  intro s. destruct (session_invariant s0 cs) as (Hm & Hs & Hh). fold s in Hm, Hs, Hh.
  pose proof (multiplierFor_pos (combo s)) as Hp.
  destruct c as [k g|k|]; simpl.
  - rewrite Hm. destruct g; split; try nia; split; try nia; discriminate.
  - assert (E : score (handleNoteMiss (isNoFailMode s) s) = score s).
    { unfold handleNoteMiss. destruct (negb (isNoFailMode s)); [|reflexivity].
      destruct (health s - 15 <=? 0)%Z; reflexivity. }
    rewrite E. split; [lia|]. split; [discriminate | reflexivity].
  - split; [lia|]. split; [discriminate | reflexivity].
Qed.

Lemma session_score_monotone_witness :
  isHit (OnNoteHit 0 true) = true /\
  (score (dispatchAll (handleStartRequest true initialSession) [OnNoteMiss 3]) + 100
   <= score (dispatch (dispatchAll (handleStartRequest true initialSession)
                         [OnNoteMiss 3])
                      (OnNoteHit 0 true)))%Z.
Proof.
  split; [reflexivity|].
  exact (proj1 (proj2 (session_score_monotone initialSession [OnNoteMiss 3]
                         (OnNoteHit 0 true))) eq_refl).
Defined.

(** X7. In every state of a session the health is between 0 and 100. *)
Theorem session_health_bounded (s0 : SessionState) (cs : list Callback) :
  (0 <= health (dispatchAll (handleStartRequest true s0) cs) <= 100)%Z.
Proof. apply (session_invariant s0 cs). Qed.

Lemma dispatchAll_app (s : SessionState) (cs1 cs2 : list Callback) :
  dispatchAll s (cs1 ++ cs2) = dispatchAll (dispatchAll s cs1) cs2.
Proof. unfold dispatchAll. apply fold_left_app. Qed.


Lemma missCount_snoc (cs : list Callback) (c : Callback) :
  missCount (cs ++ [c]) =
  (missCount cs + match c with OnNoteMiss _ => 1 | _ => 0 end)%nat.
Proof.
  unfold missCount. rewrite filter_app, length_app.
  destruct c; reflexivity.
Qed.

(** X9. A session cannot be lost with fewer than seven misses: while fewer
    than seven notes have been missed, no defeat signal has been sent, and
    the health is at least 100 minus 15 for each miss. *)
Theorem defeat_needs_seven_misses (s0 : SessionState) (cs : list Callback) :
  (missCount cs < 7)%nat ->
  let start := handleStartRequest true s0 in
  defeatSignals (dispatchAll start cs) = defeatSignals start /\
  (100 - 15 * Z.of_nat (missCount cs) <= health (dispatchAll start cs))%Z.
Proof.
  intros Hlt start. revert Hlt.
  induction cs as [|c cs IH] using rev_ind; intro Hlt.
  - simpl. split; [reflexivity | lia].
  - rewrite missCount_snoc in *. rewrite dispatchAll_app.
    destruct IH as [Hd Hh]; [lia|]. cbn [dispatchAll fold_left].
    set (s := dispatchAll start cs) in *.
    destruct c as [k g|k|]; cbn [dispatch].
    + unfold handleNoteHit. cbn [defeatSignals health]. split; [exact Hd|].
      destruct (session_invariant s0 cs) as (_ & _ & Hb). fold start s in Hb. lia.
    + unfold handleNoteMiss. destruct (negb (isNoFailMode s)).
      * destruct (health s - 15 <=? 0)%Z eqn:E.
        -- apply Z.leb_le in E. lia.
        -- cbn [defeatSignals health]. split; [exact Hd | lia].
      * cbn [defeatSignals health]. split; [exact Hd | lia].
    + unfold endGame. cbn [defeatSignals health]. split; [exact Hd | lia].
Qed.

Lemma defeat_needs_seven_misses_witness :
  (missCount [OnNoteMiss 0; OnNoteHit 1 true; OnNoteMiss 2] < 7)%nat /\
  defeatSignals (dispatchAll (handleStartRequest true initialSession)
                   [OnNoteMiss 0; OnNoteHit 1 true; OnNoteMiss 2]) = 0%nat.
Proof.
  assert (H : (missCount [OnNoteMiss 0; OnNoteHit 1 true; OnNoteMiss 2] < 7)%nat).
  { vm_compute. lia. }
  split; [exact H|].
  exact (proj1 (defeat_needs_seven_misses initialSession
                  [OnNoteMiss 0; OnNoteHit 1 true; OnNoteMiss 2] H)).
Defined.

(** X10. In a session started with no-fail mode on, no sequence of hits and
    misses sends a defeat signal. *)
Theorem noFail_never_defeated (s0 : SessionState) (cs : list Callback) :
  isNoFailMode s0 = true ->
  let start := handleStartRequest true s0 in
  defeatSignals (dispatchAll start cs) = defeatSignals start /\
  isNoFailMode (dispatchAll start cs) = true.
Proof.
  intros Hn start.
  assert (H : forall cs s, isNoFailMode s = true ->
            defeatSignals (dispatchAll s cs) = defeatSignals s /\
            isNoFailMode (dispatchAll s cs) = true).
  { clear. induction cs as [|c cs IH]; intros s Hs; [split; [reflexivity|exact Hs]|].
    simpl.
    assert (Hc : defeatSignals (dispatch s c) = defeatSignals s /\
                 isNoFailMode (dispatch s c) = true).
    { destruct c as [k g|k|]; simpl; try (split; [reflexivity | exact Hs]).
      unfold handleNoteMiss. rewrite Hs. simpl. split; reflexivity. }
    destruct Hc as [Hd Hm]. destruct (IH _ Hm) as [Hd' Hm'].
    split; [congruence | exact Hm']. }
  apply H. exact Hn.
Qed.

Lemma noFail_never_defeated_witness :
  isNoFailMode (mkSession 0 0 1 100 0 true IDLE 0) = true /\
  defeatSignals (dispatchAll (handleStartRequest true (mkSession 0 0 1 100 0 true IDLE 0))
                   (map OnNoteMiss (seq 0 20))) = 0%nat.
Proof.
  split; [reflexivity|].
  exact (proj1 (noFail_never_defeated (mkSession 0 0 1 100 0 true IDLE 0)
                  (map OnNoteMiss (seq 0 20)) eq_refl)).
Defined.

(** X11. With no-fail mode off, once the health is 15 or less every miss
    sends a defeat signal: [n] misses in a row from health 100 send
    [n - 6] signals, not one. *)
Theorem every_late_miss_signals (s : SessionState) (ks : list nat) :
  health s = 100%Z -> isNoFailMode s = false ->
  defeatSignals (dispatchAll s (map OnNoteMiss ks))
  = (defeatSignals s + (List.length ks - 6))%nat.
Proof.
  intros Hh Hn.
  assert (H : forall ks s, isNoFailMode s = false -> (0 <= health s <= 100)%Z ->
            defeatSignals (dispatchAll s (map OnNoteMiss ks))
            = (defeatSignals s
               + (List.length ks - Z.to_nat ((health s - 1) / 15)))%nat).
  { clear. induction ks as [|k ks IH]; intros s Hn Hh.
    - simpl. lia.
    - change (dispatchAll s (map OnNoteMiss (k :: ks)))
        with (dispatchAll (handleNoteMiss (isNoFailMode s) s) (map OnNoteMiss ks)).
      remember (handleNoteMiss (isNoFailMode s) s) as s' eqn:Es.
      unfold handleNoteMiss in Es. rewrite Hn in Es. cbn [negb] in Es.
      cbn [List.length].
      destruct (health s - 15 <=? 0)%Z eqn:E; subst s'.
      + apply Z.leb_le in E. rewrite IH by (cbn; auto; lia).
        cbn [defeatSignals health].
        assert (E1 : ((health s - 1) / 15 = 0 \/ (health s - 1) / 15 = -1)%Z).
        { destruct (Z.eq_dec (health s) 0) as [->|Hne]; [right; reflexivity|].
          left. apply Z.div_small. lia. }
        replace ((0 - 1) / 15)%Z with (-1)%Z by reflexivity.
        destruct E1 as [-> | ->]; cbn [Z.to_nat]; lia.
      + apply Z.leb_gt in E. rewrite IH by (cbn; auto; lia).
        cbn [defeatSignals health].
        replace (health s - 15 - 1)%Z with (health s - 1 + (-1) * 15)%Z by lia.
        rewrite Z.div_add by lia.
        assert (1 <= (health s - 1) / 15)%Z.
        { apply Z.div_le_lower_bound; lia. }
        lia. }
  rewrite H by (auto; lia). rewrite Hh. reflexivity.
Qed.

Lemma every_late_miss_signals_witness :
  defeatSignals (dispatchAll (handleStartRequest true initialSession)
                   (map OnNoteMiss [0; 1; 2; 3; 4; 5; 6; 7; 8]%nat)) = 3%nat.
Proof.
  exact (every_late_miss_signals (handleStartRequest true initialSession)
           [0; 1; 2; 3; 4; 5; 6; 7; 8]%nat eq_refl eq_refl).
Defined.

Lemma switchSong_next (idx : Z) (len : nat) :
  (0 <= idx < Z.of_nat len)%Z ->
  switchSong Next idx len = (if (idx + 1 =? Z.of_nat len)%Z then 0 else idx + 1)%Z.
Proof.
  intro H. unfold switchSong.
  destruct (idx + 1 >=? Z.of_nat len)%Z eqn:E1;
    [apply Z.geb_le in E1 | rewrite Z.geb_leb in E1; apply Z.leb_gt in E1].
  - destruct (idx + 1 =? Z.of_nat len)%Z eqn:E2; [reflexivity|].
    apply Z.eqb_neq in E2. lia.
  - destruct (idx + 1 <? 0)%Z eqn:E3; [apply Z.ltb_lt in E3; lia|].
    destruct (idx + 1 =? Z.of_nat len)%Z eqn:E2; [|reflexivity].
    apply Z.eqb_eq in E2. lia.
Qed.

Lemma switchSong_prev (idx : Z) (len : nat) :
  (0 <= idx < Z.of_nat len)%Z ->
  switchSong Prev idx len = (if (idx =? 0)%Z then Z.of_nat len - 1 else idx - 1)%Z.
Proof.
  intro H. unfold switchSong.
  destruct (idx - 1 >=? Z.of_nat len)%Z eqn:E1;
    [apply Z.geb_le in E1; lia | ].
  destruct (idx - 1 <? 0)%Z eqn:E3;
    [apply Z.ltb_lt in E3 | apply Z.ltb_ge in E3];
    (destruct (idx =? 0)%Z eqn:E2;
     [apply Z.eqb_eq in E2 | apply Z.eqb_neq in E2]);
    try reflexivity; lia.
Qed.

(** X12. On a playlist, [switchSong] keeps the index inside the playlist,
    wraps around at both ends, and "next" and "prev" undo each other. *)
Theorem switchSong_wraps (idx : Z) (len : nat) :
  (0 <= idx < Z.of_nat len)%Z ->
  (forall d, (0 <= switchSong d idx len < Z.of_nat len)%Z) /\
  switchSong Next (Z.of_nat len - 1) len = 0%Z /\
  switchSong Prev 0 len = (Z.of_nat len - 1)%Z /\
  switchSong Prev (switchSong Next idx len) len = idx /\
  switchSong Next (switchSong Prev idx len) len = idx.
Proof.
  intro H.
  assert (Hn : (0 <= switchSong Next idx len < Z.of_nat len)%Z).
  { rewrite switchSong_next by exact H.
    destruct (idx + 1 =? Z.of_nat len)%Z eqn:E;
      [apply Z.eqb_eq in E | apply Z.eqb_neq in E]; lia. }
  assert (Hp : (0 <= switchSong Prev idx len < Z.of_nat len)%Z).
  { rewrite switchSong_prev by exact H.
    destruct (idx =? 0)%Z eqn:E;
      [apply Z.eqb_eq in E | apply Z.eqb_neq in E]; lia. }
  split; [intros []; assumption|].
  split; [rewrite switchSong_next by lia;
          replace (Z.of_nat len - 1 + 1)%Z with (Z.of_nat len) by lia;
          rewrite Z.eqb_refl; reflexivity|].
  split; [rewrite switchSong_prev by lia; reflexivity|].
  split.
  - rewrite switchSong_prev by exact Hn. rewrite switchSong_next by exact H.
    destruct (idx + 1 =? Z.of_nat len)%Z eqn:E;
      [apply Z.eqb_eq in E | apply Z.eqb_neq in E].
    + simpl. lia.
    + destruct (idx + 1 =? 0)%Z eqn:E2;
        [apply Z.eqb_eq in E2 | apply Z.eqb_neq in E2]; lia.
  - rewrite switchSong_next by exact Hp. rewrite switchSong_prev by exact H.
    destruct (idx =? 0)%Z eqn:E;
      [apply Z.eqb_eq in E | apply Z.eqb_neq in E].
    + replace (Z.of_nat len - 1 + 1)%Z with (Z.of_nat len) by lia.
      rewrite Z.eqb_refl. lia.
    + destruct (idx - 1 + 1 =? Z.of_nat len)%Z eqn:E2;
        [apply Z.eqb_eq in E2 | apply Z.eqb_neq in E2]; lia.
Qed.

Lemma switchSong_wraps_witness :
  (0 <= 2 < Z.of_nat 3)%Z /\ switchSong Next 2 3 = 0%Z.
Proof.
  assert (H : (0 <= 2 < Z.of_nat 3)%Z) by (simpl; lia).
  split; [exact H|].
  exact (proj1 (proj2 (switchSong_wraps 2 3 H))).
Defined.

(** X13. After a start request with the camera ready, the countdown effect
    counts 4, 3, 2, 1, 0 while the status stays [COUNTDOWN]; its fifth
    firing starts the game, which is then [PLAYING], or [IDLE] again when
    the audio cannot be played, with the score, combo and health of a new
    session; further firings change nothing. *)
Theorem countdown_then_play (s0 : SessionState) (playSucceeds : bool) :
  let start := handleStartRequest true s0 in
  let after n := Nat.iter n (countdownEffect playSucceeds) start in
  (forall n, (n <= 4)%nat ->
             gameStatus (after n) = COUNTDOWN /\
             countdown (after n) = (4 - Z.of_nat n)%Z) /\
  (forall n, (5 <= n)%nat ->
             gameStatus (after n) = (if playSucceeds then PLAYING else IDLE) /\
             (score (after n), combo (after n), multiplier (after n),
              health (after n)) = (0, 0, 1, 100)%Z).
Proof.
  intros start after.
  assert (Hstep : forall n, after (S n) = countdownEffect playSucceeds (after n))
    by reflexivity.
  assert (H4 : forall n, (n <= 4)%nat ->
             gameStatus (after n) = COUNTDOWN /\
             countdown (after n) = (4 - Z.of_nat n)%Z /\
             (score (after n), combo (after n), multiplier (after n),
              health (after n)) = (0, 0, 1, 100)%Z).
  { induction n as [|n IH]; intro Hn.
    - repeat split.
    - destruct IH as (Hs & Hc & Hv); [lia|].
      rewrite Hstep. remember (after n) as s eqn:Es. clear Es.
      unfold countdownEffect. rewrite Hs, Hc.
      destruct (4 - Z.of_nat n >? 0)%Z eqn:E; [|rewrite Z.gtb_ltb in E; apply Z.ltb_ge in E; lia].
      cbn [gameStatus countdown score combo multiplier health].
      inversion Hv. repeat split; try assumption; lia. }
  split; [intros n Hn; destruct (H4 n Hn) as (A & B & _); auto|].
  assert (H5 : forall m : nat,
             gameStatus (after (5 + m)%nat) =
             (if playSucceeds then PLAYING else IDLE) /\
             (score (after (5 + m)%nat), combo (after (5 + m)%nat),
              multiplier (after (5 + m)%nat), health (after (5 + m)%nat))
             = (0, 0, 1, 100)%Z).
  { induction m as [|m IH].
    - destruct (H4 4%nat (le_n 4)) as (Hs & Hc & Hv).
      change (5 + 0)%nat with 5%nat. rewrite Hstep.
      remember (after 4%nat) as s eqn:Es. clear Es.
      unfold countdownEffect. rewrite Hs, Hc.
      cbn. inversion Hv. auto.
    - destruct IH as [Hs Hv]. replace (5 + S m)%nat with (S (5 + m)) by lia.
      rewrite Hstep. remember (after (5 + m)%nat) as s eqn:Es. clear Es.
      unfold countdownEffect. rewrite Hs.
      destruct playSucceeds; split; assumption. }
  intros n Hn. replace n with (5 + (n - 5))%nat by lia. apply H5.
Qed.

Lemma countdown_then_play_witness :
  (2 <= 4)%nat /\
  gameStatus (Nat.iter 2 (countdownEffect true) (handleStartRequest true initialSession))
  = COUNTDOWN.
Proof.
  assert (H : (2 <= 4)%nat) by lia.
  split; [exact H|].
  exact (proj1 (proj1 (countdown_then_play initialSession true) 2%nat H)).
Defined.

(** ** The frame *)

Lemma pastMissPlane_late (t : Q) (note : NoteData) :
  pastMissPlane t note = true <-> time note + 0.5 < t.
Proof.
  unfold pastMissPlane. rewrite Qltb_true.
  unfold currentZ, MISS_Z, PLAYER_Z, NOTE_SPEED. split; intro; lra.
Qed.

Lemma nearPlayer_window (t : Q) (note : NoteData) :
  nearPlayer t note = true <-> time note - 0.15 < t /\ t < time note + 0.1.
Proof.
  unfold nearPlayer. rewrite andb_true_iff, !Qltb_true.
  unfold currentZ, PLAYER_Z, NOTE_SPEED. split; intros [H1 H2]; split; lra.
Qed.

Lemma evalNote_Missed (t : Q) (hands : Hands.HandPositions) (note : NoteData) :
  snd (evalNote t hands note) = Missed ->
  hit note = false /\ missed note = false /\ pastMissPlane t note = true.
Proof.
  unfold evalNote. destruct (hit note), (missed note); simpl; try discriminate.
  destruct (pastMissPlane t note); [auto|].
  destruct (nearPlayer t note); [|discriminate].
  destruct (collision t hands note); discriminate.
Qed.

Lemma evalNote_Cut (t : Q) (hands : Hands.HandPositions) (note : NoteData) (g : bool) :
  snd (evalNote t hands note) = Cut g ->
  hit note = false /\ missed note = false /\ pastMissPlane t note = false /\
  nearPlayer t note = true /\ collision t hands note = Some g.
Proof.
  unfold evalNote. destruct (hit note), (missed note); simpl; try discriminate.
  destruct (pastMissPlane t note); [discriminate|].
  destruct (nearPlayer t note); [|discriminate].
  destruct (collision t hands note); [|discriminate].
  intro H. inversion H. auto.
Qed.

Lemma collision_hand (t : Q) (hands : Hands.HandPositions) (note : NoteData) (g : bool) :
  collision t hands note = Some g ->
  exists p, handFor hands note = Some p /\
            g = goodCutOf note (match type note with
                                | LeftHand => Hands.leftVelocity hands
                                | RightHand => Hands.rightVelocity hands
                                end).
Proof.
  unfold collision, handFor.
  destruct (match type note with
            | LeftHand => Hands.left hands
            | RightHand => Hands.right hands
            end) as [p|]; [|discriminate].
  destruct (lookupQ LANE_X_POSITIONS (lineIndex note)); [|discriminate].
  destruct (lookupQ LAYER_Y_POSITIONS (lineLayer note)); [|discriminate].
  destruct (distanceBelow _ _ _); [|discriminate].
  intro H. inversion H. exists p. auto.
Qed.

Lemma collideNote_active_sub (t : Q) (hands : Hands.HandPositions) (i : nat)
    (st : SceneState * list Callback) (k : nat) :
  In k (activeNotes (fst (collideNote t hands i st))) -> In k (activeNotes (fst st)).
Proof.
  destruct st as [s out]. unfold collideNote.
  destruct (nth_error (activeNotes s) i) as [ref|]; [|auto].
  destruct (nth_error (notesState s) ref) as [note|]; [|auto].
  destruct (snd (evalNote t hands note)); simpl; auto; apply splice1_sub.
Qed.

Lemma collideLoop_active_sub (t : Q) (hands : Hands.HandPositions) (k : nat) :
  forall (n : nat) (st : SceneState * list Callback),
    In k (activeNotes (fst (collideLoop n t hands st))) -> In k (activeNotes (fst st)).
Proof.
  induction n as [|n IH]; intros st H; simpl in H; [exact H|].
  apply IH in H. exact (collideNote_active_sub t hands n st k H).
Qed.

Lemma collideNote_justified (t : Q) (hands : Hands.HandPositions) (i : nat)
    (st : SceneState * list Callback) (c : Callback) :
  In c (snd (collideNote t hands i st)) ->
  In c (snd st) \/ justified t hands (fst st) c.
Proof.
  destruct st as [s out]. unfold collideNote.
  destruct (nth_error (activeNotes s) i) as [ref|] eqn:Ei; [|auto].
  destruct (nth_error (notesState s) ref) as [note|] eqn:Er; [|auto].
  destruct (snd (evalNote t hands note)) as [| |g|] eqn:Ev; simpl; auto;
    intro H; apply in_app_or in H; destruct H as [H|[H|[]]]; auto;
    right; exists ref, note; (split; [eapply nth_error_In; exact Ei|]);
    (split; [exact Er|]); subst c.
  - left. auto.
  - right. exists g. auto.
Qed.

Lemma justified_back (t : Q) (hands : Hands.HandPositions) (s s1 : SceneState)
    (new : list Callback) (c : Callback) :
  Evolves s s1 new ->
  (forall k, In k (activeNotes s1) -> In k (activeNotes s)) ->
  justified t hands s1 c -> justified t hands s c.
Proof.
  intros [Hn _] Hsub (ref & note1 & Hin & Hnth & Hv).
  assert (Hun : hit note1 = false /\ missed note1 = false).
  { apply (evalNote_unresolved t hands).
    destruct Hv as [[_ Hv]|(g & _ & Hv)]; [left; exact Hv | right; exists g; exact Hv]. }
  specialize (Hn ref).
  destruct (nth_error (notesState s) ref) as [n|] eqn:E.
  - destruct Hn as (n' & E' & St). rewrite Hnth in E'. inversion E'; subst n'.
    assert (n = note1).
    { destruct Hun as [Hh Hm].
      destruct St as [[-> _]|(_ & _ & [[-> _]|(t' & g' & -> & _)])];
        [reflexivity | simpl in Hm; discriminate | simpl in Hh; discriminate]. }
    subst n. exists ref, note1. auto.
  - destruct Hn as [E' _]. congruence.
Qed.

Lemma collideLoop_justified (t : Q) (hands : Hands.HandPositions) (c : Callback) :
  forall (n : nat) (st : SceneState * list Callback),
    In c (snd (collideLoop n t hands st)) ->
    In c (snd st) \/ justified t hands (fst st) c.
Proof.
  induction n as [|n IH]; intros st H; simpl in H; [left; exact H|].
  destruct (IH _ H) as [H1|H1].
  - exact (collideNote_justified t hands n st c H1).
  - right. destruct (collideNote_evolves t hands n st) as (new & _ & Hev).
    eapply justified_back; [exact Hev | | exact H1].
    intro k. apply (collideNote_active_sub t hands n st k).
Qed.

(** Where the callbacks of a frame come from. *)
Lemma runFrame_justified (f : Frame) (s : SceneState) (c : Callback) :
  In c (snd (runFrame f s)) ->
  exists a, frameStatus f = PLAYING /\ frameAudio f = Some a /\
            ((ended a = true /\ c = OnSongEnd) \/
             (ended a = false /\
              justified (currentTime a) (frameHands f)
                        (spawnNotes (currentTime a) s) c)).
Proof.
  unfold runFrame, useFrame.
  destruct (frameStatus f); try (intros []).
  destruct (frameAudio f) as [a|]; [|intros []].
  intro H. exists a. split; [reflexivity|]. split; [reflexivity|].
  destruct (ended a).
  - left. destruct H as [H|[]]. auto.
  - right. split; [reflexivity|].
    apply collideLoop_justified in H. destruct H as [[]|H]. exact H.
Qed.

(** X14. Every callback of a frame has its reason in the scene before the
    frame: [onNoteMiss] is called only for a note, neither hit nor missed,
    that is more than 0.5 seconds late, and [onNoteHit] only for such a note
    that is between 0.15 seconds early and 0.1 seconds late and whose hand
    is detected, with the cut quality that the velocity of that hand gives. *)
Theorem frame_callbacks_justified (f : Frame) (s : SceneState) (c : Callback) :
  In c (snd (runFrame f s)) ->
  exists a, frameStatus f = PLAYING /\ frameAudio f = Some a /\
    match c with
    | OnSongEnd => ended a = true
    | OnNoteMiss ref =>
        exists note, nth_error (notesState s) ref = Some note /\
                     hit note = false /\ missed note = false /\
                     time note + 0.5 < currentTime a
    | OnNoteHit ref g =>
        exists note p, nth_error (notesState s) ref = Some note /\
                       hit note = false /\ missed note = false /\
                       time note - 0.15 < currentTime a /\
                       currentTime a < time note + 0.1 /\
                       handFor (frameHands f) note = Some p /\
                       collision (currentTime a) (frameHands f) note = Some g
    end.
Proof.
  intro H. destruct (runFrame_justified f s c H) as (a & Hs & Ha & Hc).
  exists a. split; [exact Hs|]. split; [exact Ha|].
  destruct Hc as [[He ->]|[He (ref & note & _ & Hn & Hv)]]; [exact He|].
  rewrite spawnNotes_spec in Hn. simpl in Hn.
  destruct Hv as [[-> Hv]|(g & -> & Hv)].
  - apply evalNote_Missed in Hv. destruct Hv as (Hh & Hm & Hp).
    exists note. apply pastMissPlane_late in Hp. auto.
  - apply evalNote_Cut in Hv. destruct Hv as (Hh & Hm & _ & Hw & Hc).
    apply nearPlayer_window in Hw. destruct Hw as [H1 H2].
    destruct (collision_hand _ _ _ _ Hc) as (p & Hp & _).
    exists note, p. auto 10.
Qed.

Lemma frame_callbacks_justified_witness :
  In (OnNoteHit 0 true) (snd (runFrame frameAtTen (initScene [noteAtTen]))) /\
  exists a, frameStatus frameAtTen = PLAYING /\ frameAudio frameAtTen = Some a /\
    exists note p, nth_error (notesState (initScene [noteAtTen])) 0 = Some note /\
                   hit note = false /\ missed note = false /\
                   time note - 0.15 < currentTime a /\
                   currentTime a < time note + 0.1 /\
                   handFor (frameHands frameAtTen) note = Some p /\
                   collision (currentTime a) (frameHands frameAtTen) note = Some true.
Proof.
  assert (H : In (OnNoteHit 0 true)
                 (snd (runFrame frameAtTen (initScene [noteAtTen])))).
  { vm_compute. left. reflexivity. }
  split; [exact H|].
  exact (frame_callbacks_justified frameAtTen (initScene [noteAtTen])
           (OnNoteHit 0 true) H).
Defined.

(** X15. A frame in which no hand is detected hits no note. *)
Theorem no_hands_no_hit (f : Frame) (s : SceneState) (ref : nat) (g : bool) :
  Hands.left (frameHands f) = None -> Hands.right (frameHands f) = None ->
  ~ In (OnNoteHit ref g) (snd (runFrame f s)).
Proof.
  intros Hl Hr H.
  destruct (runFrame_justified f s _ H) as (a & _ & _ & [[_ Hc]|[_ Hj]]);
    [discriminate|].
  destruct Hj as (r & note & _ & _ & [[Hc _]|(g' & _ & Hv)]); [discriminate|].
  apply evalNote_Cut in Hv. destruct Hv as (_ & _ & _ & _ & Hc).
  destruct (collision_hand _ _ _ _ Hc) as (p & Hp & _).
  unfold handFor in Hp. destruct (type note); congruence.
Qed.

Lemma no_hands_no_hit_witness :
  ~ In (OnNoteHit 0 true)
       (snd (runFrame (playFrame 10 (Hands.mk None None (mkVec 0 2 0) (mkVec 0 2 0)))
                      (initScene [noteAtTen]))).
Proof.
  exact (no_hands_no_hit
           (playFrame 10 (Hands.mk None None (mkVec 0 2 0) (mkVec 0 2 0)))
           (initScene [noteAtTen]) 0 true eq_refl eq_refl).
Defined.

Lemma nth_error_splice1 {A : Type} (l : list A) :
  forall (i j : nat),
    nth_error (splice1 i l) j =
    if (j <? i)%nat then nth_error l j else nth_error l (S j).
Proof.
  unfold splice1. induction l as [|a l IH]; intros i j.
  - rewrite firstn_nil, skipn_nil. simpl.
    destruct (j <? i)%nat; destruct j; reflexivity.
  - destruct i as [|i]; [reflexivity|].
    destruct j as [|j]; [reflexivity|].
    change (nth_error (firstn i l ++ skipn (S i) l) j =
            if (j <? i)%nat then nth_error l j else nth_error l (S j)).
    apply IH.
Qed.

Lemma evalNote_resolved (t : Q) (hands : Hands.HandPositions) (note : NoteData) :
  hit note || missed note = true -> snd (evalNote t hands note) = Skipped.
Proof. intro H. unfold evalNote. rewrite H. reflexivity. Qed.

Lemma collideNote_settled (t : Q) (hands : Hands.HandPositions) (i : nat)
    (st : SceneState * list Callback) :
  settledFrom t hands (S i) (fst st) ->
  settledFrom t hands i (fst (collideNote t hands i st)).
Proof.
  destruct st as [s out]. simpl. intro H. unfold collideNote.
  assert (Hsame : forall v,
            (forall ref note, nth_error (activeNotes s) i = Some ref ->
                              nth_error (notesState s) ref = Some note ->
                              snd (evalNote t hands note) = v) ->
            v = Skipped \/ v = Kept ->
            settledFrom t hands i s).
  { intros v Hv Hk j ref note Hj Ha Hn.
    destruct (Nat.eq_dec j i) as [->|Hne].
    - rewrite (Hv ref note Ha Hn). exact Hk.
    - apply (H j ref note); [lia | exact Ha | exact Hn]. }
  destruct (nth_error (activeNotes s) i) as [ref|] eqn:Ei;
    [|apply (Hsame Skipped); [intros; discriminate | auto]].
  destruct (nth_error (notesState s) ref) as [note|] eqn:Er;
    [|apply (Hsame Skipped); [intros r n Hr Hn; inversion Hr; subst; congruence | auto]].
  assert (Hmut : forall f,
            (forall n, hit (f n) || missed (f n) = true) ->
            settledFrom t hands i
              (mkScene (updateAt ref f (notesState s)) (splice1 i (activeNotes s))
                       (nextNoteIndex s))).
  { intros f Hf j r n Hj Ha Hn. simpl in Ha, Hn.
    rewrite nth_error_splice1 in Ha.
    assert (E : (j <? i)%nat = false) by (apply Nat.ltb_ge; exact Hj).
    rewrite E in Ha. rewrite nth_error_updateAt in Hn.
    destruct (Nat.eqb r ref).
    - destruct (nth_error (notesState s) r) as [n0|]; [|discriminate].
      inversion Hn; subst n. left. apply evalNote_resolved, Hf.
    - apply (H (S j) r n); [lia | exact Ha | exact Hn]. }
  destruct (snd (evalNote t hands note)) as [| |g|] eqn:Ev; simpl.
  - apply (Hsame Skipped); [|auto].
    intros r n Hr Hn. inversion Hr; subst. congruence.
  - apply Hmut. intro n. simpl. apply orb_true_r.
  - apply Hmut. intro n. reflexivity.
  - apply (Hsame Kept); [|auto].
    intros r n Hr Hn. inversion Hr; subst. congruence.
Qed.

Lemma collideLoop_settled (t : Q) (hands : Hands.HandPositions) :
  forall (n : nat) (st : SceneState * list Callback),
    settledFrom t hands n (fst st) ->
    settledFrom t hands 0 (fst (collideLoop n t hands st)).
Proof.
  induction n as [|n IH]; intros st H; simpl; [exact H|].
  apply IH, collideNote_settled, H.
Qed.

Lemma playFrame_settled (t : Q) (hands : Hands.HandPositions) (s : SceneState) :
  settledFrom t hands 0 (fst (runFrame (playFrame t hands) s)).
Proof.
  unfold runFrame, playFrame, useFrame. simpl.
  apply collideLoop_settled. simpl.
  intros j ref note Hj Ha _.
  assert (Hnone : nth_error (activeNotes (spawnNotes t s)) j = None)
    by (apply nth_error_None; exact Hj).
  congruence.
Qed.

(** X16. The loop over the active notes, which removes entries while it
    runs backwards, passes over none of them: after a frame at time [t]
    every note that is still active and neither hit nor missed is at most
    0.5 seconds late, and if it is inside the hit window the hand for it
    does not touch it. *)
Theorem frame_settles_every_active_note (t : Q) (hands : Hands.HandPositions)
    (s : SceneState) (ref : nat) (note : NoteData) :
  let s' := fst (runFrame (playFrame t hands) s) in
  In ref (activeNotes s') ->
  nth_error (notesState s') ref = Some note ->
  hit note = false -> missed note = false ->
  t <= time note + 0.5 /\
  (nearPlayer t note = true -> collision t hands note = None).
Proof.
  intros s' Hin Hn Hh Hm.
  destruct (In_nth_error _ _ Hin) as [j Hj].
  pose proof (playFrame_settled t hands s j ref note (Nat.le_0_l j) Hj Hn) as Hv.
  unfold evalNote in Hv. rewrite Hh, Hm in Hv. simpl in Hv.
  destruct (pastMissPlane t note) eqn:Ep.
  - destruct Hv; discriminate.
  - split.
    + apply Qnot_lt_le. intro Hlt. apply pastMissPlane_late in Hlt. congruence.
    + intro Hw. rewrite Hw in Hv.
      destruct (collision t hands note); [destruct Hv; discriminate | reflexivity].
Qed.

Lemma frame_settles_every_active_note_witness :
  let s' := fst (runFrame (playFrame 9 handOnTarget) (initScene [noteAtTen])) in
  In 0%nat (activeNotes s') /\
  nth_error (notesState s') 0 = Some noteAtTen /\
  9 <= time noteAtTen + 0.5.
Proof.
  assert (H1 : In 0%nat (activeNotes
                 (fst (runFrame (playFrame 9 handOnTarget) (initScene [noteAtTen])))))
    by (vm_compute; left; reflexivity).
  assert (H2 : nth_error (notesState
                 (fst (runFrame (playFrame 9 handOnTarget) (initScene [noteAtTen])))) 0
               = Some noteAtTen) by (vm_compute; reflexivity).
  split; [exact H1|]. split; [exact H2|].
  exact (proj1 (frame_settles_every_active_note 9 handOnTarget (initScene [noteAtTen])
                  0 noteAtTen H1 H2 eq_refl eq_refl)).
Defined.

Lemma length_updateAt {A : Type} (f : A -> A) (l : list A) :
  forall k, List.length (updateAt k f l) = List.length l.
Proof.
  induction l as [|a l IH]; intros [|k]; simpl; try reflexivity.
  rewrite IH. reflexivity.
Qed.

Lemma splice1_NoDup (l : list nat) (i ref : nat) :
  nth_error l i = Some ref -> NoDup l ->
  NoDup (splice1 i l) /\
  forall k, In k (splice1 i l) <-> In k l /\ k <> ref.
Proof.
  intros Hi Hnd.
  destruct (nth_error_split l i Hi) as (l1 & l2 & Hl & Hlen).
  subst l i. rewrite splice1_split.
  pose proof (NoDup_remove_1 _ _ _ Hnd) as H1.
  pose proof (NoDup_remove_2 _ _ _ Hnd) as H2.
  split; [exact H1|].
  intro k. rewrite !in_app_iff. simpl. split.
  - intro H. split; [tauto|].
    intros ->. apply H2. apply in_or_app. exact H.
  - intros [[H|[H|H]] Hne]; [left; exact H | congruence | right; exact H].
Qed.

Lemma spawnNotes_exact (t : Q) (s : SceneState) :
  BeforeCursor s -> activeExact s -> activeExact (spawnNotes t s).
Proof.
  intros [Hbc Hflag] (Hnd & Hlen & Hiff). rewrite spawnNotes_spec.
  set (idx := nextNoteIndex s) in *.
  set (m := duePrefix t (skipn idx (notesState s))).
  assert (Hm : (idx + m <= List.length (notesState s))%nat).
  { pose proof (duePrefix_le t (skipn idx (notesState s))) as H.
    fold m in H. rewrite length_skipn in H. lia. }
  split; [|split]; simpl.
  - apply NoDup_app; [exact Hnd | apply seq_NoDup |].
    intros k Hk Hs. apply in_seq in Hs. apply Hbc in Hk. fold idx in Hk. lia.
  - exact Hm.
  - intro k. split.
    + intro H. apply in_app_or in H. destruct H as [H|H].
      * apply Hiff in H. destruct H as [Hk Hn]. split; [lia | exact Hn].
      * apply in_seq in H. split; [lia|].
        destruct (nth_error (notesState s) k) as [n|] eqn:E;
          [|apply nth_error_None in E; lia].
        exists n. split; [reflexivity|].
        destruct (hit n || missed n) eqn:Ef.
        -- specialize (Hflag k n E Ef). fold idx in Hflag. lia.
        -- apply orb_false_elim in Ef. exact Ef.
    + intros [Hk Hn]. apply in_or_app.
      destruct (Nat.lt_ge_cases k idx) as [Hlt|Hge].
      * left. apply Hiff. split; [exact Hlt | exact Hn].
      * right. apply in_seq. lia.
Qed.

Lemma collideNote_exact (t : Q) (hands : Hands.HandPositions) (i : nat)
    (st : SceneState * list Callback) :
  activeExact (fst st) -> activeExact (fst (collideNote t hands i st)).
Proof.
  destruct st as [s out]. simpl. intros Hex.
  pose proof Hex as (Hnd & Hlen & Hiff). unfold collideNote.
  destruct (nth_error (activeNotes s) i) as [ref|] eqn:Ei; [|exact Hex].
  destruct (nth_error (notesState s) ref) as [note|] eqn:Er; [|exact Hex].
  assert (Hmut : forall f,
            hit (f note) || missed (f note) = true ->
            activeExact
              (mkScene (updateAt ref f (notesState s)) (splice1 i (activeNotes s))
                       (nextNoteIndex s))).
  { intros f Hf. destruct (splice1_NoDup _ _ _ Ei Hnd) as [Hnd' Hin'].
    split; [exact Hnd'|]. split; [simpl; rewrite length_updateAt; exact Hlen|].
    intro k. simpl. rewrite Hin', Hiff, nth_error_updateAt. split.
    - intros [[Hk (n & Hn & Hh & Hm)] Hne]. split; [exact Hk|].
      exists n. apply Nat.eqb_neq in Hne. rewrite Hne. auto.
    - intros [Hk (n & Hn & Hh & Hm)].
      destruct (Nat.eqb k ref) eqn:E.
      + apply Nat.eqb_eq in E. subst k. rewrite Er in Hn. inversion Hn; subst n.
        rewrite Hh, Hm in Hf. discriminate.
      + apply Nat.eqb_neq in E. split; [|exact E]. split; [exact Hk|].
        exists n. auto. }
  destruct (snd (evalNote t hands note)); simpl.
  - exact Hex.
  - apply Hmut. simpl. apply orb_true_r.
  - apply Hmut. reflexivity.
  - exact Hex.
Qed.

Lemma collideLoop_exact (t : Q) (hands : Hands.HandPositions) :
  forall (n : nat) (st : SceneState * list Callback),
    activeExact (fst st) -> activeExact (fst (collideLoop n t hands st)).
Proof.
  induction n as [|n IH]; intros st H; simpl; [exact H|].
  apply IH, collideNote_exact, H.
Qed.

Lemma runFrame_exact (f : Frame) (s : SceneState) :
  BeforeCursor s -> activeExact s -> activeExact (fst (runFrame f s)).
Proof.
  intros Hb H. unfold runFrame, useFrame.
  destruct (frameStatus f); try exact H.
  destruct (frameAudio f) as [a|]; [|exact H].
  destruct (ended a); [exact H|].
  apply collideLoop_exact. simpl. apply spawnNotes_exact; assumption.
Qed.

Lemma runFrames_exact (fs : list Frame) :
  forall s : SceneState,
    BeforeCursor s -> activeExact s ->
    BeforeCursor (fst (runFrames fs s)) /\ activeExact (fst (runFrames fs s)).
Proof.
  induction fs as [|f fs IH]; intros s Hb H; [split; assumption|].
  rewrite runFrames_cons. simpl.
  apply IH; [apply runFrame_cursor, Hb | apply runFrame_exact; assumption].
Qed.

Lemma initScene_exact (chart : list NoteData) : activeExact (initScene chart).
Proof.
  split; [constructor|]. split; [simpl; lia|].
  intro k. simpl. split; [intros [] | intros [H _]; lia].
Qed.

Lemma Evolves_length (s s' : SceneState) (out : list Callback) :
  Evolves s s' out -> List.length (notesState s') = List.length (notesState s).
Proof.
  intros [Hn _].
  destruct (Nat.lt_trichotomy (List.length (notesState s'))
                              (List.length (notesState s))) as [Hlt|[Heq|Hgt]];
    [|exact Heq|].
  - specialize (Hn (List.length (notesState s'))).
    destruct (nth_error (notesState s) (List.length (notesState s'))) eqn:E.
    + destruct Hn as (n' & E' & _).
      assert (nth_error (notesState s') (List.length (notesState s')) = None)
        by (apply nth_error_None; lia).
      congruence.
    + apply nth_error_None in E. lia.
  - specialize (Hn (List.length (notesState s))).
    destruct (nth_error (notesState s) (List.length (notesState s))) eqn:E.
    + assert (nth_error (notesState s) (List.length (notesState s)) = None)
        by (apply nth_error_None; lia).
      congruence.
    + destruct Hn as [E' _]. apply nth_error_None in E'. lia.
Qed.

(** X17. In every run of frames on a fresh chart, the active notes hold
    each reference once, and are exactly the notes before the cursor that
    are neither hit nor missed; the cursor is inside the chart, whose length
    does not change. *)
Theorem active_notes_exact (chart : list NoteData) (fs : list Frame) :
  freshChart chart ->
  let s := fst (runFrames fs (initScene chart)) in
  NoDup (activeNotes s) /\
  List.length (notesState s) = List.length chart /\
  (nextNoteIndex s <= List.length chart)%nat /\
  forall k, In k (activeNotes s) <->
            (k < nextNoteIndex s)%nat /\
            exists n, nth_error (notesState s) k = Some n /\
                      hit n = false /\ missed n = false.
Proof.
  intros Hfresh s.
  destruct (runFrames_exact fs (initScene chart)
              (initScene_cursor chart Hfresh) (initScene_exact chart))
    as [_ (Hnd & Hlen & Hiff)].
  pose proof (Evolves_length _ _ _ (runFrames_evolves fs (initScene chart))) as HL.
  simpl in HL. fold s in Hnd, Hlen, Hiff, HL.
  split; [exact Hnd|]. split; [exact HL|]. split; [lia | exact Hiff].
Qed.

Lemma active_notes_exact_witness :
  freshChart chart120 /\
  NoDup (activeNotes (fst (runFrames [playFrame 1 handOnTarget; playFrame 2 handOnTarget]
                             (initScene chart120)))).
Proof.
  assert (H : freshChart chart120) by apply generateChart_fresh.
  split; [exact H|].
  exact (proj1 (active_notes_exact chart120
                  [playFrame 1 handOnTarget; playFrame 2 handOnTarget] H)).
Defined.

Lemma noteStep_time (k : nat) (n n' : NoteData) (cbs : list Callback) :
  noteStep k n n' cbs -> time n' = time n.
Proof.
  intros [[-> _]|(_ & _ & [[-> _]|(t & g & -> & _)])]; reflexivity.
Qed.

Lemma Evolves_dueAll (t : Q) (s s' : SceneState) (out : list Callback) :
  Evolves s s' out ->
  (forall k, In k (activeNotes s') -> In k (activeNotes s)) ->
  dueAll t s -> dueAll t s'.
Proof.
  intros [Hn _] Hsub Hdue ref note' Hin Hnth.
  specialize (Hn ref).
  destruct (nth_error (notesState s) ref) as [n|] eqn:E.
  - destruct Hn as (n' & E' & St). rewrite Hnth in E'. inversion E'; subst n'.
    rewrite (noteStep_time _ _ _ _ St). apply (Hdue ref n); [apply Hsub, Hin | exact E].
  - destruct Hn as [E' _]. congruence.
Qed.

Lemma spawnNotes_dueAll (t t' : Q) (s : SceneState) :
  t' <= t -> dueAll t s -> dueAll t (spawnNotes t' s).
Proof.
  intros Hle Hdue ref note Hin Hnth. rewrite spawnNotes_spec in Hin, Hnth.
  simpl in Hin, Hnth. apply in_app_or in Hin. destruct Hin as [Hin|Hin].
  - apply (Hdue ref note Hin Hnth).
  - apply in_seq in Hin.
    assert (Hd : dueBy t' note = true).
    { apply (duePrefix_due t' (skipn (nextNoteIndex s) (notesState s))
               (ref - nextNoteIndex s)); [lia|].
      rewrite nth_error_skipn.
      replace (nextNoteIndex s + (ref - nextNoteIndex s))%nat with ref by lia.
      exact Hnth. }
    apply Qleb_true in Hd. lra.
Qed.

Lemma runFrame_dueAll (t : Q) (f : Frame) (s : SceneState) :
  (forall a, frameAudio f = Some a -> currentTime a <= t) ->
  dueAll t s -> dueAll t (fst (runFrame f s)).
Proof.
  intros Hle Hdue. unfold runFrame, useFrame.
  destruct (frameStatus f); try exact Hdue.
  destruct (frameAudio f) as [a|]; [|exact Hdue].
  destruct (ended a); [exact Hdue|].
  destruct (collideLoop_evolves (currentTime a) (frameHands f)
              (List.length (activeNotes (spawnNotes (currentTime a) s)))
              (spawnNotes (currentTime a) s, [])) as (new & _ & Hev).
  eapply Evolves_dueAll; [exact Hev | |].
  - intro k. apply collideLoop_active_sub.
  - simpl. apply spawnNotes_dueAll; [apply Hle; reflexivity | exact Hdue].
Qed.

Lemma runFrames_dueAll (t : Q) (fs : list Frame) :
  forall s : SceneState,
    (forall f a, In f fs -> frameAudio f = Some a -> currentTime a <= t) ->
    dueAll t s -> dueAll t (fst (runFrames fs s)).
Proof.
  induction fs as [|f fs IH]; intros s Hle Hdue; [exact Hdue|].
  rewrite runFrames_cons. simpl. apply IH.
  - intros f' a Hin. apply Hle. right. exact Hin.
  - apply runFrame_dueAll; [|exact Hdue].
    intros a. apply Hle. left. reflexivity.
Qed.

(** X18. Every active note is rendered: in a run on a fresh chart, after a
    frame at a time [t] that no earlier frame exceeded, each note that the
    active notes refer to is among the [visibleNotes] at [t]. *)
Theorem active_notes_are_visible (chart : list NoteData) (fs : list Frame)
    (t : Q) (hands : Hands.HandPositions) :
  freshChart chart ->
  (forall f a, In f fs -> frameAudio f = Some a -> currentTime a <= t) ->
  let s := fst (runFrame (playFrame t hands) (fst (runFrames fs (initScene chart)))) in
  forall ref, In ref (activeNotes s) ->
              exists note, nth_error (notesState s) ref = Some note /\
                           In note (visibleNotes (notesState s) t).
Proof.
  intros Hfresh Hle s ref Hin.
  set (s1 := fst (runFrames fs (initScene chart))) in *.
  destruct (runFrames_exact fs (initScene chart)
              (initScene_cursor chart Hfresh) (initScene_exact chart)) as [Hb1 He1].
  fold s1 in Hb1, He1.
  pose proof (runFrame_exact (playFrame t hands) s1 Hb1 He1) as He. fold s in He.
  assert (Hdue : dueAll t s).
  { apply runFrame_dueAll; [intros a Ha; inversion Ha; subst; simpl; lra|].
    apply runFrames_dueAll; [exact Hle|]. intros r n []. }
  destruct He as (_ & _ & Hiff).
  destruct (proj1 (Hiff ref) Hin) as (_ & note & Hn & Hh & Hm).
  exists note. split; [exact Hn|].
  destruct (In_nth_error _ _ Hin) as [j Hj].
  pose proof (playFrame_settled t hands s1 j ref note (Nat.le_0_l j) Hj Hn) as Hv.
  assert (Hp : pastMissPlane t note = false).
  { unfold evalNote in Hv. rewrite Hh, Hm in Hv. simpl in Hv.
    destruct (pastMissPlane t note); [destruct Hv; discriminate | reflexivity]. }
  assert (Hlate : t <= time note + 0.5).
  { apply Qnot_lt_le. intro Hlt. apply pastMissPlane_late in Hlt. congruence. }
  pose proof (Hdue ref note Hin Hn) as Hd.
  unfold visibleNotes. apply filter_In. split; [eapply nth_error_In; exact Hn|].
  unfold visible. rewrite Hh, Hm. simpl.
  assert (H5 : Qltb (time note - t) 5 = true).
  { apply Qltb_true. unfold spawnAheadTime, SPAWN_Z, PLAYER_Z, NOTE_SPEED in Hd.
    simpl in Hd. change (Qabs (-30 - 0) / 10) with (Qabs (-30 - 0) * / 10) in Hd.
    assert (Hs : Qabs (-30 - 0) * / 10 == 3) by reflexivity.
    rewrite Hs in Hd. lra. }
  assert (H2 : Qltb (-2) (time note - t) = true) by (apply Qltb_true; lra).
  rewrite H5, H2. reflexivity.
Qed.

Lemma active_notes_are_visible_witness :
  freshChart chart120 /\
  (forall f a, In f [playFrame 1 handOnTarget] -> frameAudio f = Some a ->
               currentTime a <= 2) /\
  forall ref,
    In ref (activeNotes (fst (runFrame (playFrame 2 handOnTarget)
                                (fst (runFrames [playFrame 1 handOnTarget]
                                        (initScene chart120)))))) ->
    exists note,
      nth_error (notesState (fst (runFrame (playFrame 2 handOnTarget)
                                    (fst (runFrames [playFrame 1 handOnTarget]
                                            (initScene chart120)))))) ref = Some note /\
      In note (visibleNotes
                 (notesState (fst (runFrame (playFrame 2 handOnTarget)
                                     (fst (runFrames [playFrame 1 handOnTarget]
                                             (initScene chart120)))))) 2).
Proof.
  assert (H1 : freshChart chart120) by apply generateChart_fresh.
  assert (H2 : forall f a, In f [playFrame 1 handOnTarget] -> frameAudio f = Some a ->
                           currentTime a <= 2).
  { intros f a [<-|[]] Ha. inversion Ha; subst. simpl. discriminate. }
  split; [exact H1|]. split; [exact H2|].
  exact (active_notes_are_visible chart120 [playFrame 1 handOnTarget] 2 handOnTarget
           H1 H2).
Defined.

Lemma filter_none {A : Type} (p : A -> bool) (l : list A) :
  (forall x, In x l -> p x = false) -> filter p l = [].
Proof.
  induction l as [|a l IH]; intro H; simpl; [reflexivity|].
  rewrite (H a (or_introl eq_refl)). apply IH. intros x Hx. apply H. right. exact Hx.
Qed.

Lemma noteStep_silent (k : nat) (n n' : NoteData) :
  noteStep k n n' [] -> n' = n.
Proof.
  intros [[-> _]|(_ & _ & [[_ H]|(t & g & _ & H)])]; [reflexivity | |]; discriminate.
Qed.

(** A note before the cursor to which the active notes do not refer is out
    of the game. *)
Lemma runFrame_untouched (f : Frame) (s : SceneState) (k : nat) :
  (k < nextNoteIndex s)%nat -> ~ In k (activeNotes s) ->
  filter (resolves k) (snd (runFrame f s)) = [] /\
  nth_error (notesState (fst (runFrame f s))) k = nth_error (notesState s) k /\
  (k < nextNoteIndex (fst (runFrame f s)))%nat /\
  ~ In k (activeNotes (fst (runFrame f s))).
Proof.
  intros Hk Hnot.
  assert (Hspawn : forall t, ~ In k (activeNotes (spawnNotes t s))).
  { intros t H. rewrite spawnNotes_spec in H. simpl in H.
    apply in_app_or in H. destruct H as [H|H]; [exact (Hnot H)|].
    apply in_seq in H. lia. }
  assert (Hout : filter (resolves k) (snd (runFrame f s)) = []).
  { apply filter_none. intros c Hc.
    destruct (runFrame_justified f s c Hc) as (a & _ & _ & [[_ ->]|[_ Hj]]);
      [reflexivity|].
    destruct Hj as (ref & note & Hin & _ & [[-> _]|(g & -> & _)]);
      unfold resolves; simpl; apply Nat.eqb_neq; intros ->;
      exact (Hspawn _ Hin). }
  split; [exact Hout|].
  pose proof (runFrame_evolves f s) as [Hn _]. specialize (Hn k). rewrite Hout in Hn.
  split.
  - destruct (nth_error (notesState s) k) as [n|].
    + destruct Hn as (n' & E' & St). rewrite E'. f_equal.
      apply (noteStep_silent k). exact St.
    + apply Hn.
  - destruct (runFrame_index f s) as [Hi _]. split; [lia|].
    unfold runFrame, useFrame.
    destruct (frameStatus f); try exact Hnot.
    destruct (frameAudio f) as [a|]; [|exact Hnot].
    destruct (ended a); [exact Hnot|].
    intro H. apply collideLoop_active_sub in H. exact (Hspawn _ H).
Qed.

Lemma runFrames_untouched (fs : list Frame) (k : nat) :
  forall s : SceneState,
    (k < nextNoteIndex s)%nat -> ~ In k (activeNotes s) ->
    filter (resolves k) (snd (runFrames fs s)) = [] /\
    nth_error (notesState (fst (runFrames fs s))) k = nth_error (notesState s) k /\
    ~ In k (activeNotes (fst (runFrames fs s))).
Proof.
  induction fs as [|f fs IH]; intros s Hk Hnot.
  - simpl. auto.
  - rewrite runFrames_cons. cbn [fst snd].
    destruct (runFrame_untouched f s k Hk Hnot) as (Ho & Hn & Hk' & Hnot').
    destruct (IH _ Hk' Hnot') as (Ho2 & Hn2 & Hnot2).
    rewrite filter_app, Ho, Ho2, Hn2, Hn. auto.
Qed.

(** C8. On the chart of one note, at second 10: in the first game the frame
    at second 10 admits the note and the player cuts it; the player starts
    again on the same chart, which clears the flags of the note but leaves
    the cursor after it.  In the second game the note is pending, it is
    neither hit nor missed and the active notes do not refer to it, and at
    second 10 its admission condition [time - spawnLeadTime <= now] holds,
    but step 1 of the frame admits nothing; in no run of frames is the note
    admitted, and it gets no callback. *)
Theorem replay_does_not_admit_due_note :
  let firstGame := runFrame frameAtTen (initScene chartOneNote) in
  let s2 := restartScene (fst firstGame) in
  List.length chartOneNote = 1%nat /\
  snd firstGame = [OnNoteHit 0 true] /\
  nextNoteIndex s2 = 1%nat /\
  statusOf s2 0 = Pending /\
  option_map (dueBy 10) (nth_error (notesState s2) 0) = Some true /\
  pushedAt 10 s2 = [] /\
  forall fs : list Frame,
    ~ In 0%nat (activeNotes (fst (runFrames fs s2))) /\
    statusOf (fst (runFrames fs s2)) 0 = Pending /\
    filter (resolves 0) (snd (runFrames fs s2)) = [].
Proof.
  intros firstGame s2.
  assert (Hk : (0 < nextNoteIndex s2)%nat) by (vm_compute; lia).
  assert (Hnot : ~ In 0%nat (activeNotes s2)) by (vm_compute; tauto).
  assert (Hst : statusOf s2 0 = Pending) by (vm_compute; reflexivity).
  split; [vm_compute; reflexivity|]. split; [vm_compute; reflexivity|].
  split; [vm_compute; reflexivity|]. split; [exact Hst|].
  split; [vm_compute; reflexivity|]. split; [vm_compute; reflexivity|].
  intro fs.
  destruct (runFrames_untouched fs 0 s2 Hk Hnot) as (Ho & Hn & Hna).
  split; [exact Hna|]. split; [|exact Ho].
  unfold statusOf in *. rewrite Hn.
  destruct (nth_error (notesState s2) 0) as [n|]; [|reflexivity].
  destruct (hit n); [exact Hst|]. destruct (missed n); [exact Hst|].
  destruct (existsb (Nat.eqb 0) (activeNotes (fst (runFrames fs s2)))) eqn:Ex; [|reflexivity].
  apply existsb_exists in Ex. destruct Ex as (j & Hj & Ej).
  apply Nat.eqb_eq in Ej. subst j. contradiction.
Qed.

(** X19. Replaying the same chart does not bring back its resolved notes:
    [handleStartRequest] clears the flags of the notes but the cursor and
    the active notes of the scene stay, so a note that was hit or missed in
    the first run gets no callback in any frame of the second and is never
    active again. *)
Theorem replay_leaves_resolved_notes_out (chart : list NoteData)
    (fs1 fs2 : list Frame) (k : nat) :
  freshChart chart ->
  let s1 := fst (runFrames fs1 (initScene chart)) in
  rank (statusOf s1 k) = 2%nat ->
  filter (resolves k) (snd (runFrames fs2 (restartScene s1))) = [] /\
  statusOf (fst (runFrames fs2 (restartScene s1))) k = Pending.
Proof.
  intros Hfresh s1 Hr.
  destruct (runFrames_exact fs1 (initScene chart)
              (initScene_cursor chart Hfresh) (initScene_exact chart))
    as [[_ Hflag] (_ & _ & Hiff)].
  fold s1 in Hflag, Hiff.
  assert (Hn : exists n, nth_error (notesState s1) k = Some n /\
                         hit n || missed n = true).
  { unfold statusOf in Hr.
    destruct (nth_error (notesState s1) k) as [n|]; [|discriminate].
    exists n. split; [reflexivity|].
    destruct (hit n); [reflexivity|]. destruct (missed n); [reflexivity|].
    destruct (existsb (Nat.eqb k) (activeNotes s1)); discriminate. }
  destruct Hn as (n & Hn & Hf).
  assert (Hk : (k < nextNoteIndex (restartScene s1))%nat) by (apply (Hflag k n Hn Hf)).
  assert (Hnot : ~ In k (activeNotes (restartScene s1))).
  { simpl. intro H. apply Hiff in H. destruct H as (_ & n' & Hn' & Hh & Hm).
    rewrite Hn in Hn'. inversion Hn'; subst n'. rewrite Hh, Hm in Hf. discriminate. }
  destruct (runFrames_untouched fs2 k (restartScene s1) Hk Hnot) as (Ho & Hnth & Hna).
  split; [exact Ho|].
  unfold statusOf. rewrite Hnth. simpl. unfold resetChart.
  rewrite nth_error_map, Hn. simpl.
  destruct (existsb (Nat.eqb k) _) eqn:Ex; [|reflexivity].
  apply existsb_exists in Ex. destruct Ex as (j & Hj & Ej).
  apply Nat.eqb_eq in Ej. subst j. contradiction.
Qed.

Lemma replay_leaves_resolved_notes_out_witness :
  freshChart [noteAtTen] /\
  rank (statusOf (fst (runFrames [frameAtTen] (initScene [noteAtTen]))) 0) = 2%nat /\
  filter (resolves 0)
         (snd (runFrames [frameAtTen; frameAtEleven]
                 (restartScene (fst (runFrames [frameAtTen] (initScene [noteAtTen]))))))
  = [].
Proof.
  assert (H1 : freshChart [noteAtTen]).
  { constructor; [split; reflexivity | constructor]. }
  assert (H2 : rank (statusOf (fst (runFrames [frameAtTen] (initScene [noteAtTen]))) 0)
               = 2%nat) by (vm_compute; reflexivity).
  split; [exact H1|]. split; [exact H2|].
  exact (proj1 (replay_leaves_resolved_notes_out [noteAtTen] [frameAtTen]
                  [frameAtTen; frameAtEleven] 0 H1 H2)).
Defined.

(** ** The frame and the session together *)

Lemma runFrames_callback (fs : list Frame) (c : Callback) :
  forall s : SceneState,
    In c (snd (runFrames fs s)) ->
    exists f s', In f fs /\ In c (snd (runFrame f s')).
Proof.
  induction fs as [|f fs IH]; intros s H; [destruct H|].
  rewrite runFrames_cons in H. simpl in H. apply in_app_or in H.
  destruct H as [H|H].
  - exists f, s. split; [left; reflexivity | exact H].
  - destruct (IH _ H) as (f' & s' & Hin & Hc).
    exists f', s'. split; [right; exact Hin | exact Hc].
Qed.

Lemma dispatchAll_no_hits (cs : list Callback) :
  forall s : SessionState,
    Forall (fun c => isHit c = false) cs ->
    score (dispatchAll s cs) = score s /\
    (combo s = 0%Z -> combo (dispatchAll s cs) = 0%Z).
Proof.
  induction cs as [|c cs IH]; intros s H; [auto|].
  inversion H as [|? ? Hc Hcs]; subst. simpl.
  destruct (IH (dispatch s c) Hcs) as [Hs Hco].
  assert (Hd : score (dispatch s c) = score s /\
               (combo s = 0%Z -> combo (dispatch s c) = 0%Z)).
  { destruct c as [k g|k|]; [discriminate | | simpl; auto].
    simpl. unfold handleNoteMiss.
    destruct (negb (isNoFailMode s)); [|simpl; auto].
    destruct (health s - 15 <=? 0)%Z; simpl; auto. }
  destruct Hd as [Hd1 Hd2]. split; [congruence | auto].
Qed.

(** X20. A player whose hands are never detected scores nothing: when no
    frame of a run has a hand position, the callbacks of the run leave the
    score and the combo of the session at 0. *)
Theorem undetected_player_scores_nothing (fs : list Frame) (s : SceneState)
    (s0 : SessionState) :
  (forall f, In f fs -> Hands.left (frameHands f) = None /\
                        Hands.right (frameHands f) = None) ->
  let final := dispatchAll (handleStartRequest true s0) (snd (runFrames fs s)) in
  score final = 0%Z /\ combo final = 0%Z.
Proof.
  intros Hno final.
  assert (H : Forall (fun c => isHit c = false) (snd (runFrames fs s))).
  { apply Forall_forall. intros c Hc.
    destruct (runFrames_callback fs c s Hc) as (f & s' & Hf & Hin).
    destruct (Hno f Hf) as [Hl Hr].
    destruct c as [k g|k|]; try reflexivity. exfalso.
    destruct (runFrame_justified f s' _ Hin) as (a & _ & _ & [[_ Hc']|[_ Hj]]);
      [discriminate|].
    destruct Hj as (r & note & _ & _ & [[Hc' _]|(g' & _ & Hv)]); [discriminate|].
    apply evalNote_Cut in Hv. destruct Hv as (_ & _ & _ & _ & Hcol).
    destruct (collision_hand _ _ _ _ Hcol) as (p & Hp & _).
    unfold handFor in Hp. destruct (type note); congruence. }
  destruct (dispatchAll_no_hits _ (handleStartRequest true s0) H) as [Hs Hc].
  split; [exact Hs | apply Hc; reflexivity].
Qed.

Lemma undetected_player_scores_nothing_witness :
  let hands := Hands.mk None None (mkVec 0 2 0) (mkVec 0 2 0) in
  (forall f, In f [playFrame 10 hands; playFrame 11 hands] ->
             Hands.left (frameHands f) = None /\ Hands.right (frameHands f) = None) /\
  score (dispatchAll (handleStartRequest true initialSession)
           (snd (runFrames [playFrame 10 hands; playFrame 11 hands]
                   (initScene [noteAtTen])))) = 0%Z.
Proof.
  intro hands.
  assert (H : forall f, In f [playFrame 10 hands; playFrame 11 hands] ->
                Hands.left (frameHands f) = None /\ Hands.right (frameHands f) = None).
  { intros f [<-|[<-|[]]]; split; reflexivity. }
  split; [exact H|].
  exact (proj1 (undetected_player_scores_nothing
                  [playFrame 10 hands; playFrame 11 hands] (initScene [noteAtTen])
                  initialSession H)).
Defined.

Lemma resolvedNotes_count (out : list Callback) (k : nat) :
  count_occ Nat.eq_dec (resolvedNotes out) k
  = List.length (filter (resolves k) out).
Proof.
  induction out as [|c out IH]; simpl; [reflexivity|].
  unfold resolvedNotes in *. simpl. unfold resolves at 1.
  destruct (callbackNote c) as [j|]; simpl; [|exact IH].
  destruct (Nat.eq_dec j k) as [->|Hne].
  - rewrite Nat.eqb_refl. simpl. rewrite IH. reflexivity.
  - apply Nat.eqb_neq in Hne. rewrite Hne. exact IH.
Qed.

Lemma fresh_run_resolvedNotes (chart : list NoteData) (fs : list Frame) :
  freshChart chart ->
  let s := fst (runFrames fs (initScene chart)) in
  let out := snd (runFrames fs (initScene chart)) in
  NoDup (resolvedNotes out) /\
  Forall (fun k => (k < nextNoteIndex s)%nat) (resolvedNotes out).
Proof.
  intros Hfresh s out.
  pose proof (runFrames_evolves fs (initScene chart)) as Hrun.
  pose proof (runFrames_cursor fs _ (initScene_cursor chart Hfresh)) as [_ Hflag].
  fold s in Hrun, Hflag. fold out in Hrun.
  assert (Hcases : forall k,
            (List.length (filter (resolves k) out) <= 1)%nat /\
            (filter (resolves k) out <> [] -> (k < nextNoteIndex s)%nat)).
  { intro k. destruct (nth_error (notesState s) k) as [n|] eqn:E.
    - destruct (fresh_run_flags chart s out k n Hfresh Hrun E)
        as [(Hh & Hm & Ho)|[(Hh & Hm & Ho)|(Hh & Hm & g & Ho)]]; rewrite Ho.
      + split; [simpl; lia | congruence].
      + split; [simpl; lia|]. intros _. apply (Hflag k n E).
        rewrite Hh, Hm. reflexivity.
      + split; [simpl; lia|]. intros _. apply (Hflag k n E).
        rewrite Hh. reflexivity.
    - destruct Hrun as [Hn _]. specialize (Hn k).
      destruct (nth_error (notesState (initScene chart)) k).
      + destruct Hn as (n' & E' & _). congruence.
      + destruct Hn as [_ Ho]. rewrite Ho. split; [simpl; lia | congruence]. }
  split.
  - apply (NoDup_count_occ Nat.eq_dec). intro k.
    rewrite resolvedNotes_count. apply Hcases.
  - apply Forall_forall. intros k Hk. apply Hcases.
    apply (count_occ_In Nat.eq_dec) in Hk. rewrite resolvedNotes_count in Hk.
    intro H0. rewrite H0 in Hk. simpl in Hk. lia.
Qed.

Lemma NoDup_below_length (l : list nat) (n : nat) :
  NoDup l -> Forall (fun k => (k < n)%nat) l -> (List.length l <= n)%nat.
Proof.
  intros Hnd Hf. rewrite <- (length_seq n 0).
  apply NoDup_incl_length; [exact Hnd|].
  intros k Hk. rewrite Forall_forall in Hf. apply in_seq. specialize (Hf k Hk). lia.
Qed.

(** X21. In a run on a fresh chart every note gets at most one callback,
    and only notes before the cursor get one: the notes of the hit and miss
    callbacks are pairwise different, and there are no more of them than
    notes before the cursor, nor than notes in the chart. *)
Theorem callbacks_at_most_one_per_note (chart : list NoteData) (fs : list Frame) :
  freshChart chart ->
  let s := fst (runFrames fs (initScene chart)) in
  let out := snd (runFrames fs (initScene chart)) in
  NoDup (resolvedNotes out) /\
  (List.length (resolvedNotes out) <= nextNoteIndex s)%nat /\
  (nextNoteIndex s <= List.length chart)%nat.
Proof.
  intros Hfresh s out.
  destruct (fresh_run_resolvedNotes chart fs Hfresh) as [Hnd Hlt].
  fold s out in Hnd, Hlt.
  split; [exact Hnd|]. split; [apply NoDup_below_length; assumption|].
  destruct (runFrames_exact fs (initScene chart)
              (initScene_cursor chart Hfresh) (initScene_exact chart))
    as [_ (_ & Hlen & _)].
  pose proof (Evolves_length _ _ _ (runFrames_evolves fs (initScene chart))) as HL.
  simpl in HL. fold s in Hlen, HL. lia.
Qed.

Lemma callbacks_at_most_one_per_note_witness :
  freshChart chart120 /\
  NoDup (resolvedNotes (snd (runFrames [playFrame 2 handOnTarget; playFrame 9 handOnTarget]
                               (initScene chart120)))).
Proof.
  assert (H : freshChart chart120) by apply generateChart_fresh.
  split; [exact H|].
  exact (proj1 (callbacks_at_most_one_per_note chart120
                  [playFrame 2 handOnTarget; playFrame 9 handOnTarget] H)).
Defined.

Lemma multiplierFor_le (c : Z) : (multiplierFor c <= 8)%Z.
Proof.
  unfold multiplierFor.
  destruct (c >? 30)%Z; [lia|]. destruct (c >? 20)%Z; [lia|].
  destruct (c >? 10)%Z; lia.
Qed.

Lemma hits_le_resolved (out : list Callback) :
  (List.length (filter isHit out) <= List.length (resolvedNotes out))%nat.
Proof.
  induction out as [|c out IH]; simpl; [lia|].
  unfold resolvedNotes in *. simpl. rewrite length_app.
  destruct c as [k g|k|]; simpl; lia.
Qed.

Lemma session_score_le (s0 : SessionState) (cs : list Callback) :
  (score (dispatchAll (handleStartRequest true s0) cs)
   <= 1200 * Z.of_nat (List.length (filter isHit cs)))%Z.
Proof.
  induction cs as [|c cs IH] using rev_ind; [simpl; lia|].
  rewrite dispatchAll_app, filter_app, length_app.
  cbn [dispatchAll fold_left].
  destruct (session_invariant s0 cs) as (Hm & _ & _).
  set (s := dispatchAll (handleStartRequest true s0) cs) in *.
  pose proof (multiplierFor_le (combo s)) as H8.
  pose proof (multiplierFor_pos (combo s)) as H1.
  destruct c as [k g|k|]; cbn [dispatch filter isHit List.length].
  - unfold handleNoteHit. cbn [score]. rewrite Hm. destruct g; nia.
  - assert (E : score (handleNoteMiss (isNoFailMode s) s) = score s).
    { unfold handleNoteMiss. destruct (negb (isNoFailMode s)); [|reflexivity].
      destruct (health s - 15 <=? 0)%Z; reflexivity. }
    rewrite E. lia.
  - unfold endGame. cbn [score]. lia.
Qed.

(** X22. The score of a game is at most 1200 points for each note of the
    chart: the callbacks of any run of frames on a fresh chart, served by a
    new session, give no more. *)
Theorem game_score_bounded (chart : list NoteData) (fs : list Frame)
    (s0 : SessionState) :
  freshChart chart ->
  (score (dispatchAll (handleStartRequest true s0)
            (snd (runFrames fs (initScene chart))))
   <= 1200 * Z.of_nat (List.length chart))%Z.
Proof.
  intro Hfresh.
  pose proof (session_score_le s0 (snd (runFrames fs (initScene chart)))) as Hs.
  pose proof (hits_le_resolved (snd (runFrames fs (initScene chart)))) as Hh.
  destruct (fresh_run_resolvedNotes chart fs Hfresh) as [Hnd Hlt].
  pose proof (NoDup_below_length _ _ Hnd Hlt) as Hr.
  destruct (runFrames_exact fs (initScene chart)
              (initScene_cursor chart Hfresh) (initScene_exact chart))
    as [_ (_ & Hlen & _)].
  pose proof (Evolves_length _ _ _ (runFrames_evolves fs (initScene chart))) as HL.
  simpl in HL. lia.
Qed.

Lemma game_score_bounded_witness :
  freshChart [noteAtTen] /\
  (score (dispatchAll (handleStartRequest true initialSession)
            (snd (runFrames [frameAtTen] (initScene [noteAtTen]))))
   <= 1200 * Z.of_nat (List.length [noteAtTen]))%Z.
Proof.
  assert (H : freshChart [noteAtTen]).
  { constructor; [split; reflexivity | constructor]. }
  split; [exact H|].
  exact (game_score_bounded [noteAtTen] [frameAtTen] initialSession H).
Defined.

(** ** The camera shake *)

(** X23. The camera shake never grows by itself and never becomes
    negative: a frame of [delta >= 0] seconds takes a shake [>= 0] to a
    shake that is no larger and is either 0 or at least 0.01; a frame of a
    tenth of a second or more ends it; and a hit sets it to at most 0.3. *)
Theorem shake_decays (delta shakeIntensity : Q) :
  0 <= delta -> 0 <= shakeIntensity ->
  0 <= shakeDecay delta shakeIntensity /\
  shakeDecay delta shakeIntensity <= shakeIntensity /\
  (shakeDecay delta shakeIntensity == 0 \/ 0.01 <= shakeDecay delta shakeIntensity) /\
  (0.1 <= delta -> shakeDecay delta shakeIntensity == 0) /\
  (forall goodCut, 0.01 <= hitShake goodCut /\ hitShake goodCut <= 0.3).
Proof.
  intros Hd Hs. unfold shakeDecay, lerp.
  assert (Hhit : forall goodCut, 0.01 <= hitShake goodCut /\ hitShake goodCut <= 0.3).
  { intros []; unfold hitShake; split; discriminate. }
  destruct (Qltb 0 shakeIntensity) eqn:E0.
  - apply Qltb_true in E0.
    set (x := (1 - 10 * delta) * shakeIntensity + 10 * delta * 0).
    assert (Hx : x == shakeIntensity - 10 * delta * shakeIntensity)
      by (unfold x; ring).
    assert (Hp : 0 <= delta * shakeIntensity) by nra.
    destruct (Qltb x 0.01) eqn:E1.
    + split; [lra|]. split; [lra|]. split; [left; reflexivity|].
      split; [intros _; reflexivity | exact Hhit].
    + apply Qltb_false in E1.
      split; [lra|]. split; [lra|]. split; [right; exact E1|].
      split; [|exact Hhit].
      intro H01. exfalso.
      assert (shakeIntensity * 0.1 <= delta * shakeIntensity) by nra.
      lra.
  - apply Qltb_false in E0.
    assert (Hz : shakeIntensity == 0) by lra.
    split; [lra|]. split; [lra|]. split; [left; exact Hz|].
    split; [intros _; exact Hz | exact Hhit].
Qed.

Lemma shake_decays_witness :
  0 <= 1 # 60 /\ 0 <= hitShake true /\
  shakeDecay (1 # 60) (hitShake true) <= hitShake true.
Proof.
  assert (H1 : 0 <= 1 # 60) by discriminate.
  assert (H2 : 0 <= hitShake true) by discriminate.
  split; [exact H1|]. split; [exact H2|].
  exact (proj1 (proj2 (shake_decays (1 # 60) (hitShake true) H1 H2))).
Defined.

(** A frame during play resolves every active note on which the loop body
    decides a miss or a cut. *)
Lemma playFrame_resolves (t : Q) (hands : Hands.HandPositions) (s : SceneState)
    (ref : nat) (note : NoteData) :
  In ref (activeNotes s) -> nth_error (notesState s) ref = Some note ->
  snd (evalNote t hands note) <> Skipped ->
  snd (evalNote t hands note) <> Kept ->
  exists c n',
    In c (snd (runFrame (playFrame t hands) s)) /\
    nth_error (notesState (fst (runFrame (playFrame t hands) s))) ref = Some n' /\
    ((c = OnNoteMiss ref /\ snd (evalNote t hands note) = Missed /\
      n' = markMissed note) \/
     (exists g, c = OnNoteHit ref g /\ snd (evalNote t hands note) = Cut g /\
                hit n' = true /\ missed n' = false)).
Proof.
  intros Hin Hn Hs Hk.
  set (f := playFrame t hands).
  pose proof (runFrame_evolves f s) as [Hnotes Hact].
  specialize (Hnotes ref). rewrite Hn in Hnotes.
  destruct Hnotes as (n' & Hn' & St).
  assert (Hun : hit note = false /\ missed note = false).
  { unfold evalNote in Hs. destruct (hit note), (missed note); simpl in Hs;
      try (exfalso; apply Hs; reflexivity). auto. }
  assert (Hchanged : n' <> note).
  { intros ->. destruct (Hact ref Hin) as [Hin'|(n2 & Hn2 & Hf)].
    - destruct (In_nth_error _ _ Hin') as [j Hj].
      destruct (playFrame_settled t hands s j ref note (Nat.le_0_l j) Hj Hn');
        contradiction.
    - fold f in Hn2. rewrite Hn' in Hn2. inversion Hn2; subst n2.
      destruct Hun as [Hh Hm]. rewrite Hh, Hm in Hf. discriminate. }
  assert (Hcb : forall c, filter (resolves ref) (snd (runFrame f s)) = [c] ->
                  In c (snd (runFrame f s))).
  { intros c Hc. assert (Hi : In c (filter (resolves ref) (snd (runFrame f s))))
      by (rewrite Hc; left; reflexivity).
    apply filter_In in Hi. apply Hi. }
  assert (Hwhy : forall c, In c (snd (runFrame f s)) -> callbackNote c = Some ref ->
            (c = OnNoteMiss ref /\ snd (evalNote t hands note) = Missed) \/
            (exists g, c = OnNoteHit ref g /\ snd (evalNote t hands note) = Cut g)).
  { intros c Hc Hr.
    destruct (runFrame_justified f s c Hc) as (a & _ & Ha & [[_ ->]|[_ Hj]]);
      [discriminate|].
    simpl in Ha. inversion Ha; subst a. simpl in Hj.
    destruct Hj as (r & n0 & _ & Hn0 & Hv).
    rewrite spawnNotes_spec in Hn0. simpl in Hn0.
    destruct Hv as [[-> Hv]|(g & -> & Hv)]; simpl in Hr; inversion Hr; subst r;
      rewrite Hn in Hn0; inversion Hn0; subst n0.
    - left. auto.
    - right. exists g. auto. }
  destruct St as [[-> _]|(_ & _ & [[-> Hc]|(t' & g' & -> & Hc)])];
    [contradiction | |].
  - exists (OnNoteMiss ref), (markMissed note).
    split; [apply Hcb, Hc|]. split; [exact Hn'|].
    destruct (Hwhy _ (Hcb _ Hc) eq_refl) as [[_ Hv]|(g & Hg & _)];
      [left; auto | discriminate].
  - exists (OnNoteHit ref g'), (markHit t' note).
    split; [apply Hcb, Hc|]. split; [exact Hn'|].
    destruct (Hwhy _ (Hcb _ Hc) eq_refl) as [[Hg _]|(g & Hg & Hv)];
      [discriminate|].
    inversion Hg; subst g. right. exists g'.
    destruct Hun as [Hh Hm]. simpl. auto.
Qed.

(** X24. A frame hits every note it can: an active note, neither hit nor
    missed, that is inside the hit window at the time of the frame and
    whose hand touches it, gets [onNoteHit] with the quality of the cut in
    that very frame, and is marked hit. *)
Theorem touched_note_is_hit (t : Q) (hands : Hands.HandPositions) (s : SceneState)
    (ref : nat) (note : NoteData) (g : bool) :
  In ref (activeNotes s) -> nth_error (notesState s) ref = Some note ->
  hit note = false -> missed note = false ->
  time note - 0.15 < t -> t < time note + 0.1 ->
  collision t hands note = Some g ->
  In (OnNoteHit ref g) (snd (runFrame (playFrame t hands) s)) /\
  exists n', nth_error (notesState (fst (runFrame (playFrame t hands) s))) ref = Some n' /\
             hit n' = true /\ missed n' = false.
Proof.
  intros Hin Hn Hh Hm H1 H2 Hc.
  assert (Hw : nearPlayer t note = true) by (apply nearPlayer_window; auto).
  assert (Hp : pastMissPlane t note = false).
  { pose proof (miss_and_window_exclusive t note) as Hex. rewrite Hw in Hex.
    rewrite andb_true_r in Hex. exact Hex. }
  assert (Hv : snd (evalNote t hands note) = Cut g).
  { unfold evalNote. rewrite Hh, Hm, Hp, Hw, Hc. reflexivity. }
  destruct (playFrame_resolves t hands s ref note Hin Hn) as (c & n' & Hc' & Hn' & Hcase);
    try (rewrite Hv; discriminate).
  destruct Hcase as [(_ & Hx & _)|(g' & -> & Hx & Hh' & Hm')]; [congruence|].
  rewrite Hv in Hx. inversion Hx; subst g'.
  split; [exact Hc'|]. exists n'. auto.
Qed.

Lemma touched_note_is_hit_witness :
  In (OnNoteHit 0 true)
     (snd (runFrame (playFrame 10 handOnTarget)
                    (mkScene [noteAtTen] [0%nat] 1))).
Proof.
  assert (H1 : time noteAtTen - 0.15 < 10) by reflexivity.
  assert (H2 : 10 < time noteAtTen + 0.1) by reflexivity.
  assert (H3 : collision 10 handOnTarget noteAtTen = Some true)
    by (vm_compute; reflexivity).
  exact (proj1 (touched_note_is_hit 10 handOnTarget (mkScene [noteAtTen] [0%nat] 1)
                  0 noteAtTen true (or_introl eq_refl) eq_refl eq_refl eq_refl
                  H1 H2 H3)).
Defined.

(** X25. A frame misses every note that is too late: an active note,
    neither hit nor missed, that is more than 0.5 seconds late at the time
    of the frame gets [onNoteMiss] in that very frame, whatever the hands
    do, and is marked missed. *)
Theorem late_note_is_missed_in_frame (t : Q) (hands : Hands.HandPositions)
    (s : SceneState) (ref : nat) (note : NoteData) :
  In ref (activeNotes s) -> nth_error (notesState s) ref = Some note ->
  hit note = false -> missed note = false ->
  time note + 0.5 < t ->
  In (OnNoteMiss ref) (snd (runFrame (playFrame t hands) s)) /\
  nth_error (notesState (fst (runFrame (playFrame t hands) s))) ref
    = Some (markMissed note).
Proof.
  intros Hin Hn Hh Hm Hl.
  assert (Hp : pastMissPlane t note = true) by (apply pastMissPlane_late; exact Hl).
  assert (Hv : snd (evalNote t hands note) = Missed).
  { unfold evalNote. rewrite Hh, Hm, Hp. reflexivity. }
  destruct (playFrame_resolves t hands s ref note Hin Hn) as (c & n' & Hc' & Hn' & Hcase);
    try (rewrite Hv; discriminate).
  destruct Hcase as [(-> & _ & ->)|(g' & _ & Hx & _)]; [|congruence].
  split; assumption.
Qed.

Lemma late_note_is_missed_in_frame_witness :
  In (OnNoteMiss 0)
     (snd (runFrame (playFrame 11 handOnTarget) (mkScene [noteAtTen] [0%nat] 1))).
Proof.
  assert (H1 : time noteAtTen + 0.5 < 11) by reflexivity.
  exact (proj1 (late_note_is_missed_in_frame 11 handOnTarget
                  (mkScene [noteAtTen] [0%nat] 1) 0 noteAtTen
                  (or_introl eq_refl) eq_refl eq_refl eq_refl H1)).
Defined.

(** ** The playlist *)

(** X26. There is always an active song, and it is a song of the playlist,
    whatever the index: inside the playlist it is the song at the index,
    outside it is the first built-in song; the index selected after a save
    makes the last song of the reloaded library the active one. *)
Theorem activeSong_in_playlist (currentSongIndex : Z) (librarySongs : list SongConfig) :
  (exists song, activeSong currentSongIndex librarySongs = Some song /\
                In song (playlist librarySongs)) /\
  ((0 <= currentSongIndex < Z.of_nat (List.length (playlist librarySongs)))%Z ->
   activeSong currentSongIndex librarySongs
   = nth_error (playlist librarySongs) (Z.to_nat currentSongIndex)) /\
  (~ (0 <= currentSongIndex < Z.of_nat (List.length (playlist librarySongs)))%Z ->
   activeSong currentSongIndex librarySongs = nth_error SONG_LIST 0) /\
  (librarySongs <> [] ->
   activeSong (indexAfterSave librarySongs) librarySongs
   = Some (last librarySongs (mkSong "" "" "" "" 0 Easy "" 0 false))).
Proof.
  assert (Hin : forall i,
            (0 <= i < Z.of_nat (List.length (playlist librarySongs)))%Z ->
            lookupSong (playlist librarySongs) i
            = nth_error (playlist librarySongs) (Z.to_nat i) /\
            exists song, nth_error (playlist librarySongs) (Z.to_nat i) = Some song).
  { intros i Hi. unfold lookupSong.
    destruct (i <? 0)%Z eqn:E; [apply Z.ltb_lt in E; lia|].
    split; [reflexivity|].
    destruct (nth_error (playlist librarySongs) (Z.to_nat i)) as [song|] eqn:En;
      [exists song; reflexivity|].
    apply nth_error_None in En. lia. }
  assert (Hout : forall i,
            ~ (0 <= i < Z.of_nat (List.length (playlist librarySongs)))%Z ->
            lookupSong (playlist librarySongs) i = None).
  { intros i Hi. unfold lookupSong.
    destruct (i <? 0)%Z eqn:E; [reflexivity|]. apply Z.ltb_ge in E.
    apply nth_error_None. lia. }
  assert (Hcases : (0 <= currentSongIndex
                    < Z.of_nat (List.length (playlist librarySongs)))%Z \/
                   ~ (0 <= currentSongIndex
                      < Z.of_nat (List.length (playlist librarySongs)))%Z) by lia.
  split; [|split; [|split]].
  - unfold activeSong. destruct Hcases as [Hi|Ho].
    + destruct (Hin _ Hi) as [E (song & Hs)]. rewrite E, Hs.
      exists song. split; [reflexivity | eapply nth_error_In; exact Hs].
    + rewrite (Hout _ Ho). eexists. split; [reflexivity|].
      unfold playlist. apply in_or_app. left. left. reflexivity.
  - intro Hi. unfold activeSong. destruct (Hin _ Hi) as [E (song & Hs)].
    rewrite E, Hs. reflexivity.
  - intro Ho. unfold activeSong. rewrite (Hout _ Ho). reflexivity.
  - intro Hne. unfold activeSong, indexAfterSave, lookupSong, playlist.
    change (List.length SONG_LIST) with 3%nat.
    destruct (Z.of_nat 3 + Z.of_nat (List.length librarySongs) - 1 <? 0)%Z eqn:E;
      [apply Z.ltb_lt in E; lia|].
    destruct (exists_last Hne) as (l & a & ->).
    rewrite length_app, last_last. simpl List.length.
    replace (Z.to_nat (Z.of_nat 3 + Z.of_nat (List.length l + 1) - 1))
      with (3 + List.length l)%nat by lia.
    rewrite nth_error_app2 by (simpl; lia).
    replace (3 + List.length l - List.length SONG_LIST)%nat with (List.length l)
      by (simpl; lia).
    rewrite nth_error_app2 by lia. rewrite Nat.sub_diag. reflexivity.
Qed.

Lemma activeSong_in_playlist_witness :
  activeSong 7 [] = nth_error SONG_LIST 0.
Proof.
  assert (H : ~ (0 <= 7 < Z.of_nat (List.length (playlist [])))%Z) by (simpl; lia).
  exact (proj1 (proj2 (proj2 (activeSong_in_playlist 7 []))) H).
Defined.

(** ** The first note *)

Lemma chartStep_extends rand offset beatTime i st :
  exists more, notes (chartStep rand offset beatTime i st) = notes st ++ more.
Proof.
  unfold chartStep, pushRandom, pushFixed.
  destruct (Z.rem (i / 16) 3 =? 0)%Z.
  - destruct (Z.rem i 4 =? 0)%Z; simpl; eexists; reflexivity.
  - destruct (Z.rem (i / 16) 3 =? 1)%Z.
    + destruct (Z.rem i 8 =? 0)%Z; simpl.
      * rewrite <- app_assoc. eexists; reflexivity.
      * exists []. rewrite app_nil_r. reflexivity.
    + simpl. rewrite <- app_assoc. eexists; reflexivity.
Qed.

Lemma chartLoop_extends rand offset beatTime totalBeats :
  forall (f : nat) (i : Z) (st : GenState),
  exists more,
    notes (chartLoop f rand offset beatTime totalBeats i st) = notes st ++ more.
Proof.
  induction f as [|f IH]; intros i st; simpl.
  - exists []. rewrite app_nil_r. reflexivity.
  - destruct (i <? totalBeats)%Z.
    + destruct (IH (i + 2)%Z (chartStep rand offset beatTime i st)) as (m2 & E2).
      destruct (chartStep_extends rand offset beatTime i st) as (m1 & E1).
      exists (m1 ++ m2). rewrite E2, E1, app_assoc. reflexivity.
    + exists []. rewrite app_nil_r. reflexivity.
Qed.

(** X27. A chart has notes exactly when the track has more than four
    beats: with four beats or fewer it is empty, and with more, at a
    positive tempo, it starts with the note [note-0], for the left hand, in
    layer 0, at beat 4. *)
Theorem generateChart_first_note rand bpm offset durationSeconds :
  let totalBeats := Qceiling ((durationSeconds / 60) * bpm) in
  ((totalBeats <= 4)%Z -> generateChart rand bpm offset durationSeconds = []) /\
  (0 < bpm -> (4 < totalBeats)%Z ->
   exists rest,
     generateChart rand bpm offset durationSeconds
     = mkNote "note-0" (offset + 4 * (60 / bpm)) (getRandomInt 0 1 (rand 0%nat))
              0 LeftHand ANY false false None :: rest).
Proof.
  intro totalBeats. split.
  - intro H. unfold generateChart, chartNotes. fold totalBeats.
    rewrite chartLoop_no_beats by exact H. reflexivity.
  - intros Hbpm H.
    assert (E : generateChart rand bpm offset durationSeconds
                = chartNotes rand bpm offset durationSeconds).
    { unfold generateChart. apply sortBy_sorted_id, chartNotes_sorted, Hbpm. }
    rewrite E. unfold chartNotes. fold totalBeats.
    destruct (Z.to_nat totalBeats) as [|f] eqn:Ef; [lia|].
    cbn [chartLoop]. destruct (4 <? totalBeats)%Z eqn:E4; [|apply Z.ltb_ge in E4; lia].
    destruct (chartLoop_extends rand offset (60 / bpm) totalBeats f (4 + 2)%Z
                (chartStep rand offset (60 / bpm) 4 (mkGen [] 0 0))) as (more & Em).
    rewrite Em. exists more. reflexivity.
Qed.

Lemma generateChart_first_note_witness :
  0 < 120 /\ (4 < Qceiling ((30 / 60) * 120))%Z /\
  exists rest,
    generateChart randAlt 120 0 30
    = mkNote "note-0" (0 + 4 * (60 / 120)) (getRandomInt 0 1 (randAlt 0%nat))
             0 LeftHand ANY false false None :: rest.
Proof.
  assert (H1 : 0 < 120) by reflexivity.
  assert (H2 : (4 < Qceiling ((30 / 60) * 120))%Z) by (vm_compute; reflexivity).
  split; [exact H1|]. split; [exact H2|].
  exact (proj2 (generateChart_first_note randAlt 120 0 30) H1 H2).
Defined.
